(** * Flappy Soup: the simulation core of [FlappySoupGame]

    A shallow embedding of the game component: the session state held in
    React state ([gameState], [score], [highScore]), the mutable game data
    held in [gameDataRef] (player, pipes, bubbles, frame counter), the soup
    surface function and the per-frame [gameLoop].

    Numbers.  A JavaScript number is modelled by a real number: the
    arithmetic of the game is read exactly (no rounding), [Math.sin] is the
    real sine and [Math.PI] is [PI].  Counters that only ever hold integers
    ([frameCount], [score], [highScore]) are integers.  Each call of
    [Math.random()] is an input of the tick, a real that the caller promises
    to be in [[0, 1)].  Where rounding decides a property, the line of the
    program is also given over binary64 numbers (module [Binary64]): the
    height of a spawned fork, which exact arithmetic keeps below 220 and
    the program does not.

    React.  The state setters called during a frame take effect when the
    frame's callback has returned: the component renders again and the
    effect installs [gameLoop] with the callbacks of the new render before
    the next animation frame.  Inside a frame, [endGame] therefore still
    holds the score of the last render, the score before the frame.

    The skin, the drawing code and the static server have no part in the
    simulation; what is modelled of them follows it. *)

From Stdlib Require Import Reals Lra Lia ZArith List Bool.
From Stdlib Require PrimFloat.
Import ListNotations.

Open Scope R_scope.

(** ** Constants *)

Definition GAME_WIDTH : R := 800.
Definition GAME_HEIGHT : R := 600.

Definition PLAYER_SIZE : R := 40.
Definition GRAVITY : R := 0.5.
Definition JUMP_FORCE : R := -10.
Definition MAX_FALL_SPEED : R := 12.

Definition PIPE_WIDTH : R := 80.
Definition PIPE_GAP : R := 280.
Definition SPAWN_INTERVAL : Z := 140.
Definition GAME_SPEED : R := 3.9.

Definition SOUP_BASE_Y : R := GAME_HEIGHT - 60.

(** ** Comparisons of numbers, as booleans *)

Definition ltb (a b : R) : bool := if Rlt_dec a b then true else false.
Definition gtb (a b : R) : bool := ltb b a.
Definition strict_eqb (a b : R) : bool := if Req_dec_T a b then true else false.

(** ** Data *)

(** [interface Pipe extends GameObject]. *)
Record Pipe : Type := mkPipe {
  x : R;
  y : R;
  width : R;
  height : R;
  passed : bool
}.

(** [interface Bubble]; the fields [x] and [y] are [bx] and [by_] here. *)
Record Bubble : Type := mkBubble {
  bx : R;
  by_ : R;
  r : R;
  vy : R;
  wobble : R
}.

(** The [player] object of [gameDataRef]; its [x], [y], [width] and
    [height] are [px], [py], [pwidth] and [pheight] here. *)
Record Player : Type := mkPlayer {
  px : R;
  py : R;
  pwidth : R;
  pheight : R;
  velocity : R
}.

(** The object held by [gameDataRef.current]. *)
Record GameData : Type := mkGameData {
  player : Player;
  pipes : list Pipe;
  bubbles : list Bubble;
  frameCount : Z
}.

Inductive Phase : Type := menu | playing | gameOver.

(** The React state of the component together with the ref. *)
Record App : Type := mkApp {
  gameState : Phase;
  score : Z;
  highScore : Z;
  game : GameData
}.

(** The values [Math.random()] returns during one tick, in call order: one
    for the fork height, then four for a new bubble. *)
Record Rand : Type := mkRand {
  rnd_pipe : R;
  rnd_bx : R;
  rnd_br : R;
  rnd_bvy : R;
  rnd_bw : R
}.

Definition unit_interval (u : R) : Prop := 0 <= u < 1.

Definition rand_ok (rnd : Rand) : Prop :=
  unit_interval (rnd_pipe rnd) /\ unit_interval (rnd_bx rnd) /\
  unit_interval (rnd_br rnd) /\ unit_interval (rnd_bvy rnd) /\
  unit_interval (rnd_bw rnd).

(** ** Session functions *)

Definition freshPlayer : Player :=
  mkPlayer 150 (GAME_HEIGHT / 2) PLAYER_SIZE PLAYER_SIZE 0.

Definition freshGame : GameData := mkGameData freshPlayer [] [] 0.

(** The state of the component when it is mounted. *)
Definition initialApp : App := mkApp menu 0 0 freshGame.

Definition resetGame (a : App) : App :=
  mkApp (gameState a) 0 (highScore a) freshGame.

Definition set_velocity (v : R) (p : Player) : Player :=
  mkPlayer (px p) (py p) (pwidth p) (pheight p) v.

Definition jump (a : App) : App :=
  match gameState a with
  | playing =>
      let g := game a in
      mkApp (gameState a) (score a) (highScore a)
        (mkGameData (set_velocity JUMP_FORCE (player g)) (pipes g) (bubbles g)
           (frameCount g))
  | _ => a
  end.

Definition setGameState (s : Phase) (a : App) : App :=
  mkApp s (score a) (highScore a) (game a).

Definition startGame (a : App) : App := setGameState playing (resetGame a).

Definition toMenu (a : App) : App := setGameState menu a.

(** [endGame] closes over [score]: the callback is rebuilt by [useCallback]
    whenever [score] changes, and the value it reads is the score of the
    render that built it, here the argument [seen]. *)
Definition endGame (seen : Z) (a : App) : App :=
  mkApp gameOver (score a) (Z.max (highScore a) seen) (game a).

(** ** Soup surface *)

Definition soupSurfaceYAt (x0 : R) (frame : Z) : R :=
  let a1 := 10 in
  let a2 := 6 in
  let k1 := 0.015 in
  let k2 := 0.035 in
  let s1 := 0.06 in
  let s2 := 0.04 in
  SOUP_BASE_Y +
  sin (x0 * k1 + IZR frame * s1) * a1 +
  sin (x0 * k2 - IZR frame * s2) * a2.

(** ** The stages of [gameLoop] *)

(** Update player: gravity, clamp of the fall speed, integration. *)
Definition updatePlayer (p : Player) : Player :=
  let v := velocity p + GRAVITY in
  let v := if gtb v MAX_FALL_SPEED then MAX_FALL_SPEED else v in
  mkPlayer (px p) (py p + v) (pwidth p) (pheight p) v.

(** Generate forks: [u] is the value of [Math.random()]. *)
Definition pipeHeightOf (u : R) : R := u * (GAME_HEIGHT - PIPE_GAP - 200) + 100.

Definition topFork (pipeHeight : R) : Pipe :=
  mkPipe GAME_WIDTH 0 PIPE_WIDTH pipeHeight false.

Definition bottomFork (pipeHeight : R) : Pipe :=
  mkPipe GAME_WIDTH (pipeHeight + PIPE_GAP) PIPE_WIDTH
    (GAME_HEIGHT - pipeHeight - PIPE_GAP) false.

Definition spawnsAt (fc : Z) : bool := (fc mod SPAWN_INTERVAL =? 0)%Z.

Definition generateForks (u : R) (fc : Z) (ps : list Pipe) : list Pipe :=
  if spawnsAt fc then
    let pipeHeight := pipeHeightOf u in
    ps ++ [topFork pipeHeight; bottomFork pipeHeight]
  else ps.

(** The same lines over binary64 numbers, the numbers of the program.
    [largestRandom] is the largest number [Math.random()] can return, the
    largest binary64 number below 1. *)
Module Binary64.
Import PrimFloat.

Definition GAME_HEIGHT : float := 600.
Definition PIPE_GAP : float := 280.

Definition pipeHeightOf (u : float) : float :=
  (u * (GAME_HEIGHT - PIPE_GAP - 200) + 100)%float.

(** The [y] and the [height] of the bottom fork. *)
Definition bottomY (pipeHeight : float) : float :=
  (pipeHeight + PIPE_GAP)%float.

Definition bottomHeight (pipeHeight : float) : float :=
  (GAME_HEIGHT - pipeHeight - PIPE_GAP)%float.

Definition unit_interval (u : float) : bool :=
  andb (0 <=? u)%float (u <? 1)%float.

Definition largestRandom : float := (1 - 0x1p-53)%float.

(** [GAME_HEIGHT - PIPE_GAP - 100], that is 220. *)
Definition upperEnd : float := (GAME_HEIGHT - PIPE_GAP - 100)%float.

Definition number220 : float := 220.

End Binary64.

(** Update forks: the callback given to [filter] moves the pipe, flags and
    scores it, and answers whether it stays.  [movePipe] is the first
    statement, [scoresNow] the condition of the [if] (read on the moved
    pipe), [updateFork] the pipe as the callback leaves it and [keepFork]
    the value the callback returns. *)
Definition movePipe (pipe : Pipe) : Pipe :=
  mkPipe (x pipe - GAME_SPEED) (y pipe) (width pipe) (height pipe) (passed pipe).

Definition scoresNow (playerX : R) (pipe : Pipe) : bool :=
  negb (passed pipe) && strict_eqb (y pipe) 0 &&
  ltb (x pipe + width pipe) playerX.

Definition markPassed (pipe : Pipe) : Pipe :=
  mkPipe (x pipe) (y pipe) (width pipe) (height pipe) true.

Definition updateFork (playerX : R) (pipe : Pipe) : Pipe :=
  let moved := movePipe pipe in
  if scoresNow playerX moved then markPassed moved else moved.

Definition keepFork (pipe : Pipe) : bool := gtb (x pipe + width pipe) 0.

(** The pipes after translation and flagging, before the filter drops any. *)
Definition translatedForks (playerX : R) (ps : list Pipe) : list Pipe :=
  map (updateFork playerX) ps.

Definition updateForks (playerX : R) (ps : list Pipe) : list Pipe :=
  filter keepFork (translatedForks playerX ps).

(** The number of [setScore(prev => prev + 1)] calls the filter queues. *)
Definition scoreGain (playerX : R) (ps : list Pipe) : Z :=
  Z.of_nat (length (filter (fun pipe => scoresNow playerX (movePipe pipe)) ps)).

(** Update soup bubbles. *)
Definition newBubble (rnd : Rand) : Bubble :=
  mkBubble (rnd_bx rnd * GAME_WIDTH) (GAME_HEIGHT - 6) (2 + rnd_br rnd * 5)
    (-0.6 - rnd_bvy rnd * 0.9) (rnd_bw rnd * PI * 2).

Definition generateBubble (rnd : Rand) (fc : Z) (bs : list Bubble)
  : list Bubble :=
  if ((fc mod 12 =? 0)%Z && (length bs <? 40)%nat)%bool
  then bs ++ [newBubble rnd] else bs.

Definition moveBubble (fc : Z) (b : Bubble) : Bubble :=
  mkBubble (bx b + sin (IZR fc * 0.12 + wobble b) * 0.25) (by_ b + vy b)
    (r b) (vy b) (wobble b).

Definition keepBubble (fc : Z) (b : Bubble) : bool :=
  let surface := soupSurfaceYAt (bx b) fc in
  ltb (by_ b + r b) (surface - 2).

Definition updateBubbles (fc : Z) (bs : list Bubble) : list Bubble :=
  filter (keepBubble fc) (map (moveBubble fc) bs).

(** Collision detection. *)
Definition hitsCeiling (p : Player) : bool := ltb (py p) 0.

Definition hitsSoup (p : Player) (fc : Z) : bool :=
  let playerCenterX := px p + pwidth p / 2 in
  let soupSurfaceHere := soupSurfaceYAt playerCenterX fc in
  gtb (py p + pheight p) soupSurfaceHere.

Definition hitsFork (p : Player) (pipe : Pipe) : bool :=
  ltb (px p) (x pipe + width pipe) &&
  gtb (px p + pwidth p) (x pipe) &&
  ltb (py p) (y pipe + height pipe) &&
  gtb (py p + pheight p) (y pipe).

Definition detectCollision (g : GameData) : bool :=
  if hitsCeiling (player g) then true
  else if hitsSoup (player g) (frameCount g) then true
  else existsb (hitsFork (player g)) (pipes g).

(** The pipes the [for ... of game.pipes] loop tests, in order: none when
    the ceiling or soup test has already returned, and no pipe after the
    first one hit. *)
Fixpoint scanForks (p : Player) (ps : list Pipe) : list Pipe :=
  match ps with
  | [] => []
  | pipe :: rest =>
      if hitsFork p pipe then [pipe] else pipe :: scanForks p rest
  end.

Definition forksTested (g : GameData) : list Pipe :=
  if hitsCeiling (player g) then []
  else if hitsSoup (player g) (frameCount g) then []
  else scanForks (player g) (pipes g).

(** ** One frame *)

(** The game data as the loop leaves it when it reaches the collision
    tests. *)
Definition spawnedForks (rnd : Rand) (g : GameData) : list Pipe :=
  generateForks (rnd_pipe rnd) (frameCount g + 1) (pipes g).

Definition stepGame (rnd : Rand) (g : GameData) : GameData :=
  let fc := (frameCount g + 1)%Z in
  let pl := updatePlayer (player g) in
  let bs := updateBubbles fc (generateBubble rnd fc (bubbles g)) in
  mkGameData pl (updateForks (px pl) (spawnedForks rnd g)) bs fc.

(** The score updates queued by the frame. *)
Definition stepGain (rnd : Rand) (g : GameData) : Z :=
  scoreGain (px (updatePlayer (player g))) (spawnedForks rnd g).

(** The pipes of the frame after the callback has moved them, the ones it
    is about to drop included. *)
Definition translated (rnd : Rand) (g : GameData) : list Pipe :=
  translatedForks (px (updatePlayer (player g))) (spawnedForks rnd g).

(** [gameLoop]: the score the [endGame] callback sees is the score of the
    render that installed this loop, the score before the frame. *)
Definition gameLoop (rnd : Rand) (a : App) : App :=
  let g' := stepGame rnd (game a) in
  let a' := mkApp (gameState a) (score a + stepGain rnd (game a))
              (highScore a) g' in
  if detectCollision g' then endGame (score a) a' else a'.

(** The effect installs the loop only while [gameState] is [playing]. *)
Definition frame (rnd : Rand) (a : App) : App :=
  match gameState a with
  | playing => gameLoop rnd a
  | _ => a
  end.

(** ** Calls and inputs *)

(** What the component's callbacks and the animation frame can do. *)
Inductive Call : Type :=
| CStart
| CJump
| CToMenu
| CFrame (rnd : Rand).

Definition exec (c : Call) (a : App) : App :=
  match c with
  | CStart => startGame a
  | CJump => jump a
  | CToMenu => toMenu a
  | CFrame rnd => frame rnd a
  end.

Definition call_ok (c : Call) : Prop :=
  match c with
  | CFrame rnd => rand_ok rnd
  | _ => True
  end.

Definition run (cs : list Call) (a : App) : App :=
  fold_left (fun acc c => exec c acc) cs a.

(** The states the component can be in. *)
Inductive reachable : App -> Prop :=
| reach_init : reachable initialApp
| reach_exec : forall a c, reachable a -> call_ok c -> reachable (exec c a).

(** What the page offers: the space key, a click on the canvas, and the
    buttons of the overlays, each rendered in one phase only. *)
Inductive Input : Type :=
| KeySpace
| ClickCanvas
| ClickStartGame
| ClickTryAgain
| ClickChangePeanut
| AnimationFrame (rnd : Rand).

Definition handle (i : Input) (a : App) : App :=
  match i with
  | KeySpace =>
      match gameState a with
      | menu | gameOver => startGame a
      | playing => jump a
      end
  | ClickCanvas =>
      match gameState a with
      | playing => jump a
      | _ => startGame a
      end
  | ClickStartGame =>
      match gameState a with
      | menu => startGame a
      | _ => a
      end
  | ClickTryAgain =>
      match gameState a with
      | gameOver => startGame a
      | _ => a
      end
  | ClickChangePeanut =>
      match gameState a with
      | gameOver => toMenu a
      | _ => a
      end
  | AnimationFrame rnd => frame rnd a
  end.

(** ** Runs *)

(** The frames of a session in which no jump arrives. *)
Definition loops (rnds : list Rand) (a : App) : App :=
  fold_left (fun acc rnd => gameLoop rnd acc) rnds a.

(** One pipe followed through [n] frames of the filter callback, and the
    number of times it has scored in them. *)
Fixpoint track (playerX : R) (n : nat) (pipe : Pipe) : Pipe :=
  match n with
  | O => pipe
  | S k => updateFork playerX (track playerX k pipe)
  end.

Fixpoint scoreCount (playerX : R) (n : nat) (pipe : Pipe) : nat :=
  match n with
  | O => 0
  | S k =>
      scoreCount playerX k pipe +
      (if scoresNow playerX (movePipe (track playerX k pipe)) then 1 else 0)
  end.

(** The right edge of the pipe is strictly left of the player after [n]
    translations. *)
Definition crossed (playerX : R) (n : nat) (pipe : Pipe) : bool :=
  ltb (x pipe - GAME_SPEED * INR n + width pipe) playerX.

(** A tick in which every [Math.random()] returns 0. *)
Definition noRandom : Rand := mkRand 0 0 0 0 0.

(** ** Free fall *)

(** The player after [n] frames without a jump, from the reset position. *)
Fixpoint fallPlayer (n : nat) : Player :=
  match n with
  | O => freshPlayer
  | S k => updatePlayer (fallPlayer k)
  end.

(** The state [k] animation frames after [startGame], with no other input. *)
Definition afterFrames (a : App) (rnds : list Rand) (k : nat) : App :=
  run (map CFrame (firstn k rnds)) (startGame a).

(** A session in free fall that is still running at frame [k]. *)
Definition falling (k : nat) (b : App) : Prop :=
  gameState b = playing /\ score b = 0%Z /\ pipes (game b) = [] /\
  frameCount (game b) = Z.of_nat k /\ player (game b) = fallPlayer k.

(** A session in free fall that ended at frame [k]. *)
Definition fallen (k : nat) (b : App) : Prop :=
  gameState b = gameOver /\ score b = 0%Z /\
  frameCount (game b) = Z.of_nat k /\ player (game b) = fallPlayer k.

(** The soup test of frame [k] on the falling player. *)
Definition inSoup (k : nat) : Prop :=
  py (fallPlayer k) + pheight (fallPlayer k) >
  soupSurfaceYAt (px (fallPlayer k) + pwidth (fallPlayer k) / 2) (Z.of_nat k).

(** ** Flapping into the ceiling *)

(** [k] rounds of a jump followed by a frame. *)
Definition riseCalls (k : nat) : list Call :=
  concat (repeat [CJump; CFrame noRandom] k).

(** A jump followed by [k] frames. *)
Definition hop (k : nat) : list Call := CJump :: repeat (CFrame noRandom) k.

(** A session kept in the air: a jump every 39 frames brings the player
    back to the height of the jump.  After 139 frames the next one is the
    first to spawn a pair. *)
Definition cruise : list Call := hop 39 ++ hop 39 ++ hop 39 ++ hop 22.

Definition atFrame139 : App := run cruise (startGame initialApp).

Definition atFrame140 : App := exec (CFrame noRandom) atFrame139.

(** [n] frames after a jump from the height 300, at frame [fc], with no
    pipe in the world yet. *)
Definition hopping (n : nat) (fc : Z) (a : App) : Prop :=
  gameState a = playing /\ frameCount (game a) = fc /\ pipes (game a) = [] /\
  px (player (game a)) = 150 /\ pwidth (player (game a)) = 40 /\
  pheight (player (game a)) = 40 /\
  velocity (player (game a)) = -10 + 0.5 * INR n /\
  py (player (game a)) = 300 - 10 * INR n + 0.25 * INR n * (INR n + 1).

(** A session that has jumped before each of its [k] frames and is still
    running. *)
Definition rising (k : nat) (b : App) : Prop :=
  gameState b = playing /\ pipes (game b) = [] /\
  frameCount (game b) = Z.of_nat k /\
  px (player (game b)) = 150 /\ pwidth (player (game b)) = 40 /\
  pheight (player (game b)) = 40 /\
  py (player (game b)) = 300 - 9.5 * INR k.

(** ** Invariants of the pipe list *)

(** The list is a sequence of pairs, each pair related by [P]. *)
Inductive inPairs (P : Pipe -> Pipe -> Prop) : list Pipe -> Prop :=
| pairs_nil : inPairs P []
| pairs_cons : forall (t b : Pipe) (rest : list Pipe),
    P t b -> inPairs P rest -> inPairs P (t :: b :: rest).

(** Two pipes in the same column: same [x], both [PIPE_WIDTH] wide. *)
Definition sameColumn (t b : Pipe) : Prop :=
  x t = x b /\ width t = PIPE_WIDTH /\ width b = PIPE_WIDTH.

(** The pair spawned at frame [140 * j], when [k - 140 * j] translations
    have been applied to it: both forks in the column
    [x = 800 - 3.9 * (k - 140 * j)], the gap from [h] to [h + 280], and the
    top fork flagged once its right edge is left of the player. *)
Definition pairAt (k : Z) (t b : Pipe) : Prop :=
  exists (j : Z) (h : R),
    (1 <= j)%Z /\ (140 * j <= k)%Z /\ 100 <= h < 220 /\
    x t = 800 - 3.9 * IZR (k - 140 * j) /\ y t = 0 /\
    width t = 80 /\ height t = h /\
    x b = x t /\ y b = h + 280 /\
    width b = 80 /\ height b = 600 - h - 280 /\
    (passed t = false -> 150 <= x t + 80).

(** ** Invariants of a session *)

Definition playerInv (p : Player) : Prop :=
  px p = 150 /\ pwidth p = 40 /\ pheight p = 40 /\ -10 <= velocity p <= 12.

Definition gameInv (g : GameData) : Prop :=
  playerInv (player g) /\ (0 <= frameCount g)%Z /\
  inPairs (pairAt (frameCount g + 1)) (pipes g).

Definition appInv (a : App) : Prop :=
  gameInv (game a) /\
  (gameState a = playing -> detectCollision (game a) = false) /\
  (0 <= score a)%Z /\ (0 <= highScore a)%Z.

(** The calls that can arrive during one session: jumps and frames. *)
Definition inSession (c : Call) : Prop :=
  match c with
  | CJump => True
  | CFrame rnd => rand_ok rnd
  | _ => False
  end.

(** ** Statements compared with the code *)

(** "No obstacle is removed before the same tick's collision evaluation has
    run against it": every pipe the filter drops in a frame is among the
    pipes the collision loop of that frame tests. *)
Definition removedAfterCollisionTest : Prop :=
  forall (rnd : Rand) (g : GameData) (q : Pipe),
    In q (translated rnd g) -> keepFork q = false ->
    In q (forksTested (stepGame rnd g)).

(** Frame 364 of a session: the pair spawned at frame 140 is about to leave
    the world on the left, the pair spawned at frame 280 is on its way. *)
Definition leavingGame : GameData :=
  mkGameData (mkPlayer 150 300 40 40 0)
    [mkPipe (-77.5) 0 80 150 true; mkPipe (-77.5) 430 80 170 false;
     mkPipe 468.5 0 80 120 false; mkPipe 468.5 400 80 200 false] [] 364.


(** * More of the component *)

(** ** The pipe list, exactly *)

(** The pair spawned at frame [140 * j] after [c - 140 * j] translations:
    its column, its gap, and its flag, set once the count has reached 188.
    The count is between 0 and 225, the last one at which the pair is kept. *)
Definition pairExact (c j : Z) (t b : Pipe) : Prop :=
  exists h : R,
    100 <= h < 220 /\ (1 <= j)%Z /\ (0 <= c - 140 * j <= 225)%Z /\
    x t = 800 - 3.9 * IZR (c - 140 * j) /\ y t = 0 /\
    width t = 80 /\ height t = h /\
    passed t = (188 <=? c - 140 * j)%Z /\
    x b = x t /\ y b = h + 280 /\
    width b = 80 /\ height b = 600 - h - 280 /\ passed b = false.

(** The list holds the pairs of the indices [j], [j + 1], ... up to
    [jend - 1], in that order. *)
Inductive pairsFrom (c jend : Z) : Z -> list Pipe -> Prop :=
| pairsFrom_nil : pairsFrom c jend jend []
| pairsFrom_cons : forall (j : Z) (t b : Pipe) (rest : list Pipe),
    pairExact c j t b -> pairsFrom c jend (j + 1) rest ->
    pairsFrom c jend j (t :: b :: rest).

(** [j0] is the index of the oldest pair still in the world after frame
    [fc]: the pair before it, if any, has been translated more than 225
    times. *)
Definition firstIndex (fc j0 : Z) : Prop :=
  (1 <= j0)%Z /\ (j0 = 1 \/ 225 < fc + 1 - 140 * (j0 - 1))%Z.

(** After frame [fc] the list holds the pairs from the oldest one in the
    world to the last one spawned, each translated once per frame since its
    spawn. *)
Definition forksExact (g : GameData) : Prop :=
  exists j0 : Z,
    firstIndex (frameCount g) j0 /\
    pairsFrom (frameCount g + 1) (frameCount g / 140 + 1) j0 (pipes g).

(** The score as a function of the frame counter: one point for each
    [j >= 1] with [140 * j + 187 <= fc]. *)
Definition scoreAt (fc : Z) : Z := Z.max 0 ((fc - 187) / 140).

Definition exactInv (a : App) : Prop :=
  forksExact (game a) /\ score a = scoreAt (frameCount (game a)).

(** A pair as the game keeps it: the top fork from the ceiling down to
    [h], the bottom fork from [h + PIPE_GAP] down to the floor.  The upper
    end 220 of [h] is included: rounding can reach it. *)
Definition gapPair (t b : Pipe) : Prop :=
  y t = 0 /\ 100 <= height t <= 220 /\
  y b = height t + PIPE_GAP /\ y b + height b = GAME_HEIGHT /\
  x b = x t /\ width t = PIPE_WIDTH /\ width b = PIPE_WIDTH.

(** ** The page *)

Definition input_ok (i : Input) : Prop :=
  match i with
  | AnimationFrame rnd => rand_ok rnd
  | _ => True
  end.

(** The states the component is in when it is driven by the page alone. *)
Inductive onPage : App -> Prop :=
| page_init : onPage initialApp
| page_input : forall a i, onPage a -> input_ok i -> onPage (handle i a).

(** The transitions of the session phase. *)
Definition transition (s s' : Phase) : bool :=
  match s, s' with
  | menu, menu | menu, playing => true
  | playing, playing | playing, gameOver => true
  | gameOver, gameOver | gameOver, playing | gameOver, menu => true
  | _, _ => false
  end.

(** Two states that differ in [highScore] at most. *)
Definition sameSession (a b : App) : Prop :=
  gameState a = gameState b /\ score a = score b /\ game a = game b.

(** ** The first frames of a session *)

(** The game data [k] frames into a session, [k <= 26], whatever the
    jumps: no pipe yet, the player at most as low and as fast as in free
    fall, and at most 9.5 higher per frame. *)
Definition early (k : Z) (g : GameData) : Prop :=
  (0 <= k <= 26)%Z /\ frameCount g = k /\ pipes g = [] /\
  px (player g) = 150 /\ pwidth (player g) = 40 /\ pheight (player g) = 40 /\
  -10 <= velocity (player g) <= 0.5 * IZR k /\
  300 - 9.5 * IZR k <= py (player g) <= 300 + 0.25 * IZR k * (IZR k + 1).

Definition graceInv (a : App) : Prop :=
  (exists k : Z, early k (game a) /\ gameState a <> gameOver) \/
  (27 <= frameCount (game a))%Z.

(** ** The arc of a jump *)

(** The player [k] frames after a jump, with no other jump. *)
Definition afterJump (k : nat) (p : Player) : Player :=
  Nat.iter k updatePlayer (set_velocity JUMP_FORCE p).

(** ** Drawing: the fork *)

(** An axis-aligned rectangle, as [ctx.rect] and [ctx.fillRect] take it. *)
Record Box : Type := mkBox {
  left_ : R;
  top_ : R;
  wide : R;
  high : R
}.

(** The rectangle the collision loop tests for a pipe. *)
Definition hitbox (pipe : Pipe) : Box :=
  mkBox (x pipe) (y pipe) (width pipe) (height pipe).

Definition playerBox (p : Player) : Box :=
  mkBox (px p) (py p) (pwidth p) (pheight p).

(** The overlap test of the collision loop, on two rectangles. *)
Definition overlaps (a b : Box) : bool :=
  ltb (left_ a) (left_ b + wide b) &&
  gtb (left_ a + wide a) (left_ b) &&
  ltb (top_ a) (top_ b + high b) &&
  gtb (top_ a + high a) (top_ b).

(** The local constants of [renderFork]. *)
Definition isTop (pipe : Pipe) : bool := strict_eqb (y pipe) 0.
Definition handleWidth : R := 22.
Definition tineWidth : R := 6.
Definition tineGap : R := 6.
Definition tines : nat := 4.
Definition tineLength : R := 28.

Definition cx (pipe : Pipe) : R := x pipe + PIPE_WIDTH / 2.
Definition handleX (pipe : Pipe) : R := cx pipe - handleWidth / 2.
Definition handleH (pipe : Pipe) : R := Rmax 10 (height pipe - tineLength - 8).
Definition handleY (pipe : Pipe) : R :=
  if isTop pipe then y pipe else y pipe + tineLength + 8.

Definition totalTinesWidth : R :=
  INR tines * tineWidth + (INR tines - 1) * tineGap.
Definition tinesStartX (pipe : Pipe) : R := cx pipe - totalTinesWidth / 2.

(** The handle: [roundRect] or [fillRect] at the same place. *)
Definition handleBox (pipe : Pipe) : Box :=
  mkBox (handleX pipe) (handleY pipe) handleWidth (handleH pipe).

(** The body of the loop over the tines: the rectangle of tine [i], and the
    centre and radius of its rounded tip. *)
Definition tineBox (pipe : Pipe) (i : nat) : Box :=
  let tx := tinesStartX pipe + INR i * (tineWidth + tineGap) in
  if isTop pipe then
    let ty := height pipe in
    mkBox tx ty tineWidth tineLength
  else
    let ty := y pipe in
    mkBox tx (ty - tineLength) tineWidth tineLength.

Definition tineTip (pipe : Pipe) (i : nat) : R * R * R :=
  let tx := tinesStartX pipe + INR i * (tineWidth + tineGap) in
  if isTop pipe then
    let ty := height pipe in
    (tx + tineWidth / 2, ty + tineLength, tineWidth / 2)
  else
    let ty := y pipe in
    (tx + tineWidth / 2, ty - tineLength, tineWidth / 2).

(** [for (let i = 0; i < tines; i++)]. *)
Definition tineBoxes (pipe : Pipe) : list Box :=
  map (tineBox pipe) (seq 0 tines).

(** ** Drawing: the peanut *)

(** The rotation [drawPeanut] applies, from the velocity. *)
Definition angle (velocity0 : R) : R :=
  Rmax (-0.6) (Rmin 0.6 (velocity0 * 0.04)).

(** ** Drawing: the soup *)

(** The loop [for (let x = 0; x <= GAME_WIDTH; x += step)] that adds the
    surface to the path: the points given to [lineTo], from [x0] on.  The
    fuel bounds the number of rounds. *)
Fixpoint surfacePoints (fuel : nat) (x0 : R) (frame0 : Z) : list (R * R) :=
  match fuel with
  | O => []
  | S fuel' =>
      if gtb x0 GAME_WIDTH then []
      else (x0, soupSurfaceYAt x0 frame0)
             :: surfacePoints fuel' (x0 + 10) frame0
  end.

(** The outline [renderSoup] fills: [moveTo], the surface, then the two
    bottom corners of the world. *)
Definition soupOutline (fuel : nat) (frame0 : Z) : list (R * R) :=
  (0, soupSurfaceYAt 0 frame0)
    :: surfacePoints fuel 0 frame0
    ++ [(GAME_WIDTH, GAME_HEIGHT); (0, GAME_HEIGHT)].

(** The glossy line: the surface plus a ripple. *)
Definition glossY (x0 : R) (frame0 : Z) : R :=
  soupSurfaceYAt x0 frame0 + sin ((x0 + IZR frame0 * 8) * 0.04) * 1.2.

(** ** The skin: menu and storage *)

From Stdlib Require String Ascii.
Import String.StringSyntax Ascii.AsciiSyntax.
Delimit Scope string_scope with string.
Delimit Scope char_scope with char.

(** At run time a skin is a string: the value read from storage is used
    as it is. *)
Definition PeanutSkin : Type := String.string.

Definition SKIN_KEY : String.string := "flappy-soup-selected-skin-v1"%string.

(** An entry of the [skins] list (the [desc] text is left out). *)
Record SkinEntry : Type := mkSkin {
  skin_id : PeanutSkin;
  skin_label : String.string
}.

Definition skins : list SkinEntry :=
  [ mkSkin "classic"%string "Classic"%string;
    mkSkin "salted"%string "Salted"%string;
    mkSkin "honey"%string "Honey-Roasted"%string;
    mkSkin "chocolate"%string "Chocolate"%string;
    mkSkin "spicy"%string "Spicy"%string;
    mkSkin "cool"%string "Cool"%string ].

(** [skins.find(s => s.id === skin)?.label ?? 'Classic']. *)
Definition footerLabel (skin : PeanutSkin) : String.string :=
  match find (fun s => String.eqb (skin_id s) skin) skins with
  | Some s => skin_label s
  | None => "Classic"%string
  end.

(** The [selected] property of the options of the menu, in order. *)
Definition selectedFlags (skin : PeanutSkin) : list bool :=
  map (fun s => String.eqb skin (skin_id s)) skins.

(** [localStorage]: blocked (every access throws), or a table of items. *)
Inductive Storage : Type :=
| Blocked
| Items (m : String.string -> option String.string).

(** [getItem] and [setItem]; [None] stands for a throw. *)
Definition getItem (st : Storage) (key : String.string)
  : option (option String.string) :=
  match st with
  | Blocked => None
  | Items m => Some (m key)
  end.

Definition setItem (st : Storage) (key value : String.string)
  : option Storage :=
  match st with
  | Blocked => None
  | Items m =>
      Some (Items (fun k => if String.eqb k key then Some value else m k))
  end.

(** The first effect: [try { saved = getItem(SKIN_KEY); if (saved)
    setSkin(saved) } catch {}].  The result is the skin after it. *)
Definition loadEffect (st : Storage) (skin : PeanutSkin) : PeanutSkin :=
  match getItem st SKIN_KEY with
  | Some (Some saved) =>
      if String.eqb saved ""%string then skin else saved
  | _ => skin
  end.

(** The second effect: [try { setItem(SKIN_KEY, skin) } catch {}]. *)
Definition saveEffect (st : Storage) (skin : PeanutSkin) : Storage :=
  match setItem st SKIN_KEY skin with
  | Some st' => st'
  | None => st
  end.

(** Mounting the component: the first render has [skin = 'classic']; both
    effects run for it, the first one queueing the saved skin; when that
    changes [skin], the component renders again and the second effect runs
    for the new value. *)
Definition mount (st : Storage) : PeanutSkin * Storage :=
  let skin0 := "classic"%string in
  let skin1 := loadEffect st skin0 in
  let st1 := saveEffect st skin0 in
  if String.eqb skin1 skin0 then (skin0, st1)
  else (skin1, saveEffect st1 skin1).

(** A click on an option of the menu: [setSkin(s.id)], and the second
    effect when the skin has changed. *)
Definition selectSkin (s : PeanutSkin) (state : PeanutSkin * Storage)
  : PeanutSkin * Storage :=
  if String.eqb s (fst state) then state
  else (s, saveEffect (snd state) s).

Definition selectAll (ss : list PeanutSkin) (state : PeanutSkin * Storage)
  : PeanutSkin * Storage :=
  fold_left (fun acc s => selectSkin s acc) ss state.

(** ** The static server ([server.js]) *)

(** What a call of [fs.stat] or [fs.readFile] does.  Node checks the
    arguments first and throws at once when it refuses the path (a path
    that holds a NUL character); otherwise it calls the callback later,
    with an error or with the result. *)
Inductive FsResult (A : Type) : Type :=
| Refused
| Failed
| Done (a : A).

Arguments Refused {A}.
Arguments Failed {A}.
Arguments Done {A} a.

(** What the handler takes from Node: the directory of the script, the
    library functions it calls, and the file system as [fs.stat] and
    [fs.readFile] see it.  [decodeURIComponent] answers [None] when it
    throws; [fs_stat] gives whether the path is a directory and
    [fs_readFile] the content of the file.  [path_extname] is taken to
    answer the empty string or a string that starts with a dot, so that
    [mime[ext]] finds own keys of the table only. *)
Record Host : Type := mkHost {
  root : String.string;
  decodeURIComponent : String.string -> option String.string;
  path_join : String.string -> String.string -> String.string;
  path_extname : String.string -> String.string;
  toLowerCase : String.string -> String.string;
  fs_stat : String.string -> FsResult bool;
  fs_readFile : String.string -> FsResult String.string
}.

Definition mime : list (String.string * String.string) :=
  [ (".html"%string, "text/html; charset=utf-8"%string);
    (".js"%string, "text/javascript; charset=utf-8"%string);
    (".css"%string, "text/css; charset=utf-8"%string);
    (".json"%string, "application/json; charset=utf-8"%string);
    (".svg"%string, "image/svg+xml"%string);
    (".png"%string, "image/png"%string);
    (".jpg"%string, "image/jpeg"%string);
    (".jpeg"%string, "image/jpeg"%string);
    (".gif"%string, "image/gif"%string);
    (".ico"%string, "image/x-icon"%string) ].

(** [mime[ext]]. *)
Fixpoint lookup (key : String.string)
         (table : list (String.string * String.string))
  : option String.string :=
  match table with
  | [] => None
  | (k, v) :: rest => if String.eqb k key then Some v else lookup key rest
  end.

(** [mime[ext] || 'application/octet-stream']. *)
Definition contentType (ext : String.string) : String.string :=
  match lookup ext mime with
  | Some t => if String.eqb t ""%string
              then "application/octet-stream"%string else t
  | None => "application/octet-stream"%string
  end.

(** [req.url.split('?')[0]]: the part of the string before its first
    question mark. *)
Fixpoint beforeQuery (url : String.string) : String.string :=
  match url with
  | String.EmptyString => String.EmptyString
  | String.String c rest =>
      if Ascii.eqb c "?"%char then String.EmptyString
      else String.String c (beforeQuery rest)
  end.

Record Response : Type := mkResponse {
  status : nat;
  headers : list (String.string * String.string);
  body : String.string
}.

(** The outcome of a request: an exception out of the handler or out of
    the callback it gave to [fs.stat], which nothing catches and after
    which no response is written; or a response. *)
Inductive Outcome : Type :=
| Throws
| Responds (r : Response).

(** The calls of [fs] functions, in order, the refused ones included. *)
Inductive FsCall : Type :=
| Stat (path : String.string)
| ReadFile (path : String.string).

(** The request handler given to [http.createServer]. *)
Definition handler (h : Host) (url : String.string)
  : Outcome * list FsCall :=
  match decodeURIComponent h (beforeQuery url) with
  | None => (Throws, [])
  | Some urlPath =>
      let filePath :=
        path_join h (root h)
          (if String.eqb urlPath "/"%string then "/index.html"%string
           else urlPath) in
      if negb (String.prefix (root h) filePath) then
        (Responds (mkResponse 403 [] "Forbidden"%string), [])
      else
        match fs_stat h filePath with
        | Refused => (Throws, [Stat filePath])
        | Failed =>
            (Responds (mkResponse 404 [] "Not found"%string), [Stat filePath])
        | Done isDirectory =>
            let filePath' :=
              if isDirectory then path_join h filePath "index.html"%string
              else filePath in
            let ext := toLowerCase h (path_extname h filePath') in
            let type := contentType ext in
            match fs_readFile h filePath' with
            | Refused => (Throws, [Stat filePath; ReadFile filePath'])
            | Failed =>
                (Responds (mkResponse 404 [] "Not found"%string),
                 [Stat filePath; ReadFile filePath'])
            | Done data =>
                (Responds
                   (mkResponse 200
                      [("Content-Type"%string, type);
                       ("Cache-Control"%string, "no-cache"%string)]
                      data),
                 [Stat filePath; ReadFile filePath'])
            end
        end
  end.

(** A host for examples.  Of the escapes it decodes [%00] only, to the
    NUL character, and throws on any other; paths are joined by
    concatenation, nothing is lowered, the extension is taken to be
    [".html"]; the [fs] functions refuse a path that holds a NUL character,
    and the only file is [index.html] under [/srv]. *)
Definition NUL : Ascii.ascii := Ascii.ascii_of_nat 0.

Fixpoint decodeNul (s : String.string) : option String.string :=
  match s with
  | String.EmptyString => Some String.EmptyString
  | String.String c rest =>
      if Ascii.eqb c "%"%char then
        match rest with
        | String.String d1 (String.String d2 rest') =>
            if Ascii.eqb d1 "0"%char && Ascii.eqb d2 "0"%char then
              option_map (String.String NUL) (decodeNul rest')
            else None
        | _ => None
        end
      else option_map (String.String c) (decodeNul rest)
  end.

Fixpoint holdsNul (s : String.string) : bool :=
  match s with
  | String.EmptyString => false
  | String.String c rest => Ascii.eqb c NUL || holdsNul rest
  end.

Definition exampleHost : Host :=
  mkHost "/srv"%string decodeNul String.append
    (fun _ => ".html"%string) (fun s => s)
    (fun p => if holdsNul p then Refused
              else if String.eqb p "/srv/index.html"%string then Done false
              else Failed)
    (fun p => if holdsNul p then Refused
              else if String.eqb p "/srv/index.html"%string
              then Done "<html></html>"%string else Failed).

(** ** Several sessions *)

(** Sessions played one after the other, each started by [startGame]; the
    scores they end with; and whether each of them has ended. *)
Fixpoint playAll (css : list (list Call)) (a : App) : App :=
  match css with
  | [] => a
  | cs :: rest => playAll rest (run cs (startGame a))
  end.

Fixpoint scoresOf (css : list (list Call)) (a : App) : list Z :=
  match css with
  | [] => []
  | cs :: rest =>
      score (run cs (startGame a)) :: scoresOf rest (run cs (startGame a))
  end.

Fixpoint allOver (css : list (list Call)) (a : App) : Prop :=
  match css with
  | [] => True
  | cs :: rest =>
      gameState (run cs (startGame a)) = gameOver /\
      allOver rest (run cs (startGame a))
  end.
(** * Properties *)

(** ** Comparisons *)

Lemma ltb_true_iff (a b : R) : ltb a b = true <-> a < b.
Proof. unfold ltb. destruct (Rlt_dec a b); split; intros; try easy; lra. Qed.

Lemma ltb_false_iff (a b : R) : ltb a b = false <-> b <= a.
Proof. unfold ltb. destruct (Rlt_dec a b); split; intros; try easy; lra. Qed.

Lemma gtb_true_iff (a b : R) : gtb a b = true <-> a > b.
Proof. unfold gtb. rewrite ltb_true_iff. lra. Qed.

Lemma gtb_false_iff (a b : R) : gtb a b = false <-> a <= b.
Proof. unfold gtb. rewrite ltb_false_iff. lra. Qed.

Lemma strict_eqb_true_iff (a b : R) : strict_eqb a b = true <-> a = b.
Proof. unfold strict_eqb. destruct (Req_dec_T a b); split; intros; easy. Qed.

Lemma strict_eqb_false_iff (a b : R) : strict_eqb a b = false <-> a <> b.
Proof. unfold strict_eqb. destruct (Req_dec_T a b); split; intros; easy. Qed.

(** Decide a comparison of two numerals. *)
Ltac cmp :=
  repeat match goal with
  | |- context [ltb ?a ?b] =>
      let H := fresh "C" in
      destruct (ltb a b) eqn:H;
      [ apply ltb_true_iff in H | apply ltb_false_iff in H ]; try lra
  | |- context [gtb ?a ?b] =>
      let H := fresh "C" in
      destruct (gtb a b) eqn:H;
      [ apply gtb_true_iff in H | apply gtb_false_iff in H ]; try lra
  | |- context [strict_eqb ?a ?b] =>
      let H := fresh "C" in
      destruct (strict_eqb a b) eqn:H;
      [ apply strict_eqb_true_iff in H | apply strict_eqb_false_iff in H ];
      try lra
  end.

(** ** The soup surface stays in its band *)

Lemma soup_band (x0 : R) (frame : Z) :
  524 <= soupSurfaceYAt x0 frame <= 556.
Proof.
  unfold soupSurfaceYAt, SOUP_BASE_Y, GAME_HEIGHT.
  pose proof (SIN_bound (x0 * 0.015 + IZR frame * 0.06)) as [L1 U1].
  pose proof (SIN_bound (x0 * 0.035 - IZR frame * 0.04)) as [L2 U2].
  lra.
Qed.

(** C6. [soupSurfaceYAt] is a function of its two arguments alone: it is
    [SOUP_BASE_Y = 540] plus [sin(x*0.015 + frame*0.06)*10] plus
    [sin(x*0.035 - frame*0.04)*6], equal arguments give equal values, and
    for every [x] and [frame] the value lies between the baseline minus 16
    and the baseline plus 16. *)
Theorem soupSurfaceYAt_pure_and_bounded :
  forall (x0 : R) (frame : Z),
    soupSurfaceYAt x0 frame =
      540 + sin (x0 * 0.015 + IZR frame * 0.06) * 10
          + sin (x0 * 0.035 - IZR frame * 0.04) * 6
    /\ SOUP_BASE_Y = 540
    /\ (forall (x1 : R) (frame1 : Z),
          x1 = x0 -> frame1 = frame ->
          soupSurfaceYAt x1 frame1 = soupSurfaceYAt x0 frame)
    /\ SOUP_BASE_Y - 16 <= soupSurfaceYAt x0 frame <= SOUP_BASE_Y + 16.
Proof.
  intros x0 frame. repeat split.
  - unfold soupSurfaceYAt, SOUP_BASE_Y, GAME_HEIGHT.
    replace (600 - 60) with 540 by lra. reflexivity.
  - unfold SOUP_BASE_Y, GAME_HEIGHT. lra.
  - intros x1 frame1 -> ->. reflexivity.
  - pose proof (soup_band x0 frame). unfold SOUP_BASE_Y, GAME_HEIGHT. lra.
  - pose proof (soup_band x0 frame). unfold SOUP_BASE_Y, GAME_HEIGHT. lra.
Qed.

(** ** The player's velocity *)

Lemma updatePlayer_velocity (p : Player) :
  velocity (updatePlayer p) = Rmin (velocity p + GRAVITY) MAX_FALL_SPEED.
Proof.
  unfold updatePlayer; simpl. unfold Rmin.
  destruct (Rle_dec (velocity p + GRAVITY) MAX_FALL_SPEED) as [L | L]; cmp.
Qed.

Lemma updatePlayer_velocity_le (p : Player) :
  velocity (updatePlayer p) <= MAX_FALL_SPEED.
Proof. rewrite updatePlayer_velocity. apply Rmin_r. Qed.

Lemma gameLoop_game (rnd : Rand) (a : App) :
  game (gameLoop rnd a) = stepGame rnd (game a).
Proof. unfold gameLoop. destruct (detectCollision _); reflexivity. Qed.

Lemma gameLoop_player (rnd : Rand) (a : App) :
  player (game (gameLoop rnd a)) = updatePlayer (player (game a)).
Proof.
  unfold gameLoop. destruct (detectCollision _); reflexivity.
Qed.

Lemma loops_snoc (rnds : list Rand) (rnd : Rand) (a : App) :
  loops (rnds ++ [rnd]) a = gameLoop rnd (loops rnds a).
Proof. unfold loops. rewrite fold_left_app. reflexivity. Qed.

(** C3. After the integration step of any frame (velocity plus 0.5, clamp,
    then y plus velocity) the velocity is the smaller of the old velocity
    plus gravity and [MAX_FALL_SPEED = 12]: it never exceeds 12, after one
    frame or after any number of frames without a jump.  Nothing bounds it
    from below: a velocity that stays at or under 12 is the old one plus
    0.5, however negative, and a jump sets it to [JUMP_FORCE]. *)
Theorem velocity_never_exceeds_max_fall_speed :
  MAX_FALL_SPEED = 12 /\ GRAVITY = 0.5 /\
  (forall p : Player,
     velocity (updatePlayer p) = Rmin (velocity p + GRAVITY) MAX_FALL_SPEED /\
     py (updatePlayer p) = py p + velocity (updatePlayer p) /\
     velocity (updatePlayer p) <= MAX_FALL_SPEED) /\
  (forall p : Player,
     velocity p + GRAVITY <= MAX_FALL_SPEED ->
     velocity (updatePlayer p) = velocity p + GRAVITY) /\
  (forall a : App,
     gameState a = playing ->
     velocity (player (game (jump a))) = JUMP_FORCE) /\
  (forall (rnd : Rand) (a : App),
     velocity (player (game (gameLoop rnd a))) <= MAX_FALL_SPEED) /\
  (forall (rnd : Rand) (rnds : list Rand) (a : App),
     velocity (player (game (loops (rnds ++ [rnd]) a))) <= MAX_FALL_SPEED).
Proof.
  split; [reflexivity|]. split; [reflexivity|].
  split; [|split; [|split; [|split]]].
  - intro p. split; [apply updatePlayer_velocity|].
    split; [reflexivity | apply updatePlayer_velocity_le].
  - intros p H. rewrite updatePlayer_velocity. apply Rmin_left. exact H.
  - intros a H. unfold jump. rewrite H. reflexivity.
  - intros rnd a. rewrite gameLoop_player. apply updatePlayer_velocity_le.
  - intros rnd rnds a. rewrite loops_snoc, gameLoop_player.
    apply updatePlayer_velocity_le.
Qed.

(** ** Spawning forks *)

Lemma spawnsAt_iff (fc : Z) :
  spawnsAt fc = true <-> (fc mod 140 = 0)%Z.
Proof. unfold spawnsAt, SPAWN_INTERVAL. apply Z.eqb_eq. Qed.

Lemma pipeHeightOf_affine (u : R) : pipeHeightOf u = 100 + 120 * u.
Proof. unfold pipeHeightOf, GAME_HEIGHT, PIPE_GAP. lra. Qed.

Lemma pipeHeightOf_range (u : R) :
  unit_interval u -> 100 <= pipeHeightOf u < 220.
Proof. unfold unit_interval. rewrite pipeHeightOf_affine. lra. Qed.

Lemma pipeHeightOf_onto (h : R) :
  100 <= h < 220 -> exists u, unit_interval u /\ pipeHeightOf u = h.
Proof.
  intros Hh. exists ((h - 100) / 120). unfold unit_interval.
  rewrite pipeHeightOf_affine. lra.
Qed.

(** C5, the upper end.  In the binary64 arithmetic of the program the
    height of a spawned fork is not below 220 for every result of
    [Math.random()]: for the largest of them, [1 - 2^-53], the product with
    120 rounds to [120 - 2^-46], and its sum with 100, half way between two
    binary64 numbers, rounds to 220.  The bottom fork then starts at 500
    and the pair still spans the world height. *)
Theorem spawn_height_reaches_220 :
  Binary64.unit_interval Binary64.largestRandom = true /\
  Binary64.pipeHeightOf Binary64.largestRandom = Binary64.upperEnd /\
  Binary64.upperEnd = Binary64.number220 /\
  PrimFloat.ltb (Binary64.pipeHeightOf Binary64.largestRandom)
    Binary64.upperEnd = false /\
  PrimFloat.add
    (Binary64.bottomY (Binary64.pipeHeightOf Binary64.largestRandom))
    (Binary64.bottomHeight (Binary64.pipeHeightOf Binary64.largestRandom))
    = Binary64.GAME_HEIGHT.
Proof. repeat split; vm_compute; reflexivity. Qed.

(** C5. On a frame whose counter, once incremented, is a multiple of 140
    (and on no other) the loop appends a pair: a top fork at [y = 0] of
    height [h] and a bottom fork at [y = h + 280], both at [x = 800] and 80
    wide, where [h = 100 + 120 * Math.random()] lies between 100 and 220,
    both ends included, and takes every value of [[100, 220)]; the two
    heights and the gap add up to the world height, 600. *)
Theorem spawned_pair_spans_world_height :
  forall (u : R) (fc : Z) (ps : list Pipe),
    unit_interval u ->
    let h := pipeHeightOf u in
    generateForks u fc ps =
      (if (fc mod 140 =? 0)%Z
       then ps ++ [mkPipe 800 0 80 h false;
                   mkPipe 800 (h + 280) 80 (600 - h - 280) false]
       else ps)
    /\ topFork h = mkPipe 800 0 80 h false
    /\ bottomFork h = mkPipe 800 (h + 280) 80 (600 - h - 280) false
    /\ 100 <= h <= GAME_HEIGHT - PIPE_GAP - 100
    /\ GAME_HEIGHT - PIPE_GAP - 100 = 220
    /\ h = 100 + 120 * u
    /\ (forall h', 100 <= h' < 220 ->
          exists u', unit_interval u' /\ pipeHeightOf u' = h')
    /\ height (topFork h) + PIPE_GAP + height (bottomFork h) = GAME_HEIGHT
    /\ GAME_HEIGHT = 600
    /\ (forall (rnd : Rand) (g : GameData),
          spawnedForks rnd g =
            generateForks (rnd_pipe rnd) (frameCount g + 1) (pipes g)).
Proof.
  intros u fc ps Hu h.
  pose proof (pipeHeightOf_range u Hu) as Hr. fold h in Hr.
  repeat split; try reflexivity; try tauto.
  - unfold GAME_HEIGHT, PIPE_GAP. lra.
  - unfold GAME_HEIGHT, PIPE_GAP. lra.
  - apply pipeHeightOf_affine.
  - apply pipeHeightOf_onto.
  - simpl. unfold GAME_HEIGHT, PIPE_GAP. lra.
Qed.

Lemma spawned_pair_spans_world_height_witness :
  let h := pipeHeightOf 0.5 in
  generateForks 0.5 140 [] =
    [mkPipe 800 0 80 h false; mkPipe 800 (h + 280) 80 (600 - h - 280) false]
  /\ h = 160
  /\ height (topFork h) + PIPE_GAP + height (bottomFork h) = 600.
Proof.
  assert (Hu : unit_interval 0.5) by (unfold unit_interval; lra).
  destruct (spawned_pair_spans_world_height 0.5 140 [] Hu)
    as (Hg & _ & _ & _ & _ & Hh & _ & Hs & _ & _).
  split; [exact Hg|]. split; [rewrite Hh; lra | exact Hs].
Defined.

(** ** The session state machine *)

(** C1, as the claim states it, fails: [toMenu] called while the phase is
    [playing] sets the phase to [menu]. *)
Lemma toMenu_is_not_a_noop_while_playing :
  gameState (startGame initialApp) = playing /\
  gameState (toMenu (startGame initialApp)) = menu /\
  ~ (forall a : App,
       gameState a <> gameOver -> gameState (toMenu a) = gameState a).
Proof.
  split; [reflexivity|]. split; [reflexivity|].
  intros H. specialize (H (startGame initialApp)).
  simpl in H. assert (E : menu = playing) by (apply H; discriminate).
  discriminate E.
Qed.

(** C1, amended. [toMenu] has no guard: from every phase it sets the phase
    to [menu] and changes nothing else.  The only gate is in the page: the
    button that calls it is rendered in phase [gameOver] only, so no input
    of the page takes [playing] to [menu]. *)
Theorem toMenu_sets_menu_from_any_phase :
  (forall a : App,
     toMenu a = mkApp menu (score a) (highScore a) (game a)) /\
  (forall a : App,
     handle ClickChangePeanut a =
       match gameState a with gameOver => toMenu a | _ => a end) /\
  (forall (i : Input) (a : App),
     gameState a = playing -> gameState (handle i a) <> menu).
Proof.
  split; [reflexivity|]. split; [reflexivity|].
  intros i a Hp.
  destruct i; simpl; unfold frame, jump, gameLoop; rewrite ?Hp; simpl;
    try discriminate.
  destruct (detectCollision _); simpl; rewrite ?Hp; discriminate.
Qed.

(** ** Removal of forks *)

Lemma keepFork_false_iff (q : Pipe) :
  keepFork q = false <-> x q + width q <= 0.
Proof. unfold keepFork. apply gtb_false_iff. Qed.

Lemma keepFork_true_iff (q : Pipe) :
  keepFork q = true <-> x q + width q > 0.
Proof. unfold keepFork. apply gtb_true_iff. Qed.

Lemma stepGame_pipes (rnd : Rand) (g : GameData) :
  pipes (stepGame rnd g) = filter keepFork (translated rnd g).
Proof. reflexivity. Qed.

Lemma scanForks_incl (p : Player) (ps : list Pipe) (q : Pipe) :
  In q (scanForks p ps) -> In q ps.
Proof.
  induction ps as [|pipe rest IH]; simpl; [easy|].
  destruct (hitsFork p pipe); simpl; intuition.
Qed.

Lemma forksTested_incl (g : GameData) (q : Pipe) :
  In q (forksTested g) -> In q (pipes g).
Proof.
  unfold forksTested.
  destruct (hitsCeiling _); [easy|]. destruct (hitsSoup _ _); [easy|].
  apply scanForks_incl.
Qed.

(** A pipe the filter drops lies left of every player at [x >= 0]. *)
Lemma dropped_fork_cannot_hit (p : Player) (q : Pipe) :
  0 <= px p -> keepFork q = false -> hitsFork p q = false.
Proof.
  intros Hp Hq. apply keepFork_false_iff in Hq. unfold hitsFork.
  assert (E : ltb (px p) (x q + width q) = false) by (apply ltb_false_iff; lra).
  rewrite E. reflexivity.
Qed.

Lemma existsb_filter_dropped (p : Player) (ps : list Pipe) :
  0 <= px p ->
  existsb (hitsFork p) (filter keepFork ps) = existsb (hitsFork p) ps.
Proof.
  intros Hp. induction ps as [|q rest IH]; simpl; [reflexivity|].
  destruct (keepFork q) eqn:K; simpl; rewrite IH; [reflexivity|].
  rewrite (dropped_fork_cannot_hit p q Hp K). reflexivity.
Qed.

Lemma leavingGame_step :
  translated noRandom leavingGame =
    [mkPipe (-77.5 - GAME_SPEED) 0 80 150 true;
     mkPipe (-77.5 - GAME_SPEED) 430 80 170 false;
     mkPipe (468.5 - GAME_SPEED) 0 80 120 false;
     mkPipe (468.5 - GAME_SPEED) 400 80 200 false] /\
  pipes (stepGame noRandom leavingGame) =
    [mkPipe (468.5 - GAME_SPEED) 0 80 120 false;
     mkPipe (468.5 - GAME_SPEED) 400 80 200 false] /\
  forksTested (stepGame noRandom leavingGame) =
    [mkPipe (468.5 - GAME_SPEED) 0 80 120 false;
     mkPipe (468.5 - GAME_SPEED) 400 80 200 false].
Proof.
  assert (T : translated noRandom leavingGame =
    [mkPipe (-77.5 - GAME_SPEED) 0 80 150 true;
     mkPipe (-77.5 - GAME_SPEED) 430 80 170 false;
     mkPipe (468.5 - GAME_SPEED) 0 80 120 false;
     mkPipe (468.5 - GAME_SPEED) 400 80 200 false]).
  { unfold translated, translatedForks, spawnedForks, generateForks; simpl.
    unfold updateFork, scoresNow; simpl.
    unfold GAME_SPEED. cmp; reflexivity. }
  assert (P : pipes (stepGame noRandom leavingGame) =
    [mkPipe (468.5 - GAME_SPEED) 0 80 120 false;
     mkPipe (468.5 - GAME_SPEED) 400 80 200 false]).
  { rewrite stepGame_pipes, T. simpl. unfold keepFork, GAME_SPEED; simpl.
    cmp; reflexivity. }
  split; [exact T|]. split; [exact P|].
  unfold forksTested. rewrite P.
  assert (C : hitsCeiling (player (stepGame noRandom leavingGame)) = false).
  { apply ltb_false_iff. simpl. unfold GRAVITY, MAX_FALL_SPEED. cmp. }
  assert (S : hitsSoup (player (stepGame noRandom leavingGame))
                (frameCount (stepGame noRandom leavingGame)) = false).
  { apply gtb_false_iff.
    pose proof (soup_band
      (px (player (stepGame noRandom leavingGame)) +
       pwidth (player (stepGame noRandom leavingGame)) / 2)
      (frameCount (stepGame noRandom leavingGame))) as B.
    simpl in *. unfold GRAVITY, MAX_FALL_SPEED in *. cmp. }
  rewrite C, S. simpl. unfold hitsFork, GAME_SPEED, GRAVITY, MAX_FALL_SPEED.
  simpl. cmp; reflexivity.
Qed.

(** C2, as the claim states it, fails: the filter runs before the collision
    loop.  At frame 365 of a session the frame moves the first pair from
    [x = -77.5] to [x = -81.4], drops it, and then tests the two pipes of
    the second pair only. *)
Lemma removal_is_not_after_collision_test :
  In (mkPipe (-77.5 - GAME_SPEED) 0 80 150 true)
     (translated noRandom leavingGame) /\
  keepFork (mkPipe (-77.5 - GAME_SPEED) 0 80 150 true) = false /\
  forksTested (stepGame noRandom leavingGame) =
    [mkPipe (468.5 - GAME_SPEED) 0 80 120 false;
     mkPipe (468.5 - GAME_SPEED) 400 80 200 false] /\
  ~ In (mkPipe (-77.5 - GAME_SPEED) 0 80 150 true)
       (forksTested (stepGame noRandom leavingGame)) /\
  ~ removedAfterCollisionTest.
Proof.
  destruct leavingGame_step as (T & P & F).
  assert (K : keepFork (mkPipe (-77.5 - GAME_SPEED) 0 80 150 true) = false).
  { apply keepFork_false_iff. simpl. unfold GAME_SPEED. lra. }
  assert (N : ~ In (mkPipe (-77.5 - GAME_SPEED) 0 80 150 true)
                (forksTested (stepGame noRandom leavingGame))).
  { rewrite F. intros [E | [E | []]]; apply (f_equal x) in E; simpl in E; lra. }
  split; [rewrite T; left; reflexivity|]. split; [exact K|].
  split; [exact F|]. split; [exact N|].
  intros H. apply N.
  apply (H noRandom leavingGame); [rewrite T; left; reflexivity | exact K].
Qed.

(** C2, amended. In every frame a translated pipe is dropped if and only
    if [x + width <= 0] after the translation.  The filter runs first and
    the collision loop afterwards, over the pipes that remain: a pipe
    dropped in a frame is not tested in that frame.  Nothing is lost by
    that order: with the player at [x >= 0] a dropped pipe cannot overlap
    the player, so the fork test over the remaining pipes answers as the
    test over all translated pipes would. *)
Theorem removal_iff_right_edge_left_of_world :
  forall (rnd : Rand) (g : GameData),
    pipes (stepGame rnd g) = filter keepFork (translated rnd g) /\
    (forall q : Pipe,
       In q (translated rnd g) ->
       (~ In q (pipes (stepGame rnd g)) <-> x q + width q <= 0)) /\
    (forall q : Pipe,
       In q (forksTested (stepGame rnd g)) ->
       In q (translated rnd g) /\ x q + width q > 0) /\
    (0 <= px (player g) ->
     existsb (hitsFork (player (stepGame rnd g))) (pipes (stepGame rnd g)) =
     existsb (hitsFork (player (stepGame rnd g))) (translated rnd g)).
Proof.
  intros rnd g. split; [reflexivity|]. split; [|split].
  - intros q Hq. rewrite stepGame_pipes, filter_In, <- keepFork_false_iff.
    destruct (keepFork q); intuition congruence.
  - intros q Hq. apply forksTested_incl in Hq.
    rewrite stepGame_pipes in Hq. apply filter_In in Hq.
    destruct Hq as [Hi Hk]. apply keepFork_true_iff in Hk. tauto.
  - intros Hp. rewrite stepGame_pipes. apply existsb_filter_dropped.
    exact Hp.
Qed.

(** ** Scoring *)

Lemma updateFork_fields (playerX : R) (q : Pipe) :
  x (updateFork playerX q) = x q - GAME_SPEED /\
  y (updateFork playerX q) = y q /\
  width (updateFork playerX q) = width q /\
  height (updateFork playerX q) = height q /\
  passed (updateFork playerX q) =
    (passed q || scoresNow playerX (movePipe q))%bool.
Proof.
  unfold updateFork.
  destruct (scoresNow playerX (movePipe q)) eqn:E; simpl;
    repeat split; try reflexivity.
  - symmetry. apply orb_true_r.
  - symmetry. apply orb_false_r.
Qed.

Lemma scoresNow_needs_top (playerX : R) (q : Pipe) :
  y q <> 0 -> scoresNow playerX (movePipe q) = false.
Proof.
  intros Hy. unfold scoresNow; simpl.
  apply strict_eqb_false_iff in Hy. rewrite Hy.
  rewrite andb_false_r. reflexivity.
Qed.

Lemma scoresNow_needs_unflagged (playerX : R) (q : Pipe) :
  passed q = true -> scoresNow playerX (movePipe q) = false.
Proof. intros Hp. unfold scoresNow; simpl. rewrite Hp. reflexivity. Qed.

Lemma track_fields (playerX : R) (n : nat) (q : Pipe) :
  x (track playerX n q) = x q - GAME_SPEED * INR n /\
  y (track playerX n q) = y q /\
  width (track playerX n q) = width q /\
  height (track playerX n q) = height q.
Proof.
  induction n as [|n (Hx & Hy & Hw & Hh)].
  - simpl. repeat split; lra.
  - cbn [track].
    destruct (updateFork_fields playerX (track playerX n q))
      as (Ux & Uy & Uw & Uh & _).
    rewrite Ux, Uy, Uw, Uh, Hx, Hy, Hw, Hh, S_INR.
    repeat split; lra.
Qed.

Lemma crossed_true_iff (playerX : R) (n : nat) (q : Pipe) :
  crossed playerX n q = true <-> x q - GAME_SPEED * INR n + width q < playerX.
Proof. apply ltb_true_iff. Qed.

Lemma crossed_false_iff (playerX : R) (n : nat) (q : Pipe) :
  crossed playerX n q = false <-> playerX <= x q - GAME_SPEED * INR n + width q.
Proof. apply ltb_false_iff. Qed.

Lemma crossed_stays (playerX : R) (n : nat) (q : Pipe) :
  crossed playerX n q = true -> crossed playerX (S n) q = true.
Proof.
  rewrite !crossed_true_iff, S_INR. unfold GAME_SPEED. lra.
Qed.

(** What the callback's test reads on the pipe at its frame [n + 1]. *)
Lemma scoresNow_track (playerX : R) (n : nat) (q : Pipe) :
  scoresNow playerX (movePipe (track playerX n q)) =
    (negb (passed (track playerX n q)) && strict_eqb (y q) 0 &&
     crossed playerX (S n) q)%bool.
Proof.
  destruct (track_fields playerX n q) as (Hx & Hy & Hw & _).
  unfold scoresNow, crossed, movePipe; cbn [x y width passed].
  rewrite Hx, Hy, Hw, S_INR.
  replace (x q - GAME_SPEED * INR n - GAME_SPEED + width q)
    with (x q - GAME_SPEED * (INR n + 1) + width q) by lra.
  reflexivity.
Qed.

(** A top pipe that starts unflagged and not yet crossed is flagged exactly
    when it has crossed, and has scored once exactly when it has crossed. *)
Lemma track_top (playerX : R) (q : Pipe) :
  passed q = false -> y q = 0 -> playerX <= x q + width q ->
  forall n : nat,
    passed (track playerX n q) = crossed playerX n q /\
    scoreCount playerX n q = (if crossed playerX n q then 1 else 0)%nat.
Proof.
  intros Hp Hy H0 n. induction n as [|n [IHp IHs]].
  - simpl. rewrite Hp. assert (E : crossed playerX 0 q = false).
    { apply crossed_false_iff. simpl. lra. }
    rewrite E. split; reflexivity.
  - cbn [track scoreCount].
    destruct (updateFork_fields playerX (track playerX n q))
      as (_ & _ & _ & _ & Up).
    rewrite Up, scoresNow_track, IHp, IHs.
    assert (Ey : strict_eqb (y q) 0 = true) by (apply strict_eqb_true_iff; exact Hy).
    rewrite Ey.
    destruct (crossed playerX n q) eqn:Cn.
    + rewrite (crossed_stays _ _ _ Cn). split; reflexivity.
    + destruct (crossed playerX (S n) q); split; reflexivity.
Qed.

Lemma scoreCount_not_top (playerX : R) (q : Pipe) (n : nat) :
  y q <> 0 -> scoreCount playerX n q = 0%nat.
Proof.
  intros Hy. induction n as [|n IH]; [reflexivity|].
  cbn [scoreCount]. rewrite IH, scoresNow_needs_top; [reflexivity|].
  destruct (track_fields playerX n q) as (_ & Ty & _). rewrite Ty. exact Hy.
Qed.

(** A spawned top fork crosses the player's [x = 150] at its frame 188. *)
Lemma topFork_crossed (h : R) (n : nat) :
  crossed 150 n (topFork h) = (188 <=? n)%nat.
Proof.
  destruct (188 <=? n)%nat eqn:E.
  - apply Nat.leb_le in E. apply crossed_true_iff. simpl.
    apply le_INR in E. replace (INR 188) with 188 in E by (simpl; lra).
    unfold GAME_SPEED, GAME_WIDTH, PIPE_WIDTH. lra.
  - apply Nat.leb_gt in E. apply crossed_false_iff. simpl.
    assert (E' : (n <= 187)%nat) by lia.
    apply le_INR in E'. replace (INR 187) with 187 in E' by (simpl; lra).
    unfold GAME_SPEED, GAME_WIDTH, PIPE_WIDTH. lra.
Qed.

Lemma gameLoop_score (rnd : Rand) (a : App) :
  score (gameLoop rnd a) = (score a + stepGain rnd (game a))%Z.
Proof. unfold gameLoop. destruct (detectCollision _); reflexivity. Qed.

(** C4. A frame adds one to the score for each pipe that is unflagged, has
    [y = 0] and whose right edge, once moved, is strictly left of the
    player's [x]; the callback flags such a pipe, a flagged pipe never
    scores again, and the pipes of the next frame are the pipes the
    callback has updated, with the player's [x] unchanged.  Followed
    through its frames, a top pipe scores on the frame in which its right
    edge first crosses, and its count is one from then on; a spawned top
    fork does so on its frame 188.  A pipe with [y <> 0], the bottom fork
    of a pair, never scores. *)
Theorem score_once_per_pair :
  (forall (rnd : Rand) (a : App),
     score (gameLoop rnd a) =
       (score a +
        Z.of_nat (length (filter
          (fun q => negb (passed q) && strict_eqb (y q) 0 &&
                    ltb (x q - GAME_SPEED + width q) (px (player (game a))))
          (spawnedForks rnd (game a)))))%Z) /\
  (forall (rnd : Rand) (a : App),
     px (player (game (gameLoop rnd a))) = px (player (game a)) /\
     pipes (game (gameLoop rnd a)) =
       filter keepFork
         (map (updateFork (px (player (game a)))) (spawnedForks rnd (game a)))) /\
  (forall (playerX : R) (q : Pipe),
     passed (updateFork playerX q) =
       (passed q || scoresNow playerX (movePipe q))%bool) /\
  (forall (playerX : R) (q : Pipe),
     passed q = true ->
     scoresNow playerX (movePipe q) = false /\
     passed (updateFork playerX q) = true) /\
  (forall (playerX : R) (q : Pipe) (n : nat),
     passed q = false -> y q = 0 -> playerX <= x q + width q ->
     scoresNow playerX (movePipe (track playerX n q)) =
       (negb (crossed playerX n q) && crossed playerX (S n) q)%bool /\
     scoreCount playerX n q = (if crossed playerX n q then 1 else 0)%nat) /\
  (forall (h : R) (n : nat),
     scoresNow 150 (movePipe (track 150 n (topFork h))) = (n =? 187)%nat /\
     scoreCount 150 n (topFork h) = (if (188 <=? n)%nat then 1 else 0)%nat) /\
  (forall (playerX : R) (q : Pipe) (n : nat),
     y q <> 0 ->
     scoresNow playerX (movePipe (track playerX n q)) = false /\
     scoreCount playerX n q = 0%nat) /\
  (forall (u : R) (n : nat),
     unit_interval u -> scoreCount 150 n (bottomFork (pipeHeightOf u)) = 0%nat).
Proof.
  assert (G : forall (playerX : R) (q : Pipe) (n : nat),
     passed q = false -> y q = 0 -> playerX <= x q + width q ->
     scoresNow playerX (movePipe (track playerX n q)) =
       (negb (crossed playerX n q) && crossed playerX (S n) q)%bool /\
     scoreCount playerX n q = (if crossed playerX n q then 1 else 0)%nat).
  { intros playerX q n Hp Hy H0.
    destruct (track_top playerX q Hp Hy H0 n) as [Tp Ts].
    split; [|exact Ts].
    rewrite scoresNow_track, Tp.
    assert (Ey : strict_eqb (y q) 0 = true)
      by (apply strict_eqb_true_iff; exact Hy).
    rewrite Ey, andb_true_r. reflexivity. }
  split; [|split; [|split; [|split; [|split; [exact G|split; [|split]]]]]].
  - intros rnd a. rewrite gameLoop_score. reflexivity.
  - intros rnd a. rewrite gameLoop_game. split; reflexivity.
  - intros playerX q. apply updateFork_fields.
  - intros playerX q Hp.
    destruct (updateFork_fields playerX q) as (_ & _ & _ & _ & Up).
    rewrite Up, Hp. split; [apply scoresNow_needs_unflagged; exact Hp|].
    reflexivity.
  - intros h n.
    assert (H0 : 150 <= x (topFork h) + width (topFork h)).
    { simpl. unfold GAME_WIDTH, PIPE_WIDTH. lra. }
    destruct (G 150 (topFork h) n eq_refl eq_refl H0) as [Gs Gc].
    rewrite Gs, Gc, !topFork_crossed. split; [|reflexivity].
    destruct (Nat.eqb_spec n 187) as [-> | Hn]; [reflexivity|].
    destruct (Nat.leb_spec 188 n); destruct (Nat.leb_spec 188 (S n));
      simpl; try reflexivity; lia.
  - intros playerX q n Hy. split; [|apply scoreCount_not_top; exact Hy].
    apply scoresNow_needs_top.
    destruct (track_fields playerX n q) as (_ & Ty & _). rewrite Ty. exact Hy.
  - intros u n Hu. apply scoreCount_not_top. simpl.
    pose proof (pipeHeightOf_range u Hu). unfold PIPE_GAP. lra.
Qed.

(** ** Bubbles *)

Lemma newBubble_fields (rnd : Rand) :
  rand_ok rnd ->
  by_ (newBubble rnd) = 594 /\
  2 <= r (newBubble rnd) < 7 /\
  -1.5 < vy (newBubble rnd) <= -0.6.
Proof.
  intros (_ & _ & Hr & Hv & _). unfold unit_interval in *.
  simpl. unfold GAME_HEIGHT. repeat split; lra.
Qed.

Lemma newBubble_pops_at_once (rnd : Rand) (fc : Z) :
  rand_ok rnd -> keepBubble fc (moveBubble fc (newBubble rnd)) = false.
Proof.
  intros Hr. destruct (newBubble_fields rnd Hr) as (Hy & Hrad & Hv).
  unfold keepBubble. apply ltb_false_iff.
  pose proof (soup_band (bx (moveBubble fc (newBubble rnd))) fc) as [_ U].
  unfold moveBubble at 2 3. cbn [by_ r]. lra.
Qed.

Lemma updateBubbles_empty (rnd : Rand) (fc : Z) :
  rand_ok rnd -> updateBubbles fc (generateBubble rnd fc []) = [].
Proof.
  intros Hr. unfold generateBubble, updateBubbles.
  destruct ((fc mod 12 =? 0)%Z && (length (@nil Bubble) <? 40)%nat)%bool;
    [|reflexivity].
  cbn [app map filter]. rewrite newBubble_pops_at_once by exact Hr.
  reflexivity.
Qed.

Lemma exec_bubbles (c : Call) (a : App) :
  call_ok c -> bubbles (game a) = [] -> bubbles (game (exec c a)) = [].
Proof.
  intros Hc Hb. destruct c as [ | | | rnd]; simpl.
  - reflexivity.
  - unfold jump. destruct (gameState a); simpl; exact Hb.
  - exact Hb.
  - unfold frame. destruct (gameState a); try exact Hb.
    unfold gameLoop. destruct (detectCollision _); simpl;
      rewrite Hb; apply updateBubbles_empty; exact Hc.
Qed.

Lemma reachable_bubbles (a : App) :
  reachable a -> bubbles (game a) = [].
Proof.
  induction 1 as [|a c Ha IH Hc]; [reflexivity|].
  apply exec_bubbles; assumption.
Qed.

(** C9. A new bubble has [y = 594], a radius of at least 2 and rises by
    less than 1.5 in a frame, and the soup surface is nowhere below 556: the
    filter's test [y + r < surface - 2] fails for it in the frame that
    creates it.  So no bubble outlives its first frame: in every state the
    game reaches the bubble list is empty, and the cap of 40 is never
    reached. *)
Theorem bubbles_pop_on_their_first_frame :
  (forall (rnd : Rand) (fc : Z),
     rand_ok rnd ->
     by_ (newBubble rnd) = 594 /\
     2 <= r (newBubble rnd) /\
     -1.5 < vy (newBubble rnd) /\
     (forall x0 : R, soupSurfaceYAt x0 fc <= 556) /\
     keepBubble fc (moveBubble fc (newBubble rnd)) = false) /\
  (forall a : App,
     reachable a ->
     bubbles (game a) = [] /\ (length (bubbles (game a)) < 40)%nat).
Proof.
  split.
  - intros rnd fc Hr. destruct (newBubble_fields rnd Hr) as (Hy & Hrad & Hv).
    repeat split; try tauto.
    + intros x0. apply soup_band.
    + apply newBubble_pops_at_once. exact Hr.
  - intros a Ha. rewrite (reachable_bubbles a Ha). split; [reflexivity|].
    simpl. lia.
Qed.

(** ** Pairs *)

Lemma inPairs_app (P : Pipe -> Pipe -> Prop) (l1 l2 : list Pipe) :
  inPairs P l1 -> inPairs P l2 -> inPairs P (l1 ++ l2).
Proof.
  induction 1 as [|t b rest Hp _ IH]; intros H2; [exact H2|].
  simpl. constructor; [exact Hp | apply IH; exact H2].
Qed.

Lemma inPairs_map_filter (P Q : Pipe -> Pipe -> Prop) (f : Pipe -> Pipe)
      (keep : Pipe -> bool) (l : list Pipe) :
  (forall t b, P t b -> Q (f t) (f b) /\ keep (f t) = keep (f b)) ->
  inPairs P l -> inPairs Q (filter keep (map f l)).
Proof.
  intros Hf. induction 1 as [|t b rest Hp _ IH]; [constructor|].
  destruct (Hf t b Hp) as [Hq Hk]. cbn [map filter]. rewrite <- Hk.
  destruct (keep (f t)); [constructor; assumption | exact IH].
Qed.

Lemma inPairs_even (P : Pipe -> Pipe -> Prop) (l : list Pipe) :
  inPairs P l -> Nat.even (length l) = true.
Proof. induction 1; [reflexivity | simpl; assumption]. Qed.

Lemma inPairs_In (P : Pipe -> Pipe -> Prop) (l : list Pipe) (q : Pipe) :
  inPairs P l -> In q l ->
  exists t b, P t b /\ In t l /\ In b l /\ (q = t \/ q = b).
Proof.
  induction 1 as [|t b rest Hp _ IH]; intros Hq; [destruct Hq|].
  destruct Hq as [<- | [<- | Hq]].
  - exists t, b. simpl. tauto.
  - exists t, b. simpl. tauto.
  - destruct (IH Hq) as (t' & b' & Hp' & Ht & Hb & Hor).
    exists t', b'. simpl. tauto.
Qed.

Lemma spawned_sameColumn (h : R) : sameColumn (topFork h) (bottomFork h).
Proof. repeat split. Qed.

Lemma updateFork_sameColumn (playerX : R) (t b : Pipe) :
  sameColumn t b ->
  sameColumn (updateFork playerX t) (updateFork playerX b) /\
  keepFork (updateFork playerX t) = keepFork (updateFork playerX b).
Proof.
  intros (Hx & Hwt & Hwb).
  destruct (updateFork_fields playerX t) as (Tx & _ & Tw & _).
  destruct (updateFork_fields playerX b) as (Bx & _ & Bw & _).
  unfold sameColumn, keepFork. rewrite Tx, Bx, Tw, Bw, Hx, Hwt, Hwb.
  repeat split.
Qed.

Lemma generateForks_pairs (P : Pipe -> Pipe -> Prop) (u : R) (fc : Z)
      (ps : list Pipe) :
  (spawnsAt fc = true -> P (topFork (pipeHeightOf u)) (bottomFork (pipeHeightOf u))) ->
  inPairs P ps -> inPairs P (generateForks u fc ps).
Proof.
  intros Hn Hps. unfold generateForks. destruct (spawnsAt fc); [|exact Hps].
  apply inPairs_app; [exact Hps|]. constructor; [auto | constructor].
Qed.

Lemma stepGame_sameColumn (rnd : Rand) (g : GameData) :
  inPairs sameColumn (pipes g) -> inPairs sameColumn (pipes (stepGame rnd g)).
Proof.
  intros Hg. rewrite stepGame_pipes. unfold translated, translatedForks.
  apply inPairs_map_filter with (P := sameColumn).
  - intros t b. apply updateFork_sameColumn.
  - apply generateForks_pairs; [intros _; apply spawned_sameColumn | exact Hg].
Qed.

Lemma exec_sameColumn (c : Call) (a : App) :
  inPairs sameColumn (pipes (game a)) ->
  inPairs sameColumn (pipes (game (exec c a))).
Proof.
  intros Ha. destruct c as [ | | | rnd]; simpl.
  - constructor.
  - unfold jump. destruct (gameState a); simpl; exact Ha.
  - exact Ha.
  - unfold frame. destruct (gameState a); try exact Ha.
    rewrite gameLoop_game. apply stepGame_sameColumn. exact Ha.
Qed.

Lemma reachable_sameColumn (a : App) :
  reachable a -> inPairs sameColumn (pipes (game a)).
Proof.
  induction 1 as [|a c Ha IH Hc]; [constructor|].
  apply exec_sameColumn. exact IH.
Qed.

Lemma tick_pipes (rnd : Rand) (a : App) :
  pipes (game (gameLoop rnd a)) =
    filter keepFork
      (map (updateFork (px (player (game a)))) (spawnedForks rnd (game a))).
Proof. rewrite gameLoop_game. reflexivity. Qed.

Lemma spawnedForks_split (rnd : Rand) (g : GameData) :
  exists new : list Pipe,
    spawnedForks rnd g = pipes g ++ new /\
    (new = [] \/
     exists h : R, new = [topFork h; bottomFork h]).
Proof.
  unfold spawnedForks, generateForks. destruct (spawnsAt _).
  - eexists. split; [reflexivity|]. right. eexists. reflexivity.
  - exists []. split; [rewrite app_nil_r; reflexivity | left; reflexivity].
Qed.

(** C10. The two forks of a pair are created at [x = 800], 80 wide; the
    callback moves each pipe by 3.9, so two pipes in one column stay in one
    column and the filter keeps both or drops both.  Hence in every state
    the game reaches the pipe list is a sequence of such pairs, and its
    length is even.  A tick does this to the pipe list of the game: the
    list it leaves is the list it found, with the pair spawned on the tick
    if any, every pipe moved left by 3.9 and those whose right edge is not
    right of 0 dropped; a pair in one column is kept as a whole, both forks
    moved, or dropped as a whole. *)
Theorem forks_stay_paired :
  (forall h : R,
     x (topFork h) = 800 /\ x (bottomFork h) = 800 /\
     width (topFork h) = 80 /\ width (bottomFork h) = 80) /\
  (forall (playerX : R) (t b : Pipe),
     sameColumn t b ->
     x (updateFork playerX t) = x t - 3.9 /\
     x (updateFork playerX b) = x b - 3.9 /\
     sameColumn (updateFork playerX t) (updateFork playerX b) /\
     keepFork (updateFork playerX t) = keepFork (updateFork playerX b)) /\
  (forall a : App,
     reachable a ->
     inPairs sameColumn (pipes (game a)) /\
     Nat.even (length (pipes (game a))) = true) /\
  (forall (rnd : Rand) (a : App),
     let playerX := px (player (game a)) in
     let found := spawnedForks rnd (game a) in
     let kept := pipes (game (gameLoop rnd a)) in
     kept = filter keepFork (map (updateFork playerX) found) /\
     (exists new : list Pipe,
        found = pipes (game a) ++ new /\
        (new = [] \/ exists h : R, new = [topFork h; bottomFork h])) /\
     (forall q : Pipe,
        In q found ->
        x (updateFork playerX q) = x q - 3.9 /\
        y (updateFork playerX q) = y q /\
        width (updateFork playerX q) = width q /\
        height (updateFork playerX q) = height q /\
        (In (updateFork playerX q) kept <-> 0 < x q - 3.9 + width q)) /\
     (forall q' : Pipe,
        In q' kept ->
        exists q : Pipe,
          In q found /\ q' = updateFork playerX q /\ x q' = x q - 3.9) /\
     (forall (front back : list Pipe) (t b : Pipe),
        found = front ++ t :: b :: back -> sameColumn t b ->
        kept =
          filter keepFork (map (updateFork playerX) front) ++
          (if keepFork (updateFork playerX t)
           then [updateFork playerX t; updateFork playerX b] else []) ++
          filter keepFork (map (updateFork playerX) back))).
Proof.
  split; [intros h; repeat split|]. split; [|split].
  - intros playerX t b Hc.
    destruct (updateFork_fields playerX t) as (Tx & _).
    destruct (updateFork_fields playerX b) as (Bx & _).
    destruct (updateFork_sameColumn playerX t b Hc) as [Hs Hk].
    repeat split; try assumption; try apply Hs.
  - intros a Ha. pose proof (reachable_sameColumn a Ha) as Hp.
    split; [exact Hp | apply inPairs_even with (P := sameColumn); exact Hp].
  - intros rnd a playerX found kept.
    assert (E : kept = filter keepFork (map (updateFork playerX) found))
      by apply tick_pipes.
    split; [exact E|]. split; [apply spawnedForks_split|]. split; [|split].
    + intros q Hq.
      destruct (updateFork_fields playerX q) as (Fx & Fy & Fw & Fh & _).
      unfold GAME_SPEED in Fx.
      split; [exact Fx|]. split; [exact Fy|]. split; [exact Fw|].
      split; [exact Fh|].
      rewrite E, filter_In, keepFork_true_iff, Fx, Fw. split.
      * intros [_ H]. lra.
      * intros H. split; [apply in_map; exact Hq | lra].
    + intros q' Hq'. rewrite E in Hq'. apply filter_In in Hq' as [Hq' _].
      apply in_map_iff in Hq' as (q & <- & Hq).
      exists q. split; [exact Hq|]. split; [reflexivity|].
      destruct (updateFork_fields playerX q) as (Fx & _).
      unfold GAME_SPEED in Fx. exact Fx.
    + intros front back t b Hf Hc.
      destruct (updateFork_sameColumn playerX t b Hc) as [_ Hk].
      rewrite E, Hf, map_app, filter_app. cbn [map filter].
      rewrite <- Hk.
      destruct (keepFork (updateFork playerX t)); reflexivity.
Qed.

(** ** Free fall *)

Lemma fall_box (n : nat) :
  px (fallPlayer n) = 150 /\ pwidth (fallPlayer n) = 40 /\
  pheight (fallPlayer n) = 40.
Proof.
  induction n as [|n IH]; [repeat split|]. simpl. exact IH.
Qed.

Lemma updatePlayer_free (p : Player) :
  velocity p + GRAVITY <= MAX_FALL_SPEED ->
  velocity (updatePlayer p) = velocity p + GRAVITY /\
  py (updatePlayer p) = py p + (velocity p + GRAVITY).
Proof.
  intros H. unfold updatePlayer; simpl.
  apply gtb_false_iff in H. rewrite H. split; reflexivity.
Qed.

Lemma updatePlayer_clamped (p : Player) :
  velocity p + GRAVITY > MAX_FALL_SPEED ->
  velocity (updatePlayer p) = MAX_FALL_SPEED /\
  py (updatePlayer p) = py p + MAX_FALL_SPEED.
Proof.
  intros H. unfold updatePlayer; simpl.
  apply gtb_true_iff in H. rewrite H. split; reflexivity.
Qed.

(** Up to frame 24 the fall accelerates: [v = n/2], [y = 300 + n(n+1)/4]. *)
Lemma fall_early (n : nat) :
  (n <= 24)%nat ->
  velocity (fallPlayer n) = INR n * 0.5 /\
  py (fallPlayer n) = 300 + 0.25 * INR n * (INR n + 1).
Proof.
  induction n as [|n IH]; intros Hn.
  - simpl. unfold GAME_HEIGHT. split; lra.
  - destruct IH as [Hv Hy]; [lia|].
    assert (Hb : INR n <= 23).
    { replace 23 with (INR 23) by (simpl; lra). apply le_INR. lia. }
    cbn [fallPlayer].
    destruct (updatePlayer_free (fallPlayer n)) as [Uv Uy].
    { rewrite Hv. unfold GRAVITY, MAX_FALL_SPEED. lra. }
    rewrite Uv, Uy, Hv, Hy, S_INR. unfold GRAVITY. split; lra.
Qed.

(** From frame 24 on the fall speed is 12. *)
Lemma fall_late (n : nat) :
  (24 <= n)%nat ->
  velocity (fallPlayer n) = 12 /\
  py (fallPlayer n) = 450 + 12 * (INR n - 24).
Proof.
  induction 1 as [|n Hn [Hv Hy]].
  - destruct (fall_early 24) as [Hv Hy]; [lia|].
    rewrite Hv, Hy. replace (INR 24) with 24 by (simpl; lra). split; lra.
  - cbn [fallPlayer].
    destruct (updatePlayer_clamped (fallPlayer n)) as [Uv Uy].
    { rewrite Hv. unfold GRAVITY, MAX_FALL_SPEED. lra. }
    rewrite Uv, Uy, Hy, S_INR. unfold MAX_FALL_SPEED. split; lra.
Qed.

Lemma fall_never_rises (n : nat) : 300 <= py (fallPlayer n).
Proof.
  destruct (Nat.le_gt_cases n 24) as [H | H].
  - destruct (fall_early n H) as [_ Hy]. rewrite Hy.
    pose proof (pos_INR n). nra.
  - destruct (fall_late n) as [_ Hy]; [lia|]. rewrite Hy.
    assert (24 <= INR n).
    { replace 24 with (INR 24) by (simpl; lra). apply le_INR. lia. }
    lra.
Qed.

Lemma fall_above_soup (n : nat) : (n <= 26)%nat -> py (fallPlayer n) <= 474.
Proof.
  intros Hn. destruct (Nat.le_gt_cases n 24) as [H | H].
  - destruct (fall_early n H) as [_ Hy]. rewrite Hy.
    pose proof (pos_INR n).
    assert (INR n <= 24).
    { replace 24 with (INR 24) by (simpl; lra). apply le_INR. exact H. }
    nra.
  - destruct (fall_late n) as [_ Hy]; [lia|]. rewrite Hy.
    assert (INR n <= 26).
    { replace 26 with (INR 26) by (simpl; lra). apply le_INR. exact Hn. }
    lra.
Qed.

Lemma fall_at_27 : py (fallPlayer 27) = 486.
Proof.
  destruct (fall_late 27) as [_ Hy]; [lia|]. rewrite Hy.
  replace (INR 27) with 27 by (simpl; lra). lra.
Qed.

Lemma not_inSoup_early (n : nat) : (n <= 26)%nat -> ~ inSoup n.
Proof.
  intros Hn. unfold inSoup. destruct (fall_box n) as (-> & -> & ->).
  pose proof (fall_above_soup n Hn).
  pose proof (soup_band (150 + 40 / 2) (Z.of_nat n)). lra.
Qed.

(** The surface under the player at frame 27: both sines are near their
    minimum, [sin 4.17 <= -0.83] and [sin 4.87 <= -0.96]. *)
Lemma PI_bounds : 3.14 < PI < 3.15.
Proof.
  pose proof (PI_2_3_7_ineq 1) as [L U].
  unfold sum_f_R0, tg_alt, PI_2_3_7_tg, Ratan_seq in L, U.
  simpl in L, U. lra.
Qed.

Lemma sin_lower (a c : R) :
  0 <= a <= 1.5 -> c <= sin_lb a -> c <= sin a.
Proof.
  intros Ha Hc. pose proof PI_bounds.
  destruct (SIN a) as [L _]; lra.
Qed.

Lemma sin_417 : sin 4.17 <= -0.83.
Proof.
  pose proof PI_bounds as Hpi.
  replace 4.17 with ((4.17 - PI) + PI) by lra. rewrite neg_sin.
  assert (H1 : 0.83 <= sin 1.02).
  { apply sin_lower; [lra|].
    unfold sin_lb, sin_approx, sin_term, sum_f_R0. simpl. lra. }
  assert (H2 : sin 1.02 <= sin (4.17 - PI)) by (apply sin_incr_1; lra).
  lra.
Qed.

Lemma sin_487 : sin 4.87 <= -0.96.
Proof.
  pose proof PI_bounds as Hpi.
  replace 4.87 with ((4.87 - PI) + PI) by lra. rewrite neg_sin.
  rewrite <- (sin_PI_x (4.87 - PI)).
  assert (H1 : 0.96 <= sin 1.4).
  { apply sin_lower; [lra|].
    unfold sin_lb, sin_approx, sin_term, sum_f_R0. simpl. lra. }
  assert (H2 : sin 1.4 <= sin (PI - (4.87 - PI))) by (apply sin_incr_1; lra).
  lra.
Qed.

Lemma soup_at_27 : soupSurfaceYAt 170 27 < 526.
Proof.
  unfold soupSurfaceYAt, SOUP_BASE_Y, GAME_HEIGHT.
  replace (170 * 0.015 + 27 * 0.06) with 4.17 by lra.
  replace (170 * 0.035 - 27 * 0.04) with 4.87 by lra.
  pose proof sin_417. pose proof sin_487. lra.
Qed.

Lemma inSoup_27 : inSoup 27.
Proof.
  unfold inSoup. destruct (fall_box 27) as (-> & -> & ->).
  rewrite fall_at_27.
  replace (150 + 40 / 2) with 170 by lra.
  change (Z.of_nat 27) with 27%Z. pose proof soup_at_27. lra.
Qed.

Lemma spawnsAt_early (k : nat) :
  (k < 139)%nat -> spawnsAt (Z.of_nat k + 1) = false.
Proof.
  intros Hk. unfold spawnsAt, SPAWN_INTERVAL. apply Z.eqb_neq.
  rewrite Z.mod_small; lia.
Qed.

(** One frame of a running free fall: the session goes on in free fall, or
    the soup test fires and it ends; the score stays 0 either way. *)
Lemma falling_frame (k : nat) (b : App) (rnd : Rand) :
  falling k b -> (k < 139)%nat ->
  (~ inSoup (S k) /\ falling (S k) (frame rnd b)) \/
  (inSoup (S k) /\ fallen (S k) (frame rnd b)).
Proof.
  intros (Hs & Hsc & Hp & Hf & Hpl) Hk.
  unfold frame. rewrite Hs.
  assert (Hg : stepGame rnd (game b) =
               mkGameData (fallPlayer (S k)) []
                 (bubbles (stepGame rnd (game b))) (Z.of_nat (S k))).
  { unfold stepGame, spawnedForks, generateForks.
    rewrite Hf, Hp, Hpl, (spawnsAt_early k Hk). cbn [fallPlayer].
    f_equal. lia. }
  assert (Hgain : stepGain rnd (game b) = 0%Z).
  { unfold stepGain, spawnedForks, generateForks.
    rewrite Hf, Hp, (spawnsAt_early k Hk). reflexivity. }
  assert (Hc : hitsCeiling (fallPlayer (S k)) = false).
  { apply ltb_false_iff. pose proof (fall_never_rises (S k)). lra. }
  unfold gameLoop. rewrite Hgain, Hg.
  unfold detectCollision. cbn [player frameCount pipes existsb]. rewrite Hc.
  unfold falling, fallen.
  destruct (hitsSoup (fallPlayer (S k)) (Z.of_nat (S k))) eqn:E.
  - right. apply gtb_true_iff in E. split; [exact E|].
    simpl. rewrite Hsc. repeat split; lia.
  - left. apply gtb_false_iff in E. split; [unfold inSoup; lra|].
    simpl. rewrite Hs, Hsc. repeat split; lia.
Qed.

Lemma run_app (cs1 cs2 : list Call) (a : App) :
  run (cs1 ++ cs2) a = run cs2 (run cs1 a).
Proof. unfold run. apply fold_left_app. Qed.

Lemma firstn_snoc (rnds : list Rand) (k : nat) :
  (k < length rnds)%nat ->
  firstn (S k) rnds = firstn k rnds ++ [nth k rnds noRandom].
Proof.
  revert k. induction rnds as [|rnd rest IH]; intros k Hk; simpl in Hk; [lia|].
  destruct k as [|k]; [reflexivity|].
  cbn [firstn nth app]. rewrite <- IH by lia. reflexivity.
Qed.

Lemma afterFrames_S (a : App) (rnds : list Rand) (k : nat) :
  (k < length rnds)%nat ->
  afterFrames a rnds (S k) =
    frame (nth k rnds noRandom) (afterFrames a rnds k).
Proof.
  intros Hk. unfold afterFrames.
  rewrite (firstn_snoc rnds k Hk), map_app, run_app. reflexivity.
Qed.

Lemma run_from (a : App) (rnds : list Rand) (k : nat) :
  run (map CFrame rnds) (startGame a) =
    run (map CFrame (skipn k rnds)) (afterFrames a rnds k).
Proof.
  unfold afterFrames. rewrite <- run_app, <- map_app, firstn_skipn.
  reflexivity.
Qed.

Lemma frames_when_over (rnds : list Rand) (b : App) :
  gameState b = gameOver -> run (map CFrame rnds) b = b.
Proof.
  intros Hb. induction rnds as [|rnd rest IH]; [reflexivity|].
  cbn [map]. change (run (CFrame rnd :: map CFrame rest) b)
    with (run (map CFrame rest) (frame rnd b)).
  unfold frame. rewrite Hb. exact IH.
Qed.

Lemma falling_start (a : App) : falling 0 (startGame a).
Proof. repeat split. Qed.

Section FreeFall.

Variable a : App.
Variable rnds : list Rand.
Hypothesis enough : (27 <= length rnds)%nat.

Lemma fall_runs (k : nat) :
  (k <= 26)%nat -> falling k (afterFrames a rnds k).
Proof.
  induction k as [|k IH]; intros Hk; [apply falling_start|].
  rewrite afterFrames_S by lia.
  destruct (falling_frame k (afterFrames a rnds k) (nth k rnds noRandom))
    as [[_ F] | [Hs _]]; [apply IH; lia | lia | exact F |].
  exfalso. exact (not_inSoup_early (S k) Hk Hs).
Qed.

Lemma fall_ends : fallen 27 (afterFrames a rnds 27).
Proof.
  rewrite afterFrames_S by lia.
  destruct (falling_frame 26 (afterFrames a rnds 26) (nth 26 rnds noRandom))
    as [[N _] | [_ F]]; [apply fall_runs; lia | lia | | exact F].
  exfalso. exact (N inSoup_27).
Qed.

Lemma fall_terminates :
  fallen 27 (run (map CFrame rnds) (startGame a)).
Proof.
  rewrite (run_from a rnds 27), frames_when_over;
    [exact fall_ends | apply fall_ends].
Qed.

End FreeFall.

(** C8. After [startGame] (player at [y = 300] with velocity 0, frame
    counter and score 0), fifty animation frames and no jump: the session
    ends at frame 27, with score 0.  Frame 27 is the first frame at which
    [player.y + player.height], then 526, exceeds the soup surface at the
    player's centre; at every frame before it the session is playing with
    the player above the surface. *)
Theorem free_fall_ends_in_soup_with_score_0 :
  forall (a : App) (rnds : list Rand),
    length rnds = 50%nat ->
    let final := run (map CFrame rnds) (startGame a) in
    (py (player (game (startGame a))) = 300 /\
     velocity (player (game (startGame a))) = 0 /\
     frameCount (game (startGame a)) = 0%Z /\
     score (startGame a) = 0%Z) /\
    gameState final = gameOver /\
    score final = 0%Z /\
    frameCount (game final) = 27%Z /\
    (frameCount (game final) <= 50)%Z /\
    py (player (game final)) = 486 /\
    py (player (game final)) + pheight (player (game final)) >
      soupSurfaceYAt
        (px (player (game final)) + pwidth (player (game final)) / 2)
        (frameCount (game final)) /\
    forall k : nat,
      (k < 27)%nat ->
      let s := afterFrames a rnds k in
      gameState s = playing /\ score s = 0%Z /\
      frameCount (game s) = Z.of_nat k /\
      py (player (game s)) + pheight (player (game s)) <=
        soupSurfaceYAt (px (player (game s)) + pwidth (player (game s)) / 2)
          (frameCount (game s)).
Proof.
  intros a rnds Hlen final.
  destruct (fall_terminates a rnds) as (Fs & Fsc & Ff & Fp); [lia|].
  fold final in Fs, Fsc, Ff, Fp.
  split; [simpl; unfold GAME_HEIGHT; repeat split; lra|].
  split; [exact Fs|]. split; [exact Fsc|]. split; [exact Ff|].
  split; [rewrite Ff; lia|]. split; [rewrite Fp; apply fall_at_27|].
  split.
  - rewrite Fp, Ff. exact inSoup_27.
  - intros k Hk s.
    destruct (fall_runs a rnds) with (k := k) as (Ks & Ksc & _ & Kf & Kp);
      [lia | lia |].
    fold s in Ks, Ksc, Kf, Kp.
    split; [exact Ks|]. split; [exact Ksc|]. split; [exact Kf|].
    rewrite Kp, Kf.
    pose proof (not_inSoup_early k) as N. unfold inSoup in N.
    assert (Hk' : (k <= 26)%nat) by lia. specialize (N Hk'). lra.
Qed.

(** ** The invariants of a session *)

Lemma updatePlayer_box (p : Player) :
  px (updatePlayer p) = px p /\ pwidth (updatePlayer p) = pwidth p /\
  pheight (updatePlayer p) = pheight p /\
  py (updatePlayer p) = py p + velocity (updatePlayer p).
Proof. repeat split. Qed.

Lemma updatePlayer_inv (p : Player) :
  playerInv p ->
  playerInv (updatePlayer p) /\ -9.5 <= velocity (updatePlayer p) <= 12.
Proof.
  intros (Hx & Hw & Hh & Hv).
  assert (V : -9.5 <= velocity (updatePlayer p) <= 12).
  { rewrite updatePlayer_velocity. unfold Rmin, GRAVITY, MAX_FALL_SPEED.
    destruct (Rle_dec _ _); lra. }
  unfold playerInv. destruct (updatePlayer_box p) as (-> & -> & -> & _).
  repeat split; try assumption; lra.
Qed.

Lemma spawned_pairAt (u : R) (fc : Z) :
  unit_interval u -> (0 <= fc)%Z -> spawnsAt (fc + 1) = true ->
  pairAt (fc + 1) (topFork (pipeHeightOf u)) (bottomFork (pipeHeightOf u)).
Proof.
  intros Hu Hfc Hs. apply spawnsAt_iff in Hs.
  assert (D : (fc + 1 = 140 * ((fc + 1) / 140))%Z).
  { pose proof (Z.div_mod (fc + 1) 140) as D. lia. }
  exists ((fc + 1) / 140)%Z, (pipeHeightOf u).
  pose proof (pipeHeightOf_range u Hu) as Hr.
  replace (fc + 1 - 140 * ((fc + 1) / 140))%Z with 0%Z by lia.
  unfold topFork, bottomFork. cbn [x y width height passed].
  unfold GAME_WIDTH, PIPE_WIDTH, GAME_HEIGHT, PIPE_GAP.
  repeat split; try lia; try lra.
Qed.

Lemma updateFork_pairAt (k : Z) (t b : Pipe) :
  pairAt k t b ->
  pairAt (k + 1) (updateFork 150 t) (updateFork 150 b) /\
  keepFork (updateFork 150 t) = keepFork (updateFork 150 b).
Proof.
  intros (j & h & Hj & Hk & Hh & Tx & Ty & Tw & Th & Bx & By & Bw & Bh & Tp).
  destruct (updateFork_fields 150 t) as (Ux & Uy & Uw & Uh & Up).
  destruct (updateFork_fields 150 b) as (Vx & Vy & Vw & Vh & _).
  split.
  - exists j, h. rewrite Ux, Uy, Uw, Uh, Vx, Vy, Vw, Vh, Up.
    replace (k + 1 - 140 * j)%Z with ((k - 140 * j) + 1)%Z by lia.
    rewrite plus_IZR. unfold GAME_SPEED.
    repeat split; try lia; try lra.
    intros Hp. apply orb_false_iff in Hp. destruct Hp as [Hp Hs].
    unfold scoresNow, movePipe in Hs. cbn [x y width passed] in Hs.
    rewrite Hp, Ty in Hs.
    assert (E : strict_eqb 0 0 = true) by (apply strict_eqb_true_iff; reflexivity).
    rewrite E in Hs. simpl in Hs. apply ltb_false_iff in Hs.
    unfold GAME_SPEED in Hs. lra.
  - unfold keepFork. rewrite Ux, Uw, Vx, Vw, Bx, Tw, Bw. reflexivity.
Qed.

Lemma spawnedForks_pairAt (rnd : Rand) (g : GameData) :
  rand_ok rnd -> gameInv g ->
  inPairs (pairAt (frameCount g + 1)) (spawnedForks rnd g).
Proof.
  intros Hr (_ & Hfc & Hp). unfold spawnedForks.
  apply generateForks_pairs; [|exact Hp].
  intros Hs. apply spawned_pairAt; [apply Hr | exact Hfc | exact Hs].
Qed.

Lemma stepGame_inv (rnd : Rand) (g : GameData) :
  rand_ok rnd -> gameInv g -> gameInv (stepGame rnd g).
Proof.
  intros Hr Hg. pose proof (spawnedForks_pairAt rnd g Hr Hg) as Hs.
  destruct Hg as (Hp & Hfc & _).
  split; [apply updatePlayer_inv; exact Hp|]. split; [simpl; lia|].
  rewrite stepGame_pipes. unfold translated, translatedForks.
  destruct Hp as (Hx & _). cbn [px updatePlayer]. rewrite Hx.
  cbn [frameCount stepGame].
  apply inPairs_map_filter with (P := pairAt (frameCount g + 1)); [|exact Hs].
  intros t b. apply updateFork_pairAt.
Qed.

Lemma freshGame_inv : gameInv freshGame.
Proof.
  split; [|split; [simpl; lia | constructor]].
  unfold playerInv; simpl. unfold PLAYER_SIZE. repeat split; lra.
Qed.

Lemma freshGame_safe : detectCollision freshGame = false.
Proof.
  unfold detectCollision, hitsCeiling, hitsSoup; simpl.
  pose proof (soup_band (150 + PLAYER_SIZE / 2) 0).
  unfold GAME_HEIGHT, PLAYER_SIZE in *. cmp; reflexivity.
Qed.

Lemma stepGain_nonneg (rnd : Rand) (g : GameData) : (0 <= stepGain rnd g)%Z.
Proof. unfold stepGain, scoreGain. lia. Qed.

Lemma exec_inv (c : Call) (a : App) :
  call_ok c -> appInv a -> appInv (exec c a).
Proof.
  intros Hc (Hg & Hsafe & Hsc & Hhs). destruct c as [ | | | rnd]; simpl.
  - split; [apply freshGame_inv|]. split; [intros _; apply freshGame_safe|].
    simpl. split; [lia | exact Hhs].
  - unfold jump. destruct (gameState a) eqn:E;
      try (split; [exact Hg | split; [rewrite E; exact Hsafe | tauto]]).
    split; [|split; [intros _; apply Hsafe; reflexivity | simpl; tauto]].
    destruct Hg as ((Hx & Hw & Hh & Hv) & Hfc & Hp).
    split; [|split; assumption].
    unfold playerInv; simpl. unfold JUMP_FORCE. repeat split; try assumption; lra.
  - split; [exact Hg|]. split; [discriminate | simpl; tauto].
  - unfold frame. destruct (gameState a) eqn:E;
      try (split; [exact Hg | split; [rewrite E; exact Hsafe | tauto]]).
    pose proof (stepGame_inv rnd (game a) Hc Hg) as Hg'.
    pose proof (stepGain_nonneg rnd (game a)) as Hn.
    unfold gameLoop. destruct (detectCollision (stepGame rnd (game a))) eqn:D.
    + split; [exact Hg'|]. split; [discriminate|]. simpl. lia.
    + split; [exact Hg'|]. split; [intros _; exact D|]. simpl. lia.
Qed.

Lemma reachable_inv (a : App) : reachable a -> appInv a.
Proof.
  induction 1 as [|a c Ha IH Hc].
  - split; [apply freshGame_inv|]. split; [discriminate|]. simpl. lia.
  - apply exec_inv; assumption.
Qed.

(** ** No collision on a scoring frame *)

Lemma hitsFork_false_cases (p : Player) (q : Pipe) :
  hitsFork p q = false ->
  x q + width q <= px p \/ px p + pwidth p <= x q \/
  y q + height q <= py p \/ py p + pheight p <= y q.
Proof.
  unfold hitsFork. intros H.
  repeat (apply andb_false_iff in H; destruct H as [H | H]).
  - apply ltb_false_iff in H. tauto.
  - apply gtb_false_iff in H. tauto.
  - apply ltb_false_iff in H. tauto.
  - apply gtb_false_iff in H. tauto.
Qed.

Lemma hitsFork_left (p : Player) (q : Pipe) :
  x q + width q <= px p -> hitsFork p q = false.
Proof.
  intros H. unfold hitsFork. apply ltb_false_iff in H. rewrite H. reflexivity.
Qed.

Lemma hitsFork_right (p : Player) (q : Pipe) :
  px p + pwidth p <= x q -> hitsFork p q = false.
Proof.
  intros H. unfold hitsFork. apply gtb_false_iff in H. rewrite H.
  rewrite andb_false_r. reflexivity.
Qed.

Lemma detectCollision_false (g : GameData) :
  detectCollision g = false ->
  0 <= py (player g) /\
  py (player g) + pheight (player g) <=
    soupSurfaceYAt (px (player g) + pwidth (player g) / 2) (frameCount g) /\
  forall q, In q (pipes g) -> hitsFork (player g) q = false.
Proof.
  unfold detectCollision, hitsCeiling, hitsSoup. intros H.
  destruct (ltb (py (player g)) 0) eqn:C; [discriminate|].
  destruct (gtb _ _) eqn:S in H; [discriminate|].
  apply ltb_false_iff in C. apply gtb_false_iff in S.
  split; [exact C|]. split; [exact S|].
  intros q Hq. destruct (hitsFork (player g) q) eqn:E; [|reflexivity].
  assert (X : existsb (hitsFork (player g)) (pipes g) = true).
  { apply existsb_exists. exists q. split; assumption. }
  congruence.
Qed.

Lemma detectCollision_false_intro (g : GameData) :
  0 <= py (player g) ->
  py (player g) + pheight (player g) <=
    soupSurfaceYAt (px (player g) + pwidth (player g) / 2) (frameCount g) ->
  (forall q, In q (pipes g) -> hitsFork (player g) q = false) ->
  detectCollision g = false.
Proof.
  intros C S F. unfold detectCollision, hitsCeiling, hitsSoup.
  apply ltb_false_iff in C. apply gtb_false_iff in S. rewrite C, S.
  destruct (existsb _ _) eqn:E; [|reflexivity].
  apply existsb_exists in E. destruct E as (q & Hq & Hh).
  rewrite (F q Hq) in Hh. discriminate.
Qed.

(** The only translation count at which a column can score. *)
Lemma crossing_count (K : Z) :
  150 <= 800 - 3.9 * IZR K + 80 ->
  800 - 3.9 * IZR K - 3.9 + 80 < 150 ->
  K = 187%Z.
Proof.
  intros H1 H2.
  destruct (Z_le_gt_dec K 186) as [L | G].
  - apply IZR_le in L. lra.
  - destruct (Z_le_gt_dec 188 K) as [L' | G'].
    + apply IZR_le in L'. lra.
    + lia.
Qed.

Lemma stepGain_pos_pipe (rnd : Rand) (g : GameData) :
  stepGain rnd g <> 0%Z ->
  exists q, In q (spawnedForks rnd g) /\
    scoresNow (px (player g)) (movePipe q) = true.
Proof.
  unfold stepGain, scoreGain. cbn [px updatePlayer].
  intros H.
  destruct (filter (fun pipe => scoresNow (px (player g)) (movePipe pipe))
              (spawnedForks rnd g)) as [|q rest] eqn:E; [easy|].
  assert (Hq : In q (q :: rest)) by (left; reflexivity).
  rewrite <- E in Hq. apply filter_In in Hq. exists q. exact Hq.
Qed.

Lemma spawnedForks_In (rnd : Rand) (g : GameData) (q : Pipe) :
  In q (spawnedForks rnd g) -> In q (pipes g) \/ x q = GAME_WIDTH.
Proof.
  unfold spawnedForks, generateForks. destruct (spawnsAt _); [|tauto].
  intros H. apply in_app_or in H. destruct H as [H | [<- | [<- | []]]]; tauto.
Qed.

(** On a frame that scores, nothing collides: the pipe that scores was
    level with the player a frame earlier, so the player was inside its gap,
    far from ceiling and soup, and every other column is far away. *)
Lemma scoring_frame_is_quiet (rnd : Rand) (g : GameData) :
  rand_ok rnd -> gameInv g -> detectCollision g = false ->
  stepGain rnd g <> 0%Z ->
  detectCollision (stepGame rnd g) = false.
Proof.
  intros Hr Hg Hsafe Hgain.
  pose proof (spawnedForks_pairAt rnd g Hr Hg) as Hpairs.
  destruct Hg as (Hp & Hfc & _).
  destruct (updatePlayer_inv _ Hp) as [Hp' Hv'].
  destruct Hp as (Px & Pw & Ph & Pv).
  destruct (detectCollision_false g Hsafe) as (Hceil & Hsoup & Hforks).
  destruct (stepGain_pos_pipe rnd g Hgain) as (q & Hq & Hs).
  rewrite Px in Hs. unfold scoresNow, movePipe in Hs.
  cbn [x y width passed] in Hs.
  apply andb_true_iff in Hs. destruct Hs as [Hs Hcross].
  apply andb_true_iff in Hs. destruct Hs as [Hflag Htop].
  apply negb_true_iff in Hflag. apply strict_eqb_true_iff in Htop.
  apply ltb_true_iff in Hcross.
  destruct (inPairs_In _ _ q Hpairs Hq)
    as (t & b & (j & h & Hj & Hk & Hh & Tx & Ty & Tw & Th & Bx & By & Bw & Bh & Tp)
        & Ht & Hb & Hor).
  assert (Eq : q = t).
  { destruct Hor as [E | E]; [exact E|]. subst q. rewrite By in Htop. lra. }
  subst q. rewrite Tw in Hcross. specialize (Tp Hflag).
  unfold GAME_SPEED in Hcross. rewrite Tx in Tp, Hcross.
  pose proof (crossing_count _ Tp Hcross) as HK.
  rewrite HK in Tx.
  (* the pair is an old one, and the player was in its gap *)
  assert (Ht' : In t (pipes g)).
  { destruct (spawnedForks_In rnd g t Ht) as [H | H]; [exact H|].
    unfold GAME_WIDTH in H. lra. }
  assert (Hb' : In b (pipes g)).
  { destruct (spawnedForks_In rnd g b Hb) as [H | H]; [exact H|].
    unfold GAME_WIDTH in H. lra. }
  pose proof (soup_band (px (player g) + pwidth (player g) / 2) (frameCount g))
    as Hband.
  assert (Hgap : h <= py (player g) /\ py (player g) + 40 <= h + 280).
  { pose proof (hitsFork_false_cases _ _ (Hforks t Ht')) as Ct.
    pose proof (hitsFork_false_cases _ _ (Hforks b Hb')) as Cb.
    rewrite Px, Pw, Ph in *. rewrite Tx, Ty, Tw, Th in Ct.
    rewrite Bx, Tx, By, Bw, Bh in Cb. lra. }
  (* the new frame *)
  destruct Hp' as (Px' & Pw' & Ph' & _).
  destruct (updatePlayer_box (player g)) as (_ & _ & _ & Py').
  apply detectCollision_false_intro; cbn [player frameCount stepGame].
  - rewrite Py'. lra.
  - pose proof (soup_band (px (updatePlayer (player g)) +
                           pwidth (updatePlayer (player g)) / 2)
                          (frameCount g + 1)) as Hband'.
    rewrite Py', Ph'. lra.
  - intros q' Hq'. rewrite stepGame_pipes in Hq'.
    apply filter_In in Hq'. destruct Hq' as [Hq' _].
    unfold translated, translatedForks in Hq'. apply in_map_iff in Hq'.
    destruct Hq' as (q0 & <- & Hq0).
    destruct (updateFork_fields (px (updatePlayer (player g))) q0)
      as (Ux & _ & Uw & _).
    destruct (inPairs_In _ _ q0 Hpairs Hq0)
      as (t0 & b0 & (j0 & h0 & _ & _ & _ & Tx0 & _ & Tw0 & _ & Bx0 & _ & Bw0 & _)
          & _ & _ & Hor0).
    assert (X0 : x q0 = 800 - 3.9 * IZR (frameCount g + 1 - 140 * j0)
                 /\ width q0 = 80).
    { destruct Hor0 as [-> | ->]; split; congruence. }
    destruct X0 as [X0 W0].
    destruct (Z_le_gt_dec j0 (j - 1)) as [L | G].
    + apply hitsFork_left. rewrite Ux, Uw, X0, W0, Px'.
      assert (I : (327 <= frameCount g + 1 - 140 * j0)%Z) by lia.
      apply IZR_le in I. unfold GAME_SPEED. lra.
    + destruct (Z.eq_dec j0 j) as [-> | N].
      * apply hitsFork_left. rewrite Ux, Uw, X0, W0, Px', HK.
        unfold GAME_SPEED. lra.
      * apply hitsFork_right. rewrite Ux, X0, Px', Pw'.
        assert (I : (frameCount g + 1 - 140 * j0 <= 47)%Z) by lia.
        apply IZR_le in I. unfold GAME_SPEED. lra.
Qed.

Lemma no_score_on_collision (rnd : Rand) (g : GameData) :
  rand_ok rnd -> gameInv g -> detectCollision g = false ->
  detectCollision (stepGame rnd g) = true ->
  stepGain rnd g = 0%Z.
Proof.
  intros Hr Hg Hsafe Hc.
  destruct (Z.eq_dec (stepGain rnd g) 0) as [E | N]; [exact E|].
  rewrite (scoring_frame_is_quiet rnd g Hr Hg Hsafe N) in Hc. discriminate.
Qed.

(** ** The high score *)

Lemma gameLoop_phase (rnd : Rand) (a : App) :
  gameState (gameLoop rnd a) =
    if detectCollision (stepGame rnd (game a)) then gameOver else gameState a.
Proof. unfold gameLoop. destruct (detectCollision _); reflexivity. Qed.

Lemma gameLoop_highScore (rnd : Rand) (a : App) :
  highScore (gameLoop rnd a) =
    if detectCollision (stepGame rnd (game a))
    then Z.max (highScore a) (score a) else highScore a.
Proof. unfold gameLoop. destruct (detectCollision _); reflexivity. Qed.

(** The frame that ends a session queues no score update, so the score
    [endGame] has closed over is the score of the session. *)
Lemma terminal_frame (rnd : Rand) (a : App) :
  reachable a -> rand_ok rnd -> gameState a = playing ->
  gameState (gameLoop rnd a) = gameOver ->
  score (gameLoop rnd a) = score a /\
  highScore (gameLoop rnd a) = Z.max (highScore a) (score (gameLoop rnd a)).
Proof.
  intros Ha Hr Hp Hover.
  destruct (reachable_inv a Ha) as (Hg & Hsafe & _).
  rewrite gameLoop_phase in Hover.
  destruct (detectCollision (stepGame rnd (game a))) eqn:D;
    [|congruence].
  pose proof (no_score_on_collision rnd (game a) Hr Hg (Hsafe Hp) D) as G.
  rewrite gameLoop_score, gameLoop_highScore, D, G, Z.add_0_r.
  split; reflexivity.
Qed.

Lemma exec_highScore_mono (c : Call) (a : App) :
  (highScore a <= highScore (exec c a))%Z.
Proof.
  destruct c as [ | | | rnd]; simpl; try lia.
  - unfold jump. destruct (gameState a); simpl; lia.
  - unfold frame. destruct (gameState a); try lia.
    rewrite gameLoop_highScore. destruct (detectCollision _); lia.
Qed.

Lemma inSession_ok (c : Call) : inSession c -> call_ok c.
Proof. destruct c; simpl; tauto. Qed.

Lemma inSession_when_over (c : Call) (b : App) :
  inSession c -> gameState b = gameOver -> exec c b = b.
Proof.
  intros Hc Hb. destruct c as [ | | | rnd]; simpl in *; try tauto.
  - unfold jump. rewrite Hb. reflexivity.
  - unfold frame. rewrite Hb. reflexivity.
Qed.

Lemma run_when_over (cs : list Call) (b : App) :
  Forall inSession cs -> gameState b = gameOver -> run cs b = b.
Proof.
  intros Hcs Hb. induction Hcs as [|c cs Hc _ IH]; [reflexivity|].
  change (run (c :: cs) b) with (run cs (exec c b)).
  rewrite (inSession_when_over c b Hc Hb). exact IH.
Qed.

Lemma reachable_run (cs : list Call) (a : App) :
  reachable a -> Forall call_ok cs -> reachable (run cs a).
Proof.
  intros Ha Hcs. revert a Ha.
  induction Hcs as [|c cs Hc _ IH]; intros a Ha; [exact Ha|].
  change (run (c :: cs) a) with (run cs (exec c a)).
  apply IH. constructor; assumption.
Qed.

(** A session that ends leaves the larger of the old high score and its own
    score. *)
Lemma session_highScore (cs : list Call) (b : App) :
  reachable b -> gameState b = playing -> Forall inSession cs ->
  gameState (run cs b) = gameOver ->
  highScore (run cs b) = Z.max (highScore b) (score (run cs b)).
Proof.
  intros Hb Hp Hcs. revert b Hb Hp.
  induction Hcs as [|c cs Hc Hcs IH]; intros b Hb Hp Hover.
  - simpl in Hover. congruence.
  - change (run (c :: cs) b) with (run cs (exec c b)) in *.
    assert (Hb' : reachable (exec c b))
      by (constructor; [exact Hb | apply inSession_ok; exact Hc]).
    destruct c as [ | | | rnd]; simpl in Hc; try tauto.
    + assert (E : gameState (exec CJump b) = playing
                  /\ highScore (exec CJump b) = highScore b).
      { simpl. unfold jump. rewrite Hp. split; reflexivity. }
      destruct E as [E1 E2]. rewrite <- E2. apply IH; assumption.
    + cbn [exec] in *. unfold frame in *. rewrite Hp in *.
      destruct (gameState (gameLoop rnd b)) eqn:E.
      * rewrite gameLoop_phase in E.
        destruct (detectCollision _); congruence.
      * assert (E2 : highScore (gameLoop rnd b) = highScore b).
        { rewrite gameLoop_phase in E. rewrite gameLoop_highScore.
          destruct (detectCollision _); [discriminate | reflexivity]. }
        rewrite <- E2. apply IH; assumption.
      * rewrite (run_when_over cs _ Hcs E).
        apply terminal_frame; assumption.
Qed.

(** C7. The call that takes a session from [playing] to [gameOver], a
    frame that collides, leaves the score as it was and [highScore] equal
    to the larger of the old high score and that score.  No call ever lowers [highScore].  After two
    sessions in a row that both end, [highScore] is the largest of its old
    value and the two scores: the larger of the two scores when it was 0. *)
Theorem highScore_is_max_of_session_scores :
  (forall (a : App) (c : Call),
     reachable a -> call_ok c ->
     gameState a = playing -> gameState (exec c a) = gameOver ->
     score (exec c a) = score a /\
     highScore (exec c a) = Z.max (highScore a) (score (exec c a))) /\
  (forall (a : App) (c : Call), (highScore a <= highScore (exec c a))%Z) /\
  (forall (a : App) (cs1 cs2 : list Call),
     reachable a -> Forall inSession cs1 -> Forall inSession cs2 ->
     let a1 := run cs1 (startGame a) in
     let a2 := run cs2 (startGame a1) in
     gameState a1 = gameOver -> gameState a2 = gameOver ->
     highScore a1 = Z.max (highScore a) (score a1) /\
     highScore a2 = Z.max (highScore a) (Z.max (score a1) (score a2)) /\
     (highScore a = 0%Z -> highScore a2 = Z.max (score a1) (score a2))).
Proof.
  split; [|split].
  - intros a c Ha Hc Hp Hover. destruct c as [ | | | rnd]; simpl in *.
    + discriminate.
    + unfold jump in Hover. rewrite Hp in Hover. simpl in Hover. congruence.
    + discriminate.
    + unfold frame in *. rewrite Hp in *. apply terminal_frame; assumption.
  - intros a c. apply exec_highScore_mono.
  - intros a cs1 cs2 Ha H1 H2 a1 a2 O1 O2.
    assert (R0 : reachable (startGame a)).
    { apply (reach_exec a CStart Ha I). }
    assert (R1 : reachable a1).
    { apply reachable_run; [exact R0|].
      apply Forall_impl with (P := inSession); [apply inSession_ok | exact H1]. }
    assert (R1' : reachable (startGame a1)).
    { apply (reach_exec a1 CStart R1 I). }
    pose proof (session_highScore cs1 (startGame a) R0 eq_refl H1 O1) as E1.
    pose proof (session_highScore cs2 (startGame a1) R1' eq_refl H2 O2) as E2.
    fold a1 in E1. fold a2 in E2. cbn [startGame setGameState resetGame highScore] in E1, E2.
    destruct (reachable_inv a1 R1) as (_ & _ & S1 & _).
    split; [exact E1|]. split; [lia|]. intros Z0. lia.
Qed.

(** ** A session that ends at the ceiling *)

Lemma noRandom_ok : rand_ok noRandom.
Proof. unfold rand_ok, unit_interval; simpl. repeat split; lra. Qed.

Lemma jump_frame_game (rnd : Rand) (b : App) (k : nat) :
  rising k b -> (k < 139)%nat ->
  gameState (exec CJump b) = playing /\
  pipes (stepGame rnd (game (exec CJump b))) = [] /\
  frameCount (stepGame rnd (game (exec CJump b))) = Z.of_nat (S k) /\
  px (player (stepGame rnd (game (exec CJump b)))) = 150 /\
  pwidth (player (stepGame rnd (game (exec CJump b)))) = 40 /\
  pheight (player (stepGame rnd (game (exec CJump b)))) = 40 /\
  py (player (stepGame rnd (game (exec CJump b)))) = 300 - 9.5 * INR (S k).
Proof.
  intros (Hs & Hp & Hf & Hx & Hw & Hh & Hy) Hk.
  cbn [exec]. unfold jump. rewrite Hs. cbn [gameState game].
  split; [reflexivity|].
  unfold stepGame, spawnedForks, generateForks.
  cbn [player pipes frameCount bubbles].
  rewrite Hf, Hp, (spawnsAt_early k Hk).
  split; [reflexivity|]. split; [lia|].
  unfold updatePlayer, set_velocity. cbn [px py pwidth pheight velocity].
  assert (E : gtb (JUMP_FORCE + GRAVITY) MAX_FALL_SPEED = false).
  { apply gtb_false_iff. unfold JUMP_FORCE, GRAVITY, MAX_FALL_SPEED. lra. }
  rewrite E, Hx, Hw, Hh, Hy, S_INR. unfold JUMP_FORCE, GRAVITY.
  repeat split; lra.
Qed.

Lemma rising_round (b : App) (k : nat) :
  rising k b -> (k < 31)%nat ->
  rising (S k) (exec (CFrame noRandom) (exec CJump b)).
Proof.
  intros Hr Hk.
  destruct (jump_frame_game noRandom b k Hr) as (Js & Jp & Jf & Jx & Jw & Jh & Jy);
    [lia|].
  cbn [exec] in *. unfold frame. rewrite Js.
  assert (B : INR (S k) <= 31).
  { replace 31 with (INR 31) by (simpl; lra). apply le_INR. lia. }
  assert (D : detectCollision (stepGame noRandom (game (jump b))) = false).
  { apply detectCollision_false_intro.
    - rewrite Jy. lra.
    - rewrite Jy, Jh.
      pose proof (soup_band
        (px (player (stepGame noRandom (game (jump b)))) +
         pwidth (player (stepGame noRandom (game (jump b)))) / 2)
        (frameCount (stepGame noRandom (game (jump b))))).
      pose proof (pos_INR (S k)). lra.
    - rewrite Jp. intros q []. }
  unfold rising. rewrite gameLoop_phase, gameLoop_game, D.
  repeat split; assumption.
Qed.

Lemma rising_last (b : App) :
  rising 31 b ->
  gameState (exec CJump b) = playing /\
  gameState (exec (CFrame noRandom) (exec CJump b)) = gameOver.
Proof.
  intros Hr.
  destruct (jump_frame_game noRandom b 31 Hr) as (Js & _ & _ & _ & _ & _ & Jy);
    [lia|].
  split; [exact Js|].
  cbn [exec] in *. unfold frame. rewrite Js, gameLoop_phase.
  unfold detectCollision, hitsCeiling.
  assert (E : ltb (py (player (stepGame noRandom (game (jump b))))) 0 = true).
  { apply ltb_true_iff. rewrite Jy.
    replace (INR 32) with 32 by (simpl; lra). lra. }
  rewrite E. reflexivity.
Qed.

Lemma rising_start (a : App) : rising 0 (startGame a).
Proof.
  unfold rising; simpl. unfold GAME_HEIGHT, PLAYER_SIZE.
  repeat split; lra.
Qed.

Lemma rise_run (k j : nat) (b : App) :
  rising j b -> (j + k <= 31)%nat -> rising (j + k) (run (riseCalls k) b).
Proof.
  revert j b. induction k as [|k IH]; intros j b Hr Hk.
  - rewrite Nat.add_0_r. exact Hr.
  - change (run (riseCalls (S k)) b)
      with (run (riseCalls k) (exec (CFrame noRandom) (exec CJump b))).
    replace (j + S k)%nat with (S j + k)%nat by lia.
    apply IH; [apply rising_round; [exact Hr | lia] | lia].
Qed.

Lemma riseCalls_ok (k : nat) : Forall call_ok (riseCalls k).
Proof.
  induction k as [|k IH]; [constructor|].
  change (riseCalls (S k)) with (CJump :: CFrame noRandom :: riseCalls k).
  constructor; [exact I|]. constructor; [exact noRandom_ok | exact IH].
Qed.

Lemma riseCalls_inSession (k : nat) : Forall inSession (riseCalls k).
Proof.
  induction k as [|k IH]; [constructor|].
  change (riseCalls (S k)) with (CJump :: CFrame noRandom :: riseCalls k).
  constructor; [exact I|]. constructor; [exact noRandom_ok | exact IH].
Qed.

Lemma riseCalls_snoc (k : nat) :
  riseCalls (S k) = riseCalls k ++ [CJump; CFrame noRandom].
Proof.
  unfold riseCalls. replace (S k) with (k + 1)%nat by lia.
  rewrite repeat_app, concat_app. reflexivity.
Qed.

Lemma run_one (c : Call) (b : App) : run [c] b = exec c b.
Proof. reflexivity. Qed.

Lemma run_two (c d : Call) (b : App) : run [c; d] b = exec d (exec c b).
Proof. reflexivity. Qed.

(** Thirty-two jumps, one before each frame, end the session at the
    ceiling. *)
Lemma rise_ends (a : App) :
  gameState (run (riseCalls 31 ++ [CJump]) (startGame a)) = playing /\
  gameState (run (riseCalls 32) (startGame a)) = gameOver /\
  run (riseCalls 32) (startGame a) =
    exec (CFrame noRandom) (run (riseCalls 31 ++ [CJump]) (startGame a)).
Proof.
  assert (R : rising 31 (run (riseCalls 31) (startGame a))).
  { apply (rise_run 31 0); [apply rising_start | lia]. }
  destruct (rising_last _ R) as [L1 L2].
  rewrite (riseCalls_snoc 31).
  rewrite (run_app (riseCalls 31) [CJump]).
  rewrite (run_app (riseCalls 31) [CJump; CFrame noRandom]).
  rewrite run_one, run_two.
  split; [exact L1|]. split; [exact L2 | reflexivity].
Qed.

(** ** A session kept in the air *)

Lemma arc_floor (n : nat) : 0 <= (INR n - 19) * (INR n - 20).
Proof.
  destruct (Nat.le_gt_cases n 19) as [L | G].
  - apply le_INR in L. replace (INR 19) with 19 in L by (simpl; lra). nra.
  - assert (G' : (20 <= n)%nat) by lia.
    apply le_INR in G'. replace (INR 20) with 20 in G' by (simpl; lra). nra.
Qed.

Lemma hopping_jump (fc : Z) (a : App) :
  gameState a = playing -> frameCount (game a) = fc -> pipes (game a) = [] ->
  px (player (game a)) = 150 -> pwidth (player (game a)) = 40 ->
  pheight (player (game a)) = 40 -> py (player (game a)) = 300 ->
  hopping 0 fc (exec CJump a).
Proof.
  intros Hs Hf Hp Hx Hw Hh Hy. cbn [exec]. unfold jump. rewrite Hs.
  unfold hopping.
  cbn [gameState game frameCount pipes player set_velocity px py pwidth
       pheight velocity INR].
  unfold JUMP_FORCE. repeat split; try assumption; lra.
Qed.

Lemma hopping_frame (rnd : Rand) (n : nat) (fc : Z) (a : App) :
  hopping n fc a -> (n <= 38)%nat -> (0 <= fc)%Z -> (fc + 1 < 140)%Z ->
  hopping (S n) (fc + 1) (exec (CFrame rnd) a).
Proof.
  intros (Hs & Hf & Hp & Hx & Hw & Hh & Hv & Hy) Hn H0 Hfc.
  assert (B0 : 0 <= INR n) by apply pos_INR.
  assert (B1 : INR n <= 38).
  { replace 38 with (INR 38) by (simpl; lra). apply le_INR. exact Hn. }
  destruct (updatePlayer_free (player (game a))) as [Uv Uy].
  { rewrite Hv. unfold GRAVITY, MAX_FALL_SPEED. lra. }
  destruct (updatePlayer_box (player (game a))) as (Ux & Uw & Uh & _).
  unfold GRAVITY in Uv, Uy.
  assert (P : pipes (stepGame rnd (game a)) = []).
  { unfold stepGame, spawnedForks, generateForks. cbn [pipes].
    assert (N : spawnsAt (frameCount (game a) + 1) = false).
    { unfold spawnsAt, SPAWN_INTERVAL. apply Z.eqb_neq.
      rewrite Z.mod_small; lia. }
    rewrite N, Hp. reflexivity. }
  assert (Y : 205 <= py (updatePlayer (player (game a))) <= 300).
  { rewrite Uy, Hv, Hy. pose proof (arc_floor (S n)) as F.
    rewrite S_INR in F. split; nra. }
  assert (C : detectCollision (stepGame rnd (game a)) = false).
  { apply detectCollision_false_intro.
    - cbn [player stepGame]. lra.
    - cbn [player stepGame frameCount]. rewrite Uh, Hh.
      pose proof (soup_band
        (px (updatePlayer (player (game a))) +
         pwidth (updatePlayer (player (game a))) / 2)
        (frameCount (game a) + 1)).
      lra.
    - rewrite P. intros q []. }
  cbn [exec]. unfold frame. rewrite Hs. unfold hopping.
  rewrite gameLoop_phase, C, gameLoop_game, P.
  cbn [player frameCount stepGame].
  rewrite Ux, Uw, Uh, Uv, Uy, Hv, Hy, Hf, S_INR.
  repeat split; try assumption; try lra.
Qed.

Lemma hopping_frames (k : nat) :
  forall (n : nat) (fc : Z) (a : App),
    hopping n fc a -> (n + k <= 39)%nat -> (0 <= fc)%Z ->
    (fc + Z.of_nat k < 140)%Z ->
    hopping (n + k) (fc + Z.of_nat k) (run (repeat (CFrame noRandom) k) a).
Proof.
  induction k as [|k IH]; intros n fc a H Hn H0 Hfc.
  - rewrite Nat.add_0_r. change (Z.of_nat 0) with 0%Z. rewrite Z.add_0_r.
    exact H.
  - change (run (repeat (CFrame noRandom) (S k)) a)
      with (run (repeat (CFrame noRandom) k) (exec (CFrame noRandom) a)).
    replace (n + S k)%nat with (S n + k)%nat by lia.
    replace (fc + Z.of_nat (S k))%Z with (fc + 1 + Z.of_nat k)%Z by lia.
    apply IH; try lia.
    apply hopping_frame; [exact H | lia | lia | lia].
Qed.

Lemma hop_run (n : nat) (fc : Z) (a : App) :
  gameState a = playing -> frameCount (game a) = fc -> pipes (game a) = [] ->
  px (player (game a)) = 150 -> pwidth (player (game a)) = 40 ->
  pheight (player (game a)) = 40 -> py (player (game a)) = 300 ->
  (n <= 39)%nat -> (0 <= fc)%Z -> (fc + Z.of_nat n < 140)%Z ->
  hopping n (fc + Z.of_nat n) (run (hop n) a).
Proof.
  intros Hs Hf Hp Hx Hw Hh Hy Hn H0 Hfc.
  change (run (hop n) a)
    with (run (repeat (CFrame noRandom) n) (exec CJump a)).
  apply (hopping_frames n 0 fc (exec CJump a)); try assumption.
  apply hopping_jump; assumption.
Qed.

Lemma hop_again (n : nat) (fc : Z) (a : App) :
  hopping 39 fc a ->
  (n <= 39)%nat -> (0 <= fc)%Z -> (fc + Z.of_nat n < 140)%Z ->
  hopping n (fc + Z.of_nat n) (run (hop n) a).
Proof.
  intros (Hs & Hf & Hp & Hx & Hw & Hh & _ & Hy) Hn H0 Hfc.
  apply hop_run; try assumption.
  rewrite Hy. replace (INR 39) with 39 by (simpl; lra). lra.
Qed.

Lemma atFrame139_hopping : hopping 22 139 atFrame139.
Proof.
  unfold atFrame139, cruise. rewrite !run_app.
  assert (H1 : hopping 39 39 (run (hop 39) (startGame initialApp))).
  { apply (hop_run 39 0 (startGame initialApp)); try reflexivity; try lia.
    simpl. unfold GAME_HEIGHT. lra. }
  pose proof (hop_again 39 39 _ H1) as H2.
  change (39 + Z.of_nat 39)%Z with 78%Z in H2.
  assert (H2' := H2 ltac:(lia) ltac:(lia) ltac:(lia)).
  pose proof (hop_again 39 78 _ H2') as H3.
  change (78 + Z.of_nat 39)%Z with 117%Z in H3.
  assert (H3' := H3 ltac:(lia) ltac:(lia) ltac:(lia)).
  pose proof (hop_again 22 117 _ H3') as H4.
  change (117 + Z.of_nat 22)%Z with 139%Z in H4.
  apply H4; lia.
Qed.

Lemma hop_ok (n : nat) : Forall call_ok (hop n).
Proof.
  unfold hop. constructor; [exact I|].
  induction n as [|n IH]; [constructor|].
  cbn [repeat]. constructor; [exact noRandom_ok | exact IH].
Qed.

Lemma atFrame139_reachable : reachable atFrame139.
Proof.
  unfold atFrame139, cruise. apply reachable_run.
  - apply (reach_exec initialApp CStart reach_init I).
  - repeat (apply Forall_app; split); apply hop_ok.
Qed.

Lemma updateFork_far (playerX : R) (q : Pipe) :
  playerX <= x q - GAME_SPEED + width q -> updateFork playerX q = movePipe q.
Proof.
  intros H. unfold updateFork, scoresNow.
  assert (L : ltb (x (movePipe q) + width (movePipe q)) playerX = false).
  { apply ltb_false_iff. cbn [movePipe x width]. exact H. }
  rewrite L, andb_false_r. reflexivity.
Qed.

(** The first frame that spawns: the session is still running, and the
    world holds one pair, moved once. *)
Lemma atFrame140_state :
  reachable atFrame140 /\ gameState atFrame140 = playing /\
  frameCount (game atFrame140) = 140%Z /\
  px (player (game atFrame140)) = 150 /\
  pipes (game atFrame140) =
    [movePipe (topFork (pipeHeightOf 0));
     movePipe (bottomFork (pipeHeightOf 0))].
Proof.
  pose proof atFrame139_hopping as (Hs & Hf & Hp & Hx & Hw & Hh & Hv & Hy).
  pose proof atFrame139_reachable as R.
  replace (INR 22) with 22 in Hv, Hy by (simpl; lra).
  unfold atFrame140. generalize dependent atFrame139. intros a Hs Hf Hp Hx Hw Hh Hv Hy R.
  destruct (updatePlayer_free (player (game a))) as [Uv Uy].
  { rewrite Hv. unfold GRAVITY, MAX_FALL_SPEED. lra. }
  destruct (updatePlayer_box (player (game a))) as (Ux & Uw & Uh & _).
  unfold GRAVITY in Uv, Uy.
  assert (P : pipes (stepGame noRandom (game a)) =
              [movePipe (topFork (pipeHeightOf 0));
               movePipe (bottomFork (pipeHeightOf 0))]).
  { unfold stepGame, spawnedForks, generateForks. cbn [pipes].
    rewrite Hf, Hp, Ux, Hx.
    change (spawnsAt (139 + 1)) with true. cbn [app rnd_pipe noRandom].
    unfold updateForks, translatedForks. cbn [map].
    rewrite !updateFork_far
      by (cbn [topFork bottomFork x width];
          unfold GAME_WIDTH, GAME_SPEED, PIPE_WIDTH; lra).
    cbn [filter].
    assert (K1 : keepFork (movePipe (topFork (pipeHeightOf 0))) = true).
    { apply keepFork_true_iff. cbn [movePipe topFork x width].
      unfold GAME_WIDTH, GAME_SPEED, PIPE_WIDTH. lra. }
    assert (K2 : keepFork (movePipe (bottomFork (pipeHeightOf 0))) = true).
    { apply keepFork_true_iff. cbn [movePipe bottomFork x width].
      unfold GAME_WIDTH, GAME_SPEED, PIPE_WIDTH. lra. }
    rewrite K1, K2. reflexivity. }
  assert (C : detectCollision (stepGame noRandom (game a)) = false).
  { apply detectCollision_false_intro.
    - cbn [player stepGame]. rewrite Uy, Hv, Hy. lra.
    - cbn [player stepGame frameCount]. rewrite Uh, Hh.
      pose proof (soup_band
        (px (updatePlayer (player (game a))) +
         pwidth (updatePlayer (player (game a))) / 2)
        (frameCount (game a) + 1)).
      rewrite Uy, Hv, Hy. lra.
    - rewrite P. cbn [player stepGame].
      intros q [<- | [<- | []]]; apply hitsFork_right; rewrite Ux, Uw, Hx, Hw;
        cbn [movePipe topFork bottomFork x];
        unfold GAME_WIDTH, GAME_SPEED; lra. }
  split; [apply (reach_exec a (CFrame noRandom) R noRandom_ok)|].
  cbn [exec]. unfold frame. rewrite Hs.
  rewrite gameLoop_phase, C, gameLoop_game, P.
  cbn [player frameCount stepGame]. rewrite Ux, Hx, Hf.
  repeat split. exact Hs.
Qed.

(** ** The theorems at concrete inputs *)

Lemma forks_stay_paired_witness :
  reachable atFrame140 /\
  pipes (game atFrame140) =
    [movePipe (topFork (pipeHeightOf 0));
     movePipe (bottomFork (pipeHeightOf 0))] /\
  inPairs sameColumn (pipes (game atFrame140)) /\
  pipes (game (gameLoop noRandom atFrame140)) =
    filter keepFork
      (map (updateFork (px (player (game atFrame140))))
           (spawnedForks noRandom (game atFrame140))) /\
  x (updateFork 150 (movePipe (topFork (pipeHeightOf 0)))) =
    x (movePipe (topFork (pipeHeightOf 0))) - 3.9.
Proof.
  destruct atFrame140_state as (R & _ & _ & _ & P).
  destruct forks_stay_paired as (_ & T2 & T3 & T4).
  split; [exact R|]. split; [exact P|]. split; [|split].
  - exact (proj1 (T3 atFrame140 R)).
  - exact (proj1 (T4 noRandom atFrame140)).
  - assert (C : sameColumn (movePipe (topFork (pipeHeightOf 0)))
                  (movePipe (bottomFork (pipeHeightOf 0))))
      by (repeat split).
    exact (proj1 (T2 150 _ _ C)).
Defined.


Lemma toMenu_sets_menu_from_any_phase_witness :
  toMenu (startGame initialApp) = mkApp menu 0 0 freshGame /\
  gameState (handle ClickChangePeanut (startGame initialApp)) <> menu.
Proof.
  destruct toMenu_sets_menu_from_any_phase as (T1 & _ & T3).
  split; [apply (T1 (startGame initialApp))|].
  apply (T3 ClickChangePeanut (startGame initialApp)). reflexivity.
Defined.

Lemma removal_iff_right_edge_left_of_world_witness :
  0 <= px (player leavingGame) /\
  existsb (hitsFork (player (stepGame noRandom leavingGame)))
    (pipes (stepGame noRandom leavingGame)) =
  existsb (hitsFork (player (stepGame noRandom leavingGame)))
    (translated noRandom leavingGame).
Proof.
  assert (H : 0 <= px (player leavingGame)) by (simpl; lra).
  split; [exact H|].
  destruct (removal_iff_right_edge_left_of_world noRandom leavingGame)
    as (_ & _ & _ & T4).
  exact (T4 H).
Defined.

Lemma score_once_per_pair_witness :
  scoresNow 150 (movePipe (track 150 187 (topFork 150))) = true /\
  scoreCount 150 187 (topFork 150) = 0%nat /\
  scoreCount 150 188 (topFork 150) = 1%nat /\
  scoreCount 150 225 (topFork 150) = 1%nat.
Proof.
  destruct score_once_per_pair as (_ & _ & _ & _ & _ & T4 & _).
  destruct (T4 150 187%nat) as [E1 E2].
  destruct (T4 150 188%nat) as [_ E3].
  destruct (T4 150 225%nat) as [_ E4].
  rewrite E1, E2, E3, E4. repeat split.
Defined.

Lemma velocity_never_exceeds_max_fall_speed_witness :
  velocity (updatePlayer (mkPlayer 150 300 40 40 (-1000))) = -1000 + GRAVITY /\
  velocity (updatePlayer (mkPlayer 150 300 40 40 11.8)) <= MAX_FALL_SPEED /\
  velocity (player (game (jump (startGame initialApp)))) = JUMP_FORCE.
Proof.
  destruct velocity_never_exceeds_max_fall_speed
    as (_ & _ & T3 & T4 & T5 & _).
  split; [|split].
  - apply (T4 (mkPlayer 150 300 40 40 (-1000))).
    simpl. unfold GRAVITY, MAX_FALL_SPEED. lra.
  - apply (T3 (mkPlayer 150 300 40 40 11.8)).
  - apply (T5 (startGame initialApp)). reflexivity.
Defined.

Lemma soupSurfaceYAt_pure_and_bounded_witness :
  SOUP_BASE_Y - 16 <= soupSurfaceYAt 170 27 <= SOUP_BASE_Y + 16.
Proof.
  destruct (soupSurfaceYAt_pure_and_bounded 170 27) as (_ & _ & _ & B).
  exact B.
Defined.

Lemma bubbles_pop_on_their_first_frame_witness :
  rand_ok noRandom /\
  keepBubble 12 (moveBubble 12 (newBubble noRandom)) = false /\
  bubbles (game (exec (CFrame noRandom) (startGame initialApp))) = [].
Proof.
  destruct bubbles_pop_on_their_first_frame as (T1 & T2).
  split; [exact noRandom_ok|]. split.
  - apply (T1 noRandom 12%Z noRandom_ok).
  - apply T2. apply reach_exec; [|exact noRandom_ok].
    apply (reach_exec initialApp CStart reach_init I).
Defined.

Lemma free_fall_ends_in_soup_with_score_0_witness :
  length (repeat noRandom 50) = 50%nat /\
  gameState (run (map CFrame (repeat noRandom 50)) (startGame initialApp))
    = gameOver /\
  score (run (map CFrame (repeat noRandom 50)) (startGame initialApp)) = 0%Z /\
  frameCount
    (game (run (map CFrame (repeat noRandom 50)) (startGame initialApp)))
    = 27%Z.
Proof.
  assert (L : length (repeat noRandom 50) = 50%nat) by apply repeat_length.
  split; [exact L|].
  destruct (free_fall_ends_in_soup_with_score_0 initialApp
              (repeat noRandom 50) L) as (_ & Hs & Hsc & Hf & _).
  split; [exact Hs|]. split; [exact Hsc | exact Hf].
Defined.

Lemma highScore_is_max_of_session_scores_witness :
  gameState (run (riseCalls 31 ++ [CJump]) (startGame initialApp)) = playing /\
  gameState (run (riseCalls 32) (startGame initialApp)) = gameOver /\
  highScore (run (riseCalls 32) (startGame initialApp)) =
    Z.max (highScore (run (riseCalls 31 ++ [CJump]) (startGame initialApp)))
      (score (run (riseCalls 32) (startGame initialApp))) /\
  highScore (run (riseCalls 32)
               (startGame (run (riseCalls 32) (startGame initialApp)))) =
    Z.max (score (run (riseCalls 32) (startGame initialApp)))
      (score (run (riseCalls 32)
                (startGame (run (riseCalls 32) (startGame initialApp))))).
Proof.
  destruct highScore_is_max_of_session_scores as (T1 & _ & T3).
  destruct (rise_ends initialApp) as (P & O & E).
  destruct (rise_ends (run (riseCalls 32) (startGame initialApp)))
    as (_ & O2 & _).
  assert (R0 : reachable (startGame initialApp))
    by apply (reach_exec initialApp CStart reach_init I).
  split; [exact P|]. split; [exact O|]. split.
  - rewrite E. apply T1.
    + apply reachable_run; [exact R0|].
      apply Forall_app. split; [apply riseCalls_ok|].
      constructor; [exact I | constructor].
    + exact noRandom_ok.
    + exact P.
    + rewrite <- E. exact O.
  - apply (T3 initialApp (riseCalls 32) (riseCalls 32) reach_init
             (riseCalls_inSession 32) (riseCalls_inSession 32) O O2).
    reflexivity.
Defined.

(** * More properties *)

(** ** The pipe list, exactly *)

Lemma keep_count (K : Z) :
  gtb (800 - 3.9 * IZR K - GAME_SPEED + 80) 0 = (K + 1 <=? 225)%Z.
Proof.
  unfold GAME_SPEED. destruct (Z.leb_spec (K + 1) 225) as [L | G].
  - apply gtb_true_iff. apply IZR_le in L. rewrite plus_IZR in L. lra.
  - apply gtb_false_iff. assert (G' : (226 <= K + 1)%Z) by lia.
    apply IZR_le in G'. rewrite plus_IZR in G'. lra.
Qed.

Lemma cross_count (K : Z) :
  ltb (800 - 3.9 * IZR K - GAME_SPEED + 80) 150 = (188 <=? K + 1)%Z.
Proof.
  unfold GAME_SPEED. destruct (Z.leb_spec 188 (K + 1)) as [L | G].
  - apply ltb_true_iff. apply IZR_le in L. rewrite plus_IZR in L. lra.
  - apply ltb_false_iff. assert (G' : (K + 1 <= 187)%Z) by lia.
    apply IZR_le in G'. rewrite plus_IZR in G'. lra.
Qed.

(** What the callback does to a pair of count at most 224: it keeps both
    pipes, and they form the pair of the next count. *)
Lemma updateFork_pairExact (c j : Z) (t b : Pipe) :
  pairExact c j t b -> (c - 140 * j <= 224)%Z ->
  pairExact (c + 1) j (updateFork 150 t) (updateFork 150 b) /\
  keepFork (updateFork 150 t) = true /\
  keepFork (updateFork 150 b) = true.
Proof.
  intros (h & Hh & Hj & HK & Tx & Ty & Tw & Th & Tp & Bx & By & Bw & Bh & Bp) Hlive.
  destruct (updateFork_fields 150 t) as (Ux & Uy & Uw & Uh & Up).
  destruct (updateFork_fields 150 b) as (Vx & Vy & Vw & Vh & Vp).
  assert (Kt : keepFork (updateFork 150 t) = true).
  { unfold keepFork. rewrite Ux, Uw, Tx, Tw, keep_count. apply Z.leb_le. lia. }
  assert (Kb : keepFork (updateFork 150 b) = true).
  { unfold keepFork. rewrite Vx, Vw, Bx, Bw, Tx, keep_count. apply Z.leb_le. lia. }
  split; [|split; assumption].
  exists h. rewrite Ux, Uy, Uw, Uh, Up, Vx, Vy, Vw, Vh, Vp.
  replace (c + 1 - 140 * j)%Z with ((c - 140 * j) + 1)%Z by lia.
  rewrite plus_IZR. unfold GAME_SPEED.
  repeat split; try lia; try lra.
  - unfold scoresNow, movePipe. cbn [x y width passed].
    rewrite Tp, Ty, Tx, Tw.
    assert (E : strict_eqb 0 0 = true) by (apply strict_eqb_true_iff; reflexivity).
    rewrite E, andb_true_r, cross_count.
    destruct (Z.leb_spec 188 (c - 140 * j)); destruct (Z.leb_spec 188 (c - 140 * j + 1));
      simpl; try reflexivity; lia.
  - rewrite Bp. rewrite scoresNow_needs_top; [reflexivity|]. rewrite By. lra.
Qed.

Lemma pairsFrom_le (c jend j : Z) (l : list Pipe) :
  pairsFrom c jend j l -> (j <= jend)%Z.
Proof. induction 1; lia. Qed.

Lemma pairsFrom_length (c jend j : Z) (l : list Pipe) :
  pairsFrom c jend j l -> Z.of_nat (length l) = (2 * (jend - j))%Z.
Proof.
  induction 1 as [|j t b rest Hp Hr IH];
    [change (length (@nil Pipe)) with 0%nat; lia|].
  change (length (t :: b :: rest)) with (S (S (length rest))). lia.
Qed.

Lemma pairsFrom_snoc (c jend j : Z) (l : list Pipe) (t b : Pipe) :
  pairsFrom c jend j l -> pairExact c jend t b ->
  pairsFrom c (jend + 1) j (l ++ [t; b]).
Proof.
  induction 1 as [|j t' b' rest Hp Hr IH]; intros Hn; simpl.
  - constructor; [exact Hn | constructor].
  - constructor; [exact Hp | apply IH; exact Hn].
Qed.

(** Translation of a list whose oldest pair has count at most 224: nothing
    is dropped. *)
Lemma updateForks_young (c jend j : Z) (l : list Pipe) :
  pairsFrom c jend j l -> (c - 140 * j <= 224)%Z ->
  pairsFrom (c + 1) jend j (updateForks 150 l).
Proof.
  induction 1 as [|j t b rest Hp Hr IH]; intros Hlive; [constructor|].
  destruct (updateFork_pairExact c j t b Hp Hlive) as (Hq & Kt & Kb).
  unfold updateForks, translatedForks. cbn [map filter]. rewrite Kt, Kb.
  constructor; [exact Hq|]. apply IH. lia.
Qed.

(** Translation of any list of the invariant: the oldest pair is dropped
    exactly when its count was 225. *)
Lemma updateForks_exact (c jend j : Z) (l : list Pipe) :
  pairsFrom c jend j l ->
  (c - 140 * j <= 224)%Z /\ pairsFrom (c + 1) jend j (updateForks 150 l) \/
  (c - 140 * j = 225)%Z /\ pairsFrom (c + 1) jend (j + 1) (updateForks 150 l) \/
  l = [] /\ j = jend.
Proof.
  intros H. destruct H as [|j t b rest Hp Hr]; [right; right; split; reflexivity|].
  assert (HK : (0 <= c - 140 * j <= 225)%Z) by (destruct Hp as (h & _ & _ & HK & _); exact HK).
  destruct (Z_le_gt_dec (c - 140 * j) 224) as [L | G].
  - left. split; [exact L|].
    apply updateForks_young; [constructor; assumption | exact L].
  - right; left. split; [lia|].
    destruct Hp as (h & Hh & Hj & _ & Tx & Ty & Tw & Th & Tp & Bx & By & Bw & Bh & Bp).
    destruct (updateFork_fields 150 t) as (Ux & _ & Uw & _).
    destruct (updateFork_fields 150 b) as (Vx & _ & Vw & _).
    assert (Kt : keepFork (updateFork 150 t) = false).
    { unfold keepFork. rewrite Ux, Uw, Tx, Tw, keep_count. apply Z.leb_gt. lia. }
    assert (Kb : keepFork (updateFork 150 b) = false).
    { unfold keepFork. rewrite Vx, Vw, Bx, Bw, Tx, keep_count. apply Z.leb_gt. lia. }
    unfold updateForks, translatedForks. cbn [map filter]. rewrite Kt, Kb.
    apply (updateForks_young c jend (j + 1) rest Hr). lia.
Qed.

Lemma spawned_pairExact (u : R) (fc : Z) :
  unit_interval u -> (0 <= fc)%Z -> spawnsAt (fc + 1) = true ->
  pairExact (fc + 1) (fc / 140 + 1)
    (topFork (pipeHeightOf u)) (bottomFork (pipeHeightOf u))
  /\ ((fc + 1) / 140 = fc / 140 + 1)%Z.
Proof.
  intros Hu Hfc Hs. apply spawnsAt_iff in Hs.
  assert (E : ((fc + 1) / 140 = fc / 140 + 1)%Z /\
              (fc + 1 - 140 * (fc / 140 + 1) = 0)%Z /\ (0 <= fc / 140)%Z).
  { Z.div_mod_to_equations. lia. }
  destruct E as (E1 & E2 & E3). split; [|exact E1].
  exists (pipeHeightOf u). pose proof (pipeHeightOf_range u Hu) as Hr.
  rewrite E2. unfold topFork, bottomFork. cbn [x y width height passed].
  unfold GAME_WIDTH, PIPE_WIDTH, GAME_HEIGHT, PIPE_GAP.
  repeat split; try lia; try lra.
Qed.

Lemma generateForks_exact (u : R) (fc j0 : Z) (ps : list Pipe) :
  unit_interval u -> (0 <= fc)%Z ->
  pairsFrom (fc + 1) (fc / 140 + 1) j0 ps ->
  pairsFrom (fc + 1) ((fc + 1) / 140 + 1) j0 (generateForks u (fc + 1) ps).
Proof.
  intros Hu Hfc Hp. unfold generateForks.
  destruct (spawnsAt (fc + 1)) eqn:S.
  - destruct (spawned_pairExact u fc Hu Hfc S) as [Hn ->].
    apply pairsFrom_snoc; assumption.
  - unfold spawnsAt, SPAWN_INTERVAL in S. apply Z.eqb_neq in S.
    replace ((fc + 1) / 140)%Z with (fc / 140)%Z; [exact Hp|].
    Z.div_mod_to_equations. lia.
Qed.

Lemma stepGame_exact (rnd : Rand) (g : GameData) :
  rand_ok rnd -> gameInv g -> forksExact g -> forksExact (stepGame rnd g).
Proof.
  intros Hr ((Px & _) & Hfc & _) (j0 & (Hj0 & Hdead) & Hp).
  pose proof (generateForks_exact (rnd_pipe rnd) (frameCount g) j0 (pipes g)
                (proj1 Hr) Hfc Hp) as Hs.
  unfold forksExact. cbn [frameCount pipes stepGame px updatePlayer].
  rewrite Px. fold (spawnedForks rnd g).
  change (generateForks (rnd_pipe rnd) (frameCount g + 1) (pipes g))
    with (spawnedForks rnd g) in Hs.
  destruct (updateForks_exact _ _ _ _ Hs) as [[L H] | [[E H] | [E ->]]].
  - exists j0. split; [split; lia | exact H].
  - exists (j0 + 1)%Z. split; [split; lia | exact H].
  - exists ((frameCount g + 1) / 140 + 1)%Z. rewrite E.
    split; [split; [lia|] | constructor].
    destruct Hdead as [Hd | Hd]; [left; exact Hd | right; lia].
Qed.

(** ** The score is a function of the frame counter *)

(** The pair that crosses the player in the frame of counter [c], if any:
    its index is [(c - 187) / 140], between [j] and [jend]. *)
Lemma scoreGain_pairs (c jend j : Z) (l : list Pipe) :
  pairsFrom c jend j l ->
  scoreGain 150 l =
    if (((c - 187) mod 140 =? 0) && (j <=? (c - 187) / 140) &&
        ((c - 187) / 140 <? jend))%Z%bool
    then 1%Z else 0%Z.
Proof.
  induction 1 as [|j t b rest Hp Hr IH].
  - unfold scoreGain. cbn [filter length].
    destruct (Z.leb_spec jend ((c - 187) / 140));
      destruct (Z.ltb_spec ((c - 187) / 140) jend);
      rewrite ?andb_false_r; try reflexivity; lia.
  - pose proof (pairsFrom_le _ _ _ _ Hr) as Hle.
    destruct Hp as (h & Hh & Hj & HK & Tx & Ty & Tw & Th & Tp & Bx & By & Bw & Bh & Bp).
    assert (St : scoresNow 150 (movePipe t) = (c - 140 * j =? 187)%Z).
    { unfold scoresNow, movePipe. cbn [x y width passed].
      rewrite Tp, Ty, Tx, Tw.
      assert (E : strict_eqb 0 0 = true) by (apply strict_eqb_true_iff; reflexivity).
      rewrite E, andb_true_r, cross_count.
      destruct (Z.leb_spec 188 (c - 140 * j));
        destruct (Z.leb_spec 188 (c - 140 * j + 1));
        destruct (Z.eqb_spec (c - 140 * j) 187); simpl; try reflexivity; lia. }
    assert (Sb : scoresNow 150 (movePipe b) = false).
    { apply scoresNow_needs_top. rewrite By. lra. }
    unfold scoreGain in *. cbn [filter]. rewrite St, Sb.
    destruct (Z.eqb_spec (c - 140 * j) 187) as [E | N].
    + cbn [length]. rewrite Nat2Z.inj_succ, IH.
      assert (M : ((c - 187) mod 140 = 0 /\ (c - 187) / 140 = j)%Z).
      { Z.div_mod_to_equations. lia. }
      destruct M as [M1 M2]. rewrite M1, M2.
      destruct (Z.leb_spec (j + 1) j); [lia|].
      destruct (Z.leb_spec j j); [|lia].
      destruct (Z.ltb_spec j jend); [|lia].
      reflexivity.
    + rewrite IH.
      destruct (Z.eqb_spec ((c - 187) mod 140) 0) as [M | M]; [|reflexivity].
      assert (Q : ((c - 187) / 140 <> j)%Z).
      { Z.div_mod_to_equations. lia. }
      destruct (Z.leb_spec (j + 1) ((c - 187) / 140));
        destruct (Z.leb_spec j ((c - 187) / 140)); try reflexivity; lia.
Qed.

Lemma scoreAt_step (fc : Z) :
  (0 <= fc)%Z ->
  (scoreAt (fc + 1) - scoreAt fc =
   if ((fc + 1 - 187) mod 140 =? 0) && (1 <=? (fc + 1 - 187) / 140)
   then 1 else 0)%Z.
Proof.
  intros Hfc. unfold scoreAt.
  destruct (Z.eqb_spec ((fc + 1 - 187) mod 140) 0);
    destruct (Z.leb_spec 1 ((fc + 1 - 187) / 140)); cbn [andb];
    Z.div_mod_to_equations; lia.
Qed.

Lemma stepGain_exact (rnd : Rand) (g : GameData) :
  rand_ok rnd -> gameInv g -> forksExact g ->
  stepGain rnd g = (scoreAt (frameCount g + 1) - scoreAt (frameCount g))%Z.
Proof.
  intros Hr ((Px & _) & Hfc & _) (j0 & (Hj0 & Hdead) & Hp).
  pose proof (generateForks_exact (rnd_pipe rnd) (frameCount g) j0 (pipes g)
                (proj1 Hr) Hfc Hp) as Hs.
  unfold stepGain. cbn [px updatePlayer]. rewrite Px.
  unfold spawnedForks. rewrite (scoreGain_pairs _ _ _ _ Hs), scoreAt_step by exact Hfc.
  apply pairsFrom_le in Hp.
  destruct (Z.eqb_spec ((frameCount g + 1 - 187) mod 140) 0) as [M | M];
    [|reflexivity].
  cbn [andb].
  destruct (Z.leb_spec j0 ((frameCount g + 1 - 187) / 140));
    destruct (Z.ltb_spec ((frameCount g + 1 - 187) / 140)
                ((frameCount g + 1) / 140 + 1));
    destruct (Z.leb_spec 1 ((frameCount g + 1 - 187) / 140));
    cbn [andb]; try reflexivity; exfalso;
    Z.div_mod_to_equations; lia.
Qed.

Lemma freshGame_exact : forksExact freshGame.
Proof.
  exists 1%Z. split; [split; [lia | left; reflexivity]|].
  simpl. constructor.
Qed.

Lemma exec_exact (c : Call) (a : App) :
  call_ok c -> appInv a -> exactInv a -> exactInv (exec c a).
Proof.
  intros Hc (Hg & _) [Hf Hs]. destruct c as [ | | | rnd]; simpl.
  - split; [apply freshGame_exact | reflexivity].
  - unfold jump. destruct (gameState a); split; assumption.
  - split; assumption.
  - unfold frame. destruct (gameState a); try (split; assumption).
    split.
    + rewrite gameLoop_game. apply stepGame_exact; assumption.
    + rewrite gameLoop_score, gameLoop_game, Hs,
        (stepGain_exact rnd (game a) Hc Hg Hf).
      cbn [frameCount stepGame]. lia.
Qed.

Lemma reachable_exact (a : App) : reachable a -> exactInv a.
Proof.
  induction 1 as [|a c Ha IH Hc].
  - split; [apply freshGame_exact | reflexivity].
  - apply exec_exact; [exact Hc | apply reachable_inv; exact Ha | exact IH].
Qed.

Lemma scoreAt_nonneg_step (fc : Z) :
  (0 <= fc)%Z -> (0 <= scoreAt (fc + 1) - scoreAt fc <= 1)%Z.
Proof.
  intros H. rewrite (scoreAt_step fc H).
  destruct (_ && _)%bool; lia.
Qed.

(** X1. In every state the game reaches the score is determined by the
    frame counter: it is the number of pairs whose crossing frame,
    [140 * j + 187], has been reached; so it is 0 before frame 327, and a
    frame adds at most one point. *)
Theorem score_is_function_of_frameCount :
  forall a : App,
    reachable a ->
    score a = Z.max 0 ((frameCount (game a) - 187) / 140) /\
    ((frameCount (game a) < 327)%Z -> score a = 0%Z) /\
    (forall j : Z,
       (1 <= j)%Z -> (140 * j + 187 <= frameCount (game a))%Z ->
       (j <= score a)%Z) /\
    (forall rnd : Rand,
       rand_ok rnd ->
       (0 <= score (gameLoop rnd a) - score a <= 1)%Z).
Proof.
  intros a Ha. destruct (reachable_exact a Ha) as [Hf Hs].
  destruct (reachable_inv a Ha) as (Hg & _).
  assert (Hfc : (0 <= frameCount (game a))%Z) by apply Hg.
  split; [exact Hs|]. split; [|split].
  - intros Hlt. rewrite Hs. unfold scoreAt. Z.div_mod_to_equations. lia.
  - intros j Hj Hle. rewrite Hs. unfold scoreAt. Z.div_mod_to_equations. lia.
  - intros rnd Hr.
    rewrite gameLoop_score, (stepGain_exact rnd (game a) Hr Hg Hf).
    pose proof (scoreAt_nonneg_step _ Hfc). lia.
Qed.

(** X2. The pipe list is empty before frame 140, and from then on it
    holds one or two pairs: never more than four pipes. *)
Theorem at_most_two_pairs_in_the_world :
  forall a : App,
    reachable a ->
    (length (pipes (game a)) <= 4)%nat /\
    ((frameCount (game a) < 140)%Z -> pipes (game a) = []) /\
    ((140 <= frameCount (game a))%Z -> (2 <= length (pipes (game a)))%nat).
Proof.
  intros a Ha. destruct (reachable_exact a Ha) as [(j0 & (Hj0 & Hdead) & Hp) _].
  destruct (reachable_inv a Ha) as ((_ & Hfc & _) & _).
  pose proof (pairsFrom_length _ _ _ _ Hp) as Hlen.
  pose proof (pairsFrom_le _ _ _ _ Hp) as Hle.
  assert (Hhead : pipes (game a) <> [] ->
                  (frameCount (game a) + 1 - 140 * j0 <= 225)%Z).
  { destruct Hp as [|j t b rest (h & _ & _ & HK & _) _]; [congruence | lia]. }
  split; [|split].
  - destruct (pipes (game a)) as [|q l] eqn:E; [simpl; lia|].
    assert (HK : (frameCount (game a) + 1 - 140 * j0 <= 225)%Z)
      by (apply Hhead; discriminate).
    apply Nat2Z.inj_le. rewrite Hlen. Z.div_mod_to_equations. lia.
  - intros Hlt. destruct (pipes (game a)) as [|q l]; [reflexivity|].
    exfalso. change (length (q :: l)) with (S (length l)) in Hlen.
    Z.div_mod_to_equations. lia.
  - intros Hge. apply Nat2Z.inj_le. rewrite Hlen.
    Z.div_mod_to_equations. lia.
Qed.

Lemma pairAt_gapPair (k : Z) (t b : Pipe) : pairAt k t b -> gapPair t b.
Proof.
  intros (j & h & _ & _ & Hh & _ & Ty & Tw & Th & Bx & By & Bw & Bh & _).
  unfold gapPair, PIPE_GAP, GAME_HEIGHT, PIPE_WIDTH.
  rewrite Ty, Th, By, Bh, Tw, Bw, Bx. repeat split; lra.
Qed.

Lemma inPairs_weaken (P Q : Pipe -> Pipe -> Prop) (l : list Pipe) :
  (forall t b, P t b -> Q t b) -> inPairs P l -> inPairs Q l.
Proof. intros HPQ. induction 1; constructor; auto. Qed.

Lemma inPairs_head (P : Pipe -> Pipe -> Prop) (t b : Pipe)
      (rest : list Pipe) :
  inPairs P (t :: b :: rest) -> P t b.
Proof. intros H. inversion H; assumption. Qed.

(** X3. Every pair the game holds leaves the gap the spawner gave it: the
    top fork hangs from the ceiling to [h], with [h] between 100 and 220,
    the bottom fork stands from [h + 280] to the floor.  The gap ends above
    the soup surface, and a player whose box is inside the gap overlaps
    neither fork of the pair, wherever the pair is. *)
Theorem every_pair_keeps_a_passable_gap :
  forall a : App,
    reachable a ->
    inPairs gapPair (pipes (game a)) /\
    (forall t b : Pipe,
       gapPair t b ->
       (forall (x0 : R) (fc : Z), y b < soupSurfaceYAt x0 fc) /\
       (forall p : Player,
          height t <= py p -> py p + pheight p <= y b ->
          hitsFork p t = false /\ hitsFork p b = false)).
Proof.
  intros a Ha. destruct (reachable_inv a Ha) as ((_ & _ & Hp) & _).
  split.
  - apply inPairs_weaken with (P := pairAt (frameCount (game a) + 1));
      [apply pairAt_gapPair | exact Hp].
  - intros t b (Ty & Th & By & _). split.
    + intros x0 fc. pose proof (soup_band x0 fc). unfold PIPE_GAP in By. lra.
    + intros p H1 H2. unfold hitsFork. split.
      * assert (E : ltb (py p) (y t + height t) = false)
          by (apply ltb_false_iff; lra).
        rewrite E, andb_false_r. reflexivity.
      * assert (E : gtb (py p + pheight p) (y b) = false)
          by (apply gtb_false_iff; lra).
        rewrite E, andb_false_r. reflexivity.
Qed.

(** X4. While the phase is [playing] the stored game is free of
    collisions: the player's box is inside the world, between the ceiling
    and the highest level of the soup surface, and overlaps no pipe.  In
    every state the player is at [x = 150], 40 by 40, with a velocity
    between the jump impulse and the maximal fall speed. *)
Theorem playing_state_is_collision_free :
  forall a : App,
    reachable a ->
    (px (player (game a)) = 150 /\ pwidth (player (game a)) = PLAYER_SIZE /\
     pheight (player (game a)) = PLAYER_SIZE /\
     JUMP_FORCE <= velocity (player (game a)) <= MAX_FALL_SPEED /\
     (0 <= frameCount (game a))%Z /\ (0 <= score a)%Z /\
     (0 <= highScore a)%Z) /\
    (gameState a = playing ->
     0 <= py (player (game a)) /\
     py (player (game a)) + pheight (player (game a)) <= 556 /\
     py (player (game a)) + pheight (player (game a)) <=
       soupSurfaceYAt (px (player (game a)) + pwidth (player (game a)) / 2)
         (frameCount (game a)) /\
     Forall (fun q => hitsFork (player (game a)) q = false) (pipes (game a))).
Proof.
  intros a Ha.
  destruct (reachable_inv a Ha)
    as (((Px & Pw & Ph & Pv) & Hfc & _) & Hsafe & Hs & Hh).
  split.
  - unfold PLAYER_SIZE, JUMP_FORCE, MAX_FALL_SPEED.
    repeat split; try assumption; try lra.
  - intros Hp. destruct (detectCollision_false _ (Hsafe Hp)) as (C & S & F).
    pose proof (soup_band (px (player (game a)) + pwidth (player (game a)) / 2)
                  (frameCount (game a))).
    split; [exact C|]. split; [lra|]. split; [exact S|].
    apply Forall_forall. exact F.
Qed.

(** ** The page *)

Lemma handle_exec (i : Input) (a : App) :
  input_ok i -> handle i a = a \/ exists c, call_ok c /\ handle i a = exec c a.
Proof.
  intros Hi. destruct i as [ | | | | | rnd]; simpl;
    destruct (gameState a) eqn:E;
    try (left; reflexivity);
    try (right; exists CStart; split; [exact I | reflexivity]);
    try (right; exists CJump; split; [exact I | reflexivity]);
    try (right; exists CToMenu; split; [exact I | reflexivity]).
  all: right; exists (CFrame rnd); split; [exact Hi | simpl; unfold frame; rewrite E; reflexivity].
Qed.

Lemma onPage_reachable (a : App) : onPage a -> reachable a.
Proof.
  induction 1 as [|a i Ha IH Hi]; [constructor|].
  destruct (handle_exec i a Hi) as [-> | (c & Hc & ->)];
    [exact IH | constructor; assumption].
Qed.

(** X5. The phase moves along the arrows of the state machine only:
    from [menu] to [playing], from [playing] to [gameOver], from [gameOver]
    to [playing] or to [menu].  A session ends in an animation frame and
    in no other input, and the menu is entered by the Change Peanut button
    and by no other input. *)
Theorem phase_follows_the_state_machine :
  forall (i : Input) (a : App),
    transition (gameState a) (gameState (handle i a)) = true /\
    (gameState a = playing -> gameState (handle i a) = gameOver ->
     exists rnd, i = AnimationFrame rnd) /\
    (gameState a <> menu -> gameState (handle i a) = menu ->
     i = ClickChangePeanut /\ gameState a = gameOver) /\
    (gameState a <> playing -> gameState (handle i a) = playing ->
     handle i a = startGame a).
Proof.
  intros i a.
  destruct i as [ | | | | | rnd]; simpl; unfold frame, jump;
    destruct (gameState a) eqn:E; simpl; rewrite ?E;
    try (rewrite gameLoop_phase, E;
         destruct (detectCollision (stepGame rnd (game a))));
    repeat split; try reflexivity; try congruence; try discriminate;
    intros; try congruence; try (eexists; reflexivity).
Qed.

Lemma phase_follows_the_state_machine_witness :
  gameState (handle ClickChangePeanut (startGame initialApp)) <> menu /\
  handle KeySpace initialApp = startGame initialApp.
Proof.
  split.
  - intros H.
    destruct (phase_follows_the_state_machine ClickChangePeanut
                (startGame initialApp)) as (_ & _ & T & _).
    destruct (T ltac:(discriminate) H) as [_ E]. discriminate E.
  - destruct (phase_follows_the_state_machine KeySpace initialApp)
      as (_ & _ & _ & T).
    apply T; [discriminate | reflexivity].
Defined.

(** ** The score outside a session *)

Lemma handle_score_le_highScore (i : Input) (a : App) :
  reachable a -> input_ok i ->
  (gameState a <> playing -> (score a <= highScore a)%Z) ->
  gameState (handle i a) <> playing ->
  (score (handle i a) <= highScore (handle i a))%Z.
Proof.
  intros Ha Hi IH Hn.
  destruct i as [ | | | | | rnd]; simpl in *; unfold frame, jump in *;
    destruct (gameState a) eqn:E; simpl in *; rewrite ?E in *;
    try congruence; try (apply IH; discriminate).
  destruct (gameState (gameLoop rnd a)) eqn:G; try congruence.
  - rewrite gameLoop_phase, E in G. destruct (detectCollision _); discriminate.
  - destruct (terminal_frame rnd a Ha Hi E G) as [_ H]. rewrite H. lia.
Qed.

(** X6. On the page, outside a running session the score shown never
    exceeds the high score: in phases [menu] and [gameOver],
    [score <= highScore]. *)
Theorem score_at_most_highScore_outside_a_session :
  forall a : App,
    onPage a -> gameState a <> playing -> (score a <= highScore a)%Z.
Proof.
  induction 1 as [|a i Ha IH Hi]; intros Hn; [simpl; lia|].
  apply handle_score_le_highScore;
    [apply onPage_reachable; exact Ha | exact Hi | exact IH | exact Hn].
Qed.

(** ** Jumps *)

(** X7. A jump outside a running session does nothing; in a session it
    replaces the velocity by [JUMP_FORCE] and touches nothing else, so two
    jumps before a frame are one jump, and the next frame moves the player
    up by 9.5 whatever the velocity was. *)
Theorem jump_overwrites_the_velocity :
  forall a : App,
    (gameState a <> playing -> jump a = a) /\
    jump (jump a) = jump a /\
    gameState (jump a) = gameState a /\ score (jump a) = score a /\
    highScore (jump a) = highScore a /\
    pipes (game (jump a)) = pipes (game a) /\
    bubbles (game (jump a)) = bubbles (game a) /\
    frameCount (game (jump a)) = frameCount (game a) /\
    px (player (game (jump a))) = px (player (game a)) /\
    py (player (game (jump a))) = py (player (game a)) /\
    (gameState a = playing ->
     velocity (player (game (jump a))) = JUMP_FORCE /\
     forall rnd : Rand,
       velocity (player (game (frame rnd (jump a)))) = -9.5 /\
       py (player (game (frame rnd (jump a)))) = py (player (game a)) - 9.5).
Proof.
  intros a. unfold jump.
  destruct (gameState a) eqn:E; simpl; rewrite ?E; simpl;
    repeat split; try reflexivity; try congruence; try discriminate.
  all: intros; unfold frame; simpl; rewrite gameLoop_player; simpl;
    assert (G : gtb (JUMP_FORCE + GRAVITY) MAX_FALL_SPEED = false)
      by (apply gtb_false_iff; unfold JUMP_FORCE, GRAVITY, MAX_FALL_SPEED; lra);
    rewrite G; unfold JUMP_FORCE, GRAVITY; lra.
Qed.

Lemma jump_overwrites_the_velocity_witness :
  jump initialApp = initialApp /\
  py (player (game (frame noRandom (jump (startGame initialApp))))) =
    py (player (game (startGame initialApp))) - 9.5.
Proof.
  destruct (jump_overwrites_the_velocity initialApp) as (T1 & _).
  destruct (jump_overwrites_the_velocity (startGame initialApp))
    as (_ & _ & _ & _ & _ & _ & _ & _ & _ & _ & T2).
  split; [apply T1; discriminate|].
  destruct (T2 eq_refl) as [_ T3]. apply (T3 noRandom).
Defined.

(** ** Sessions are independent *)

Lemma exec_sameSession (c : Call) (a b : App) :
  sameSession a b -> sameSession (exec c a) (exec c b).
Proof.
  intros (Hs & Hsc & Hg). destruct a as [sa ca ha ga], b as [sb cb hb gb].
  simpl in Hs, Hsc, Hg. subst sb cb gb.
  destruct c as [ | | | rnd]; simpl; unfold sameSession, jump, frame; simpl.
  - repeat split.
  - destruct sa; repeat split.
  - repeat split.
  - destruct sa; try (repeat split).
    + rewrite !gameLoop_phase. reflexivity.
    + rewrite !gameLoop_score. reflexivity.
    + rewrite !gameLoop_game. reflexivity.
Qed.

Lemma run_sameSession (cs : list Call) (a b : App) :
  sameSession a b -> sameSession (run cs a) (run cs b).
Proof.
  revert a b. induction cs as [|c cs IH]; intros a b H; [exact H|].
  change (run (c :: cs) a) with (run cs (exec c a)).
  change (run (c :: cs) b) with (run cs (exec c b)).
  apply IH. apply exec_sameSession. exact H.
Qed.

(** X8. A session does not depend on what came before it: [startGame]
    followed by any calls leaves the same phase, score and game data
    whatever the state it started from.  Of the earlier sessions only
    [highScore] is carried over. *)
Theorem a_session_starts_from_scratch :
  forall (a b : App) (cs : list Call),
    gameState (run cs (startGame a)) = gameState (run cs (startGame b)) /\
    score (run cs (startGame a)) = score (run cs (startGame b)) /\
    game (run cs (startGame a)) = game (run cs (startGame b)) /\
    highScore (startGame a) = highScore a.
Proof.
  intros a b cs.
  destruct (run_sameSession cs (startGame a) (startGame b)) as (H1 & H2 & H3);
    [repeat split|].
  repeat split; assumption.
Qed.

(** ** No session ends before frame 27 *)

Lemma early_start : early 0 freshGame.
Proof.
  unfold early; simpl. unfold GAME_HEIGHT, PLAYER_SIZE.
  repeat split; try lia; lra.
Qed.

Lemma early_jump (k : Z) (g : GameData) :
  early k g ->
  early k (mkGameData (set_velocity JUMP_FORCE (player g)) (pipes g)
             (bubbles g) (frameCount g)).
Proof.
  intros (Hk & Hf & Hp & Hx & Hw & Hh & Hv & Hy).
  unfold early; simpl. unfold JUMP_FORCE.
  assert (0 <= IZR k) by (apply IZR_le; lia).
  repeat split; try assumption; try lia; lra.
Qed.

Lemma early_step (rnd : Rand) (k : Z) (g : GameData) :
  early k g -> (k <= 25)%Z ->
  early (k + 1) (stepGame rnd g) /\ detectCollision (stepGame rnd g) = false.
Proof.
  intros (Hk & Hf & Hp & Hx & Hw & Hh & Hv & Hy) Hle.
  assert (B0 : 0 <= IZR k) by (apply IZR_le; lia).
  assert (B1 : IZR k <= 25) by (apply IZR_le; lia).
  assert (V : -9.5 <= velocity (updatePlayer (player g)) <= 0.5 * IZR (k + 1)).
  { rewrite updatePlayer_velocity, plus_IZR.
    unfold Rmin, GRAVITY, MAX_FALL_SPEED. destruct (Rle_dec _ _); lra. }
  destruct (updatePlayer_box (player g)) as (Ux & Uw & Uh & Uy).
  assert (P : pipes (stepGame rnd g) = []).
  { unfold stepGame, spawnedForks, generateForks. cbn [pipes].
    assert (S : spawnsAt (frameCount g + 1) = false).
    { unfold spawnsAt, SPAWN_INTERVAL. apply Z.eqb_neq.
      rewrite Z.mod_small; lia. }
    rewrite S, Hp. reflexivity. }
  assert (Y : 300 - 9.5 * IZR (k + 1) <= py (updatePlayer (player g))
              <= 300 + 0.25 * IZR (k + 1) * (IZR (k + 1) + 1)).
  { rewrite Uy. rewrite plus_IZR in *. split; nra. }
  split.
  - unfold early. cbn [player frameCount stepGame].
    rewrite Ux, Uw, Uh, Hf.
    repeat split; try assumption; try lia; try lra.
  - apply detectCollision_false_intro.
    + cbn [player stepGame]. rewrite plus_IZR in Y. lra.
    + cbn [player stepGame frameCount]. rewrite Uh, Hh.
      pose proof (soup_band
        (px (updatePlayer (player g)) + pwidth (updatePlayer (player g)) / 2)
        (frameCount g + 1)).
      rewrite plus_IZR in Y. nra.
    + rewrite P. intros q [].
Qed.

Lemma exec_grace (c : Call) (a : App) : graceInv a -> graceInv (exec c a).
Proof.
  intros H. destruct c as [ | | | rnd]; simpl.
  - left. exists 0%Z. split; [apply early_start | discriminate].
  - unfold jump. destruct (gameState a) eqn:E; try exact H.
    destruct H as [(k & Hk & Hn) | H]; [left | right; exact H].
    exists k. split; [apply early_jump; exact Hk | simpl; congruence].
  - destruct H as [(k & Hk & Hn) | H]; [left | right; exact H].
    exists k. split; [exact Hk | discriminate].
  - unfold frame. destruct (gameState a) eqn:E; try exact H.
    destruct H as [(k & Hk & Hn) | H].
    + destruct (Z_le_gt_dec k 25) as [L | G].
      * destruct (early_step rnd k (game a) Hk L) as [He Hc].
        left. exists (k + 1)%Z. rewrite gameLoop_game. split; [exact He|].
        rewrite gameLoop_phase, Hc, E. discriminate.
      * right. rewrite gameLoop_game. cbn [frameCount stepGame].
        destruct Hk as (Hk & Hf & _). lia.
    + right. rewrite gameLoop_game. cbn [frameCount stepGame]. lia.
Qed.

Lemma reachable_grace (a : App) : reachable a -> graceInv a.
Proof.
  induction 1 as [|a c Ha IH Hc].
  - left. exists 0%Z. split; [apply early_start | discriminate].
  - apply exec_grace. exact IH.
Qed.

(** X9. No session ends before its frame 27, whatever the player does:
    in phase [gameOver] the frame counter is at least 27.  (Free fall ends
    a session at exactly that frame.) *)
Theorem no_session_ends_before_frame_27 :
  forall a : App,
    reachable a -> gameState a = gameOver ->
    (27 <= frameCount (game a))%Z.
Proof.
  intros a Ha Hover.
  destruct (reachable_grace a Ha) as [(k & _ & Hn) | H]; [congruence | exact H].
Qed.

(** ** The arc of a jump *)

Lemma afterJump_S (k : nat) (p : Player) :
  afterJump (S k) p = updatePlayer (afterJump k p).
Proof. reflexivity. Qed.

Lemma afterJump_rising (k : nat) (p : Player) :
  (k <= 44)%nat ->
  velocity (afterJump k p) = -10 + 0.5 * INR k /\
  py (afterJump k p) = py p - 10 * INR k + 0.25 * INR k * (INR k + 1).
Proof.
  induction k as [|k IH]; intros Hk.
  - simpl. unfold JUMP_FORCE. split; lra.
  - destruct IH as [Hv Hy]; [lia|].
    assert (B : INR k <= 43).
    { replace 43 with (INR 43) by (simpl; lra). apply le_INR. lia. }
    rewrite afterJump_S.
    destruct (updatePlayer_free (afterJump k p)) as [Uv Uy].
    { rewrite Hv. unfold GRAVITY, MAX_FALL_SPEED. lra. }
    rewrite Uv, Uy, Hv, Hy, S_INR. unfold GRAVITY. split; lra.
Qed.

Lemma afterJump_falling (k : nat) (p : Player) :
  (20 <= k)%nat ->
  0 <= velocity (afterJump k p) /\ py p - 95 <= py (afterJump k p).
Proof.
  induction 1 as [|k Hk [Hv Hy]].
  - destruct (afterJump_rising 20 p) as [Hv Hy]; [lia|].
    rewrite Hv, Hy. replace (INR 20) with 20 by (simpl; lra). split; lra.
  - rewrite afterJump_S.
    destruct (updatePlayer_box (afterJump k p)) as (_ & _ & _ & Uy).
    assert (V : 0 <= velocity (updatePlayer (afterJump k p))).
    { rewrite updatePlayer_velocity. unfold Rmin, GRAVITY, MAX_FALL_SPEED.
      destruct (Rle_dec _ _); lra. }
    split; [exact V | rewrite Uy; lra].
Qed.

(** X10. After a jump, and with no other jump, the player rises for 19
    frames and is never more than 95 above the height of the jump; that
    height is reached 19 and 20 frames after the jump, and the player is
    back at the height of the jump after 39 frames. *)
Theorem a_jump_lifts_by_at_most_95 :
  forall (p : Player) (k : nat),
    py p - 95 <= py (afterJump k p) /\
    ((k <= 44)%nat ->
     velocity (afterJump k p) = -10 + 0.5 * INR k /\
     py (afterJump k p) = py p - 10 * INR k + 0.25 * INR k * (INR k + 1)) /\
    py (afterJump 19 p) = py p - 95 /\
    py (afterJump 20 p) = py p - 95 /\
    py (afterJump 39 p) = py p.
Proof.
  intros p k. split; [|split; [apply afterJump_rising|]].
  - destruct (Nat.le_gt_cases 20 k) as [L | G].
    + apply afterJump_falling. exact L.
    + destruct (afterJump_rising k p) as [_ Hy]; [lia|]. rewrite Hy.
      pose proof (arc_floor k). nra.
  - destruct (afterJump_rising 19 p) as [_ H19]; [lia|].
    destruct (afterJump_rising 20 p) as [_ H20]; [lia|].
    destruct (afterJump_rising 39 p) as [_ H39]; [lia|].
    rewrite H19, H20, H39.
    replace (INR 19) with 19 by (simpl; lra).
    replace (INR 20) with 20 by (simpl; lra).
    replace (INR 39) with 39 by (simpl; lra).
    repeat split; lra.
Qed.

(** ** What is drawn and what collides *)

Lemma hitsFork_overlaps (p : Player) (q : Pipe) :
  hitsFork p q = overlaps (playerBox p) (hitbox q).
Proof. reflexivity. Qed.

Lemma isTop_true_iff (pipe : Pipe) : isTop pipe = true <-> y pipe = 0.
Proof. apply strict_eqb_true_iff. Qed.

Lemma tineBox_place (pipe : Pipe) (i : nat) :
  left_ (tineBox pipe i) = x pipe + 19 + 12 * INR i /\
  wide (tineBox pipe i) = 6 /\ high (tineBox pipe i) = 28 /\
  top_ (tineBox pipe i) =
    (if isTop pipe then height pipe else y pipe - 28).
Proof.
  unfold tineBox, tinesStartX, cx, totalTinesWidth, tines, tineWidth, tineGap,
    tineLength, PIPE_WIDTH.
  replace (INR 4) with 4 by (simpl; lra).
  destruct (isTop pipe); cbn [left_ top_ wide high]; repeat split; lra.
Qed.

Lemma tine_index (i : nat) : (i < tines)%nat -> 0 <= INR i <= 3.
Proof.
  unfold tines. intros H. split; [apply pos_INR|].
  replace 3 with (INR 3) by (simpl; lra). apply le_INR. lia.
Qed.

(** X11. The tines [renderFork] draws are no part of what collides: the
    rectangle of each tine lies outside the pipe's hitbox, inside the
    pipe's column, and, for the two forks of a pair, inside the gap, from
    which it takes 28 units on either side (31 with the rounded tip).  A
    player in the middle of the column, level with the tines of the top
    fork, overlaps every tine and hits nothing. *)
Theorem tines_are_drawn_in_the_gap :
  forall (t b : Pipe) (i : nat),
    gapPair t b -> (i < tines)%nat ->
    overlaps (tineBox t i) (hitbox t) = false /\
    overlaps (tineBox b i) (hitbox b) = false /\
    (x t <= left_ (tineBox t i) /\
     left_ (tineBox t i) + wide (tineBox t i) <= x t + width t) /\
    (x b <= left_ (tineBox b i) /\
     left_ (tineBox b i) + wide (tineBox b i) <= x b + width b) /\
    (top_ (tineBox t i) = height t /\
     top_ (tineBox t i) + high (tineBox t i) = height t + 28) /\
    (top_ (tineBox b i) = y b - 28 /\
     top_ (tineBox b i) + high (tineBox b i) = y b) /\
    snd (fst (tineTip t i)) + snd (tineTip t i) = height t + 31 /\
    snd (fst (tineTip b i)) - snd (tineTip b i) = y b - 31 /\
    (forall p : Player,
       px p = x t + 20 -> pwidth p = 40 -> pheight p = 40 ->
       py p = height t ->
       overlaps (playerBox p) (tineBox t i) = true /\
       hitsFork p t = false /\ hitsFork p b = false).
Proof.
  intros t b i (Ty & Th & By & Bh & Bx & Tw & Bw) Hi.
  pose proof (tine_index i Hi) as Hb.
  destruct (tineBox_place t i) as (Lt & Wt & Ht & Tt).
  destruct (tineBox_place b i) as (Lb & Wb & Hb' & Tb).
  assert (It : isTop t = true) by (apply isTop_true_iff; exact Ty).
  assert (Ib : isTop b = false).
  { unfold isTop. apply strict_eqb_false_iff. unfold PIPE_GAP in By. lra. }
  rewrite It in Tt. rewrite Ib in Tb.
  unfold PIPE_GAP, GAME_HEIGHT, PIPE_WIDTH in *.
  assert (O1 : overlaps (tineBox t i) (hitbox t) = false).
  { unfold overlaps. cbn [hitbox left_ top_ wide high].
    assert (E : ltb (top_ (tineBox t i)) (y t + height t) = false)
      by (apply ltb_false_iff; lra).
    rewrite E, andb_false_r. reflexivity. }
  assert (O2 : overlaps (tineBox b i) (hitbox b) = false).
  { unfold overlaps. cbn [hitbox left_ top_ wide high].
    assert (E : gtb (top_ (tineBox b i) + high (tineBox b i)) (y b) = false)
      by (apply gtb_false_iff; lra).
    rewrite E, andb_false_r. reflexivity. }
  split; [exact O1|]. split; [exact O2|].
  split; [split; lra|]. split; [split; lra|].
  split; [split; lra|]. split; [split; lra|].
  split; [|split].
  - unfold tineTip. rewrite It. cbn [fst snd].
    unfold tineLength, tineWidth. lra.
  - unfold tineTip. rewrite Ib. cbn [fst snd].
    unfold tineLength, tineWidth. lra.
  - intros p Hx Hw Hh Hy. split; [|split].
    + unfold overlaps. cbn [playerBox left_ top_ wide high].
      rewrite Lt, Wt, Ht, Tt, Hx, Hw, Hh, Hy. cmp; reflexivity.
    + unfold hitsFork.
      assert (E : ltb (py p) (y t + height t) = false)
        by (apply ltb_false_iff; lra).
      rewrite E, andb_false_r. reflexivity.
    + unfold hitsFork.
      assert (E : gtb (py p + pheight p) (y b) = false)
        by (apply gtb_false_iff; lra).
      rewrite E, andb_false_r. reflexivity.
Qed.

Lemma tines_are_drawn_in_the_gap_witness :
  gapPair (topFork 150) (bottomFork 150) /\
  overlaps (tineBox (topFork 150) 0) (hitbox (topFork 150)) = false /\
  top_ (tineBox (bottomFork 150) 3) = y (bottomFork 150) - 28.
Proof.
  assert (G : gapPair (topFork 150) (bottomFork 150)).
  { unfold gapPair, topFork, bottomFork; simpl.
    unfold GAME_HEIGHT, PIPE_GAP. repeat split; lra. }
  assert (I0 : (0 < tines)%nat) by (unfold tines; lia).
  assert (I3 : (3 < tines)%nat) by (unfold tines; lia).
  split; [exact G|]. split.
  - apply (tines_are_drawn_in_the_gap _ _ 0%nat G I0).
  - apply (tines_are_drawn_in_the_gap _ _ 3%nat G I3).
Defined.

(** X12. The handle [renderFork] draws lies inside the hitbox of its
    pipe, for every fork of a pair: it is 22 wide in a column of 80, and it
    leaves the 36 units of the hitbox next to the gap undrawn.  Its height
    is never under 10. *)
Theorem handle_is_drawn_inside_the_hitbox :
  forall t b : Pipe,
    gapPair t b ->
    (forall q : Pipe, 10 <= handleH q) /\
    (left_ (handleBox t) = x t + 29 /\ wide (handleBox t) = 22 /\
     top_ (handleBox t) = 0 /\
     top_ (handleBox t) + high (handleBox t) = height t - 36) /\
    (left_ (handleBox b) = x b + 29 /\ wide (handleBox b) = 22 /\
     top_ (handleBox b) = y b + 36 /\
     top_ (handleBox b) + high (handleBox b) = GAME_HEIGHT) /\
    (forall q : Pipe,
       q = t \/ q = b ->
       left_ (hitbox q) <= left_ (handleBox q) /\
       left_ (handleBox q) + wide (handleBox q) <=
         left_ (hitbox q) + wide (hitbox q) /\
       top_ (hitbox q) <= top_ (handleBox q) /\
       top_ (handleBox q) + high (handleBox q) <=
         top_ (hitbox q) + high (hitbox q)).
Proof.
  intros t b (Ty & Th & By & Bh & Bx & Tw & Bw).
  assert (It : isTop t = true) by (apply isTop_true_iff; exact Ty).
  assert (Ib : isTop b = false).
  { unfold isTop. apply strict_eqb_false_iff. unfold PIPE_GAP in By. lra. }
  unfold PIPE_GAP, GAME_HEIGHT, PIPE_WIDTH in *.
  assert (Ht : handleH t = height t - 36).
  { unfold handleH, tineLength. rewrite Rmax_right; lra. }
  assert (Hb : handleH b = height b - 36).
  { unfold handleH, tineLength. rewrite Rmax_right; lra. }
  assert (Pt : left_ (handleBox t) = x t + 29 /\ wide (handleBox t) = 22 /\
               top_ (handleBox t) = 0 /\
               top_ (handleBox t) + high (handleBox t) = height t - 36).
  { unfold handleBox, handleX, handleY, cx, handleWidth, PIPE_WIDTH.
    cbn [left_ top_ wide high]. rewrite It, Ht, Ty. repeat split; lra. }
  assert (Pb : left_ (handleBox b) = x b + 29 /\ wide (handleBox b) = 22 /\
               top_ (handleBox b) = y b + 36 /\
               top_ (handleBox b) + high (handleBox b) = 600).
  { unfold handleBox, handleX, handleY, cx, handleWidth, tineLength, PIPE_WIDTH.
    cbn [left_ top_ wide high]. rewrite Ib, Hb. repeat split; lra. }
  split; [intros q; apply Rmax_l|]. split; [exact Pt|]. split; [exact Pb|].
  intros q [-> | ->]; cbn [hitbox left_ top_ wide high].
  - destruct Pt as (-> & -> & E3 & E4). rewrite E4, E3. repeat split; lra.
  - destruct Pb as (-> & -> & E3 & E4). rewrite E4, E3. repeat split; lra.
Qed.

Lemma handle_is_drawn_inside_the_hitbox_witness :
  gapPair (topFork 150) (bottomFork 150) /\
  top_ (handleBox (topFork 150)) + high (handleBox (topFork 150)) =
    height (topFork 150) - 36.
Proof.
  assert (G : gapPair (topFork 150) (bottomFork 150)).
  { unfold gapPair, topFork, bottomFork; simpl.
    unfold GAME_HEIGHT, PIPE_GAP. repeat split; lra. }
  split; [exact G|].
  apply (handle_is_drawn_inside_the_hitbox _ _ G).
Defined.

(** ** The tilt of the peanut *)

Lemma angle_inside (v : R) : -15 <= v <= 15 -> angle v = v * 0.04.
Proof.
  intros H. unfold angle. rewrite Rmin_right by lra. rewrite Rmax_right; lra.
Qed.

(** X13. The peanut is tilted by [0.04 * velocity], cut off at 0.6 on
    either side; the cut never acts in a game, where the velocity lies
    between -10 and 12: the tilt is between -0.4 and 0.48. *)
Theorem tilt_is_never_cut_off_in_a_game :
  forall a : App,
    reachable a ->
    angle (velocity (player (game a))) = velocity (player (game a)) * 0.04 /\
    -0.4 <= angle (velocity (player (game a))) <= 0.48 /\
    (forall v : R, -0.6 <= angle v <= 0.6) /\
    (forall v w : R, v <= w -> angle v <= angle w) /\
    (forall v : R, 15 <= v -> angle v = 0.6) /\
    (forall v : R, v <= -15 -> angle v = -0.6).
Proof.
  intros a Ha.
  destruct (reachable_inv a Ha) as (((_ & _ & _ & Pv) & _) & _).
  assert (E : angle (velocity (player (game a))) =
              velocity (player (game a)) * 0.04) by (apply angle_inside; lra).
  split; [exact E|]. split; [rewrite E; lra|].
  split; [|split; [|split]].
  - intros v. unfold angle. split; [apply Rmax_l|].
    apply Rmax_lub; [lra | apply Rmin_l].
  - intros v w H. unfold angle.
    apply Rle_max_compat_l. apply Rle_min_compat_l. lra.
  - intros v H. unfold angle. rewrite Rmin_left by lra. rewrite Rmax_right; lra.
  - intros v H. unfold angle. rewrite Rmin_right by lra. rewrite Rmax_left; lra.
Qed.

Lemma tilt_is_never_cut_off_in_a_game_witness :
  angle (velocity (player (game (jump (startGame initialApp))))) =
    velocity (player (game (jump (startGame initialApp)))) * 0.04.
Proof.
  apply tilt_is_never_cut_off_in_a_game.
  apply (reach_exec _ CJump); [|exact I].
  apply (reach_exec initialApp CStart reach_init I).
Defined.

(** ** The outline of the soup *)

Lemma surfacePoints_from (frame0 : Z) (n i fuel : nat) :
  (i + n = 81)%nat -> (n <= fuel)%nat ->
  surfacePoints fuel (10 * INR i) frame0 =
    map (fun j => (10 * INR j, soupSurfaceYAt (10 * INR j) frame0)) (seq i n).
Proof.
  revert i fuel. induction n as [|n IH]; intros i fuel Hi Hf.
  - destruct fuel as [|fuel]; [reflexivity|]. cbn [surfacePoints seq map].
    assert (E : gtb (10 * INR i) GAME_WIDTH = true).
    { apply gtb_true_iff. unfold GAME_WIDTH.
      assert (81 <= INR i).
      { replace 81 with (INR 81) by (simpl; lra). apply le_INR. lia. }
      lra. }
    rewrite E. reflexivity.
  - destruct fuel as [|fuel]; [lia|]. cbn [surfacePoints seq map].
    assert (E : gtb (10 * INR i) GAME_WIDTH = false).
    { apply gtb_false_iff. unfold GAME_WIDTH.
      assert (INR i <= 80).
      { replace 80 with (INR 80) by (simpl; lra). apply le_INR. lia. }
      lra. }
    rewrite E.
    replace (10 * INR i + 10) with (10 * INR (S i)) by (rewrite S_INR; lra).
    rewrite (IH (S i) fuel) by lia. reflexivity.
Qed.

(** X14. The loop that traces the soup surface ends after 81 points, at
    [x = 0, 10, ..., 800], each at the height of [soupSurfaceYAt] for the
    frame drawn, between 524 and 556.  The player's centre, [x = 170], is
    one of them: there the surface is drawn at the height the soup test of
    the same frame compares with.  The glossy line stays within 1.2 of the
    surface. *)
Theorem soup_outline_is_the_collision_surface :
  forall (frame0 : Z) (fuel : nat),
    (81 <= fuel)%nat ->
    surfacePoints fuel 0 frame0 =
      map (fun j => (10 * INR j, soupSurfaceYAt (10 * INR j) frame0))
          (seq 0 81) /\
    length (surfacePoints fuel 0 frame0) = 81%nat /\
    (forall pt, In pt (surfacePoints fuel 0 frame0) ->
       0 <= fst pt <= GAME_WIDTH /\ 524 <= snd pt <= 556 /\
       snd pt = soupSurfaceYAt (fst pt) frame0) /\
    In (170, soupSurfaceYAt 170 frame0) (surfacePoints fuel 0 frame0) /\
    (forall p : Player,
       px p = 150 -> pwidth p = 40 ->
       hitsSoup p frame0 = gtb (py p + pheight p) (soupSurfaceYAt 170 frame0)) /\
    (forall x0 : R,
       soupSurfaceYAt x0 frame0 - 1.2 <= glossY x0 frame0
         <= soupSurfaceYAt x0 frame0 + 1.2).
Proof.
  intros frame0 fuel Hf.
  assert (E : surfacePoints fuel 0 frame0 =
      map (fun j => (10 * INR j, soupSurfaceYAt (10 * INR j) frame0))
          (seq 0 81)).
  { replace 0 with (10 * INR 0) at 1 by (simpl; lra).
    apply surfacePoints_from; lia. }
  split; [exact E|]. split; [rewrite E, length_map, length_seq; reflexivity|].
  split; [|split; [|split]].
  - intros pt Hp. rewrite E in Hp. apply in_map_iff in Hp.
    destruct Hp as (j & <- & Hj). apply in_seq in Hj. cbn [fst snd].
    assert (B : 0 <= INR j <= 80).
    { split; [apply pos_INR|].
      replace 80 with (INR 80) by (simpl; lra). apply le_INR. lia. }
    pose proof (soup_band (10 * INR j) frame0).
    unfold GAME_WIDTH. repeat split; lra.
  - rewrite E. apply in_map_iff. exists 17%nat. split; [|apply in_seq; lia].
    replace (10 * INR 17) with 170 by (simpl; lra). reflexivity.
  - intros p Hx Hw. unfold hitsSoup. rewrite Hx, Hw.
    replace (150 + 40 / 2) with 170 by lra. reflexivity.
  - intros x0. unfold glossY.
    pose proof (SIN_bound ((x0 + IZR frame0 * 8) * 0.04)) as [L U]. lra.
Qed.

Lemma soup_outline_is_the_collision_surface_witness :
  length (surfacePoints 81 0 27) = 81%nat /\
  In (170, soupSurfaceYAt 170 27) (surfacePoints 81 0 27).
Proof.
  destruct (soup_outline_is_the_collision_surface 27 81 (Nat.le_refl 81))
    as (_ & L & _ & I170 & _).
  split; [exact L | exact I170].
Defined.

(** ** The skin: storage *)

Lemma saveEffect_items (m : String.string -> option String.string)
      (skin : PeanutSkin) :
  getItem (saveEffect (Items m) skin) SKIN_KEY = Some (Some skin) /\
  (forall k, k <> SKIN_KEY ->
     getItem (saveEffect (Items m) skin) k = getItem (Items m) k) /\
  exists m', saveEffect (Items m) skin = Items m'.
Proof.
  unfold saveEffect, setItem, getItem. split; [|split].
  - rewrite String.eqb_refl. reflexivity.
  - intros k Hk. apply String.eqb_neq in Hk. rewrite Hk. reflexivity.
  - eexists. reflexivity.
Qed.

Lemma mount_items (m : String.string -> option String.string) :
  getItem (snd (mount (Items m))) SKIN_KEY = Some (Some (fst (mount (Items m)))) /\
  (forall k, k <> SKIN_KEY ->
     getItem (snd (mount (Items m))) k = getItem (Items m) k) /\
  exists m', snd (mount (Items m)) = Items m'.
Proof.
  unfold mount.
  destruct (saveEffect_items m "classic"%string) as (G1 & F1 & (m1 & E1)).
  destruct (String.eqb (loadEffect (Items m) "classic"%string) "classic"%string)
    eqn:E; cbn [fst snd].
  - split; [exact G1|]. split; [exact F1|]. exists m1. exact E1.
  - rewrite E1.
    destruct (saveEffect_items m1 (loadEffect (Items m) "classic"%string))
      as (G2 & F2 & (m2 & E2)).
    split; [exact G2|]. split; [|exists m2; exact E2].
    intros k Hk. rewrite (F2 k Hk), <- E1. apply F1. exact Hk.
Qed.

Lemma mount_saved (m : String.string -> option String.string)
      (saved : String.string) :
  m SKIN_KEY = Some saved -> saved <> ""%string ->
  fst (mount (Items m)) = saved.
Proof.
  intros H Hn. unfold mount, loadEffect, getItem. rewrite H.
  apply String.eqb_neq in Hn. rewrite Hn.
  destruct (String.eqb saved "classic"%string) eqn:E; [|reflexivity].
  apply String.eqb_eq in E. symmetry. exact E.
Qed.

(** X15. Mounting reads the skin from storage: the saved string when
    there is one and it is not empty, whatever it is, and ['classic'] when
    the key is missing, the string empty or the storage blocked; nothing is
    thrown.  Afterwards the item of an open storage holds the skin in use,
    and the other items are as they were. *)
Theorem mount_reads_the_saved_skin :
  fst (mount Blocked) = "classic"%string /\ snd (mount Blocked) = Blocked /\
  (forall m : String.string -> option String.string,
     (m SKIN_KEY = None -> fst (mount (Items m)) = "classic"%string) /\
     (m SKIN_KEY = Some ""%string -> fst (mount (Items m)) = "classic"%string) /\
     (forall saved : String.string,
        m SKIN_KEY = Some saved -> saved <> ""%string ->
        fst (mount (Items m)) = saved) /\
     getItem (snd (mount (Items m))) SKIN_KEY =
       Some (Some (fst (mount (Items m)))) /\
     (forall k, k <> SKIN_KEY ->
        getItem (snd (mount (Items m))) k = Some (m k))).
Proof.
  split; [reflexivity|]. split; [reflexivity|]. intros m.
  destruct (mount_items m) as (G & F & _).
  split; [|split; [|split; [|split; [exact G | exact F]]]].
  - intros H. unfold mount, loadEffect, getItem. rewrite H. reflexivity.
  - intros H. unfold mount, loadEffect, getItem. rewrite H. reflexivity.
  - apply mount_saved.
Qed.

Lemma mount_reads_the_saved_skin_witness :
  fst (mount (Items (fun k =>
         if String.eqb k SKIN_KEY then Some "zebra"%string else None)))
    = "zebra"%string /\
  fst (mount (Items (fun _ => None))) = "classic"%string.
Proof.
  destruct mount_reads_the_saved_skin as (_ & _ & T).
  split.
  - destruct (T (fun k => if String.eqb k SKIN_KEY
                          then Some "zebra"%string else None))
      as (_ & _ & T3 & _).
    apply T3; [reflexivity | discriminate].
  - destruct (T (fun _ => None)) as (T1 & _). apply T1. reflexivity.
Defined.

Lemma selectSkin_agrees (s : PeanutSkin) (state : PeanutSkin * Storage) :
  (exists m, snd state = Items m) ->
  getItem (snd state) SKIN_KEY = Some (Some (fst state)) ->
  fst (selectSkin s state) = s /\
  (exists m, snd (selectSkin s state) = Items m) /\
  getItem (snd (selectSkin s state)) SKIN_KEY =
    Some (Some (fst (selectSkin s state))).
Proof.
  intros (m & Hm) Hg. unfold selectSkin.
  destruct (String.eqb s (fst state)) eqn:E.
  - apply String.eqb_eq in E. subst s.
    split; [reflexivity|]. split; [exists m; exact Hm | exact Hg].
  - cbn [fst snd]. rewrite Hm.
    destruct (saveEffect_items m s) as (G & _ & Hex).
    split; [reflexivity|]. split; [exact Hex | exact G].
Qed.

Lemma last_nonempty (p : PeanutSkin) (l : list PeanutSkin) (d d' : PeanutSkin) :
  last (p :: l) d = last (p :: l) d'.
Proof.
  revert p. induction l as [|q l IH]; intros p; [reflexivity|].
  change (last (q :: l) d = last (q :: l) d'). apply IH.
Qed.

Lemma selectAll_agrees (ss : list PeanutSkin) (state : PeanutSkin * Storage) :
  (exists m, snd state = Items m) ->
  getItem (snd state) SKIN_KEY = Some (Some (fst state)) ->
  (exists m, snd (selectAll ss state) = Items m) /\
  getItem (snd (selectAll ss state)) SKIN_KEY =
    Some (Some (fst (selectAll ss state))) /\
  fst (selectAll ss state) = last ss (fst state).
Proof.
  revert state. induction ss as [|s ss IH]; intros state Hm Hg.
  - split; [exact Hm|]. split; [exact Hg | reflexivity].
  - change (selectAll (s :: ss) state) with (selectAll ss (selectSkin s state)).
    destruct (selectSkin_agrees s state Hm Hg) as (F & Hm' & Hg').
    destruct (IH _ Hm' Hg') as (A & B & C).
    split; [exact A|]. split; [exact B|]. rewrite C, F.
    destruct ss as [|p ss]; [reflexivity|].
    change (last (s :: p :: ss) (fst state)) with (last (p :: ss) (fst state)).
    apply last_nonempty.
Qed.

Lemma selectAll_blocked (ss : list PeanutSkin) (state : PeanutSkin * Storage) :
  snd state = Blocked -> snd (selectAll ss state) = Blocked.
Proof.
  revert state. induction ss as [|s ss IH]; intros state H; [exact H|].
  change (selectAll (s :: ss) state) with (selectAll ss (selectSkin s state)).
  apply IH. unfold selectSkin.
  destruct (String.eqb s (fst state)); [exact H|].
  cbn [snd]. rewrite H. reflexivity.
Qed.

(** X16. The choice of a skin survives a reload: after any clicks in the
    menu, with an open storage, mounting the component again on the storage
    they leave gives the skin chosen last.  With a blocked storage a reload
    gives ['classic']. *)
Theorem chosen_skin_survives_reload :
  forall (m : String.string -> option String.string)
         (ss : list PeanutSkin) (s : PeanutSkin),
    s <> ""%string ->
    fst (selectAll (ss ++ [s]) (mount (Items m))) = s /\
    fst (mount (snd (selectAll (ss ++ [s]) (mount (Items m))))) = s /\
    fst (mount (snd (selectAll (ss ++ [s]) (mount Blocked))))
      = "classic"%string.
Proof.
  intros m ss s Hs.
  destruct (mount_items m) as (G & _ & Hm).
  destruct (selectAll_agrees (ss ++ [s]) (mount (Items m)) Hm G)
    as ((m' & Hm') & Hg' & Hl).
  rewrite last_last in Hl.
  split; [exact Hl|]. split.
  - rewrite Hm' in *. unfold getItem in Hg'. injection Hg' as Hg'.
    rewrite Hl in Hg'. apply mount_saved; assumption.
  - rewrite selectAll_blocked; reflexivity.
Qed.

Lemma chosen_skin_survives_reload_witness :
  fst (mount (snd (selectAll (["honey"%string] ++ ["cool"%string])
                     (mount (Items (fun _ => None))))))
    = "cool"%string.
Proof.
  apply (chosen_skin_survives_reload (fun _ => None) ["honey"%string]
           "cool"%string).
  discriminate.
Defined.

(** ** The skin: menu *)

Lemma skins_ids :
  map skin_id skins =
    ["classic"%string; "salted"%string; "honey"%string; "chocolate"%string;
     "spicy"%string; "cool"%string].
Proof. reflexivity. Qed.

(** X17. The menu lists six skins with distinct identifiers.  For each of
    them the footer shows its label and exactly one option is marked
    selected.  For any other string, as storage may hold one, the footer
    shows ['Classic'] and no option is marked. *)
Theorem one_option_selected_for_a_listed_skin :
  NoDup (map skin_id skins) /\ length skins = 6%nat /\
  (forall e : SkinEntry,
     In e skins ->
     footerLabel (skin_id e) = skin_label e /\
     length (filter (fun f : bool => f) (selectedFlags (skin_id e))) = 1%nat) /\
  (forall s : PeanutSkin,
     ~ In s (map skin_id skins) ->
     footerLabel s = "Classic"%string /\
     selectedFlags s = repeat false 6).
Proof.
  split; [|split; [reflexivity|split]].
  - rewrite skins_ids.
    repeat (constructor; [simpl; intuition discriminate|]). constructor.
  - intros e He. simpl in He.
    repeat (destruct He as [<- | He]; [split; reflexivity|]). destruct He.
  - intros s Hs. rewrite skins_ids in Hs. simpl in Hs.
    assert (N : forall t, (t = s -> False) -> String.eqb t s = false
                                               /\ String.eqb s t = false).
    { intros t Ht. split; apply String.eqb_neq; congruence. }
    unfold footerLabel, selectedFlags, skins. cbn [find map skin_id].
    destruct (N "classic"%string) as [-> ->]; [tauto|].
    destruct (N "salted"%string) as [-> ->]; [tauto|].
    destruct (N "honey"%string) as [-> ->]; [tauto|].
    destruct (N "chocolate"%string) as [-> ->]; [tauto|].
    destruct (N "spicy"%string) as [-> ->]; [tauto|].
    destruct (N "cool"%string) as [-> ->]; [tauto|].
    split; reflexivity.
Qed.

Lemma one_option_selected_for_a_listed_skin_witness :
  footerLabel "honey"%string = "Honey-Roasted"%string /\
  footerLabel "zebra"%string = "Classic"%string /\
  selectedFlags "zebra"%string = repeat false 6.
Proof.
  destruct one_option_selected_for_a_listed_skin as (_ & _ & T3 & T4).
  split.
  - apply (T3 (mkSkin "honey"%string "Honey-Roasted"%string)).
    simpl. tauto.
  - apply (T4 "zebra"%string). simpl. intuition discriminate.
Defined.

(** ** The static server *)

Lemma beforeQuery_append (u q : String.string) :
  beforeQuery (String.append u (String.String "?"%char q)) = beforeQuery u.
Proof.
  induction u as [|c u IH]; [reflexivity|].
  cbn [String.append beforeQuery]. destruct (Ascii.eqb c "?"%char);
    [reflexivity | rewrite IH; reflexivity].
Qed.

(** X18. The query string plays no part: a request for [u?q] is
    answered, and touches the file system, exactly as a request for [u]. *)
Theorem query_string_is_ignored :
  forall (h : Host) (u q : String.string),
    handler h (String.append u (String.String "?"%char q)) = handler h u.
Proof.
  intros h u q. unfold handler. rewrite beforeQuery_append. reflexivity.
Qed.

Lemma contentType_known (ext : String.string) :
  contentType ext <> ""%string /\
  (In (ext, contentType ext) mime \/
   contentType ext = "application/octet-stream"%string).
Proof.
  unfold contentType, mime. cbn [lookup].
  repeat (match goal with
          | |- context [String.eqb ?k ext] =>
              destruct (String.eqb_spec k ext) as [<- | ?];
              [split; [discriminate | left; simpl; tauto]|]
          end).
  split; [discriminate | right; reflexivity].
Qed.

(** X19. What the handler answers.  An exception escapes exactly when
    the path cannot be decoded or an [fs] function refuses the path it is
    given (a decoded NUL character, as in [/%00]); in the first case no
    [fs] function has been called.  Otherwise the answer is 403, 404 or
    200.  A 403 answer is given without a call of [fs]; [fs.stat] is only
    ever called on a path that starts with the root, and a file is only
    read after [fs.stat] has succeeded.  A 200 answer carries the content
    of the file read, a content type that is an entry of the table or
    ['application/octet-stream'], and ['Cache-Control: no-cache']. *)
Theorem handler_answers :
  forall (h : Host) (url : String.string),
    let out := fst (handler h url) in
    let calls := snd (handler h url) in
    (out = Throws <->
       decodeURIComponent h (beforeQuery url) = None \/
       (exists p, In (Stat p) calls /\ fs_stat h p = Refused) \/
       (exists p, In (ReadFile p) calls /\ fs_readFile h p = Refused)) /\
    (decodeURIComponent h (beforeQuery url) = None -> calls = []) /\
    (forall r, out = Responds r ->
       (status r = 403 \/ status r = 404 \/ status r = 200)%nat /\
       (status r = 403%nat -> calls = [] /\ headers r = [] /\
                              body r = "Forbidden"%string) /\
       (status r = 404%nat -> headers r = [] /\ body r = "Not found"%string) /\
       (status r = 200%nat ->
        exists path type,
          In (ReadFile path) calls /\ fs_readFile h path = Done (body r) /\
          headers r = [("Content-Type"%string, type);
                       ("Cache-Control"%string, "no-cache"%string)] /\
          type = contentType (toLowerCase h (path_extname h path)) /\
          type <> ""%string /\
          (In type (map snd mime) \/
           type = "application/octet-stream"%string))) /\
    (forall p, In (Stat p) calls -> String.prefix (root h) p = true) /\
    (forall p, In (ReadFile p) calls ->
       exists q, In (Stat q) calls /\
         (fs_stat h q = Done false /\ p = q \/
          fs_stat h q = Done true /\ p = path_join h q "index.html"%string)).
Proof.
  intros h url. unfold handler.
  destruct (decodeURIComponent h (beforeQuery url)) as [urlPath|] eqn:D;
    cbn [fst snd].
  2:{ split; [split; [intros _; left; reflexivity | reflexivity]|].
      repeat split; try reflexivity; try discriminate; intros; try easy. }
  set (filePath := path_join h (root h)
         (if String.eqb urlPath "/"%string then "/index.html"%string
          else urlPath)).
  destruct (String.prefix (root h) filePath) eqn:P; cbn [negb fst snd].
  2:{ split.
      { split; [discriminate|].
        intros [E | [(p & [] & _) | (p & [] & _)]]. discriminate E. }
      split; [discriminate|].
      split; [|split; intros p []].
      intros r E. injection E as <-. cbn [status headers body].
      repeat split; try discriminate; tauto. }
  destruct (fs_stat h filePath) as [ | |isDir] eqn:S; cbn [fst snd].
  - split.
    { split; [|reflexivity]. intros _. right. left. exists filePath.
      split; [left; reflexivity | exact S]. }
    split; [discriminate|]. split; [discriminate|]. split.
    + intros p [E | []]. injection E as <-. exact P.
    + intros p [E | []]. discriminate E.
  - split.
    { split; [discriminate|].
      intros [E | [(p & [E | []] & R) | (p & [E | []] & _)]];
        try discriminate E.
      injection E as <-. rewrite S in R. discriminate R. }
    split; [discriminate|]. split; [|split].
    + intros r E. injection E as <-. cbn [status headers body].
      repeat split; try discriminate; tauto.
    + intros p [E | []]. injection E as <-. exact P.
    + intros p [E | []]. discriminate E.
  - set (filePath' := if isDir then path_join h filePath "index.html"%string
                      else filePath).
    assert (Hread : forall p,
              In (ReadFile p) [Stat filePath; ReadFile filePath'] ->
              exists q, In (Stat q) [Stat filePath; ReadFile filePath'] /\
                (fs_stat h q = Done false /\ p = q \/
                 fs_stat h q = Done true /\
                 p = path_join h q "index.html"%string)).
    { intros p [E | [E | []]]; [discriminate E|]. injection E as <-.
      exists filePath. split; [left; reflexivity|].
      unfold filePath'. destruct isDir; [right | left]; split;
        try exact S; reflexivity. }
    assert (Hstat : forall p,
              In (Stat p) [Stat filePath; ReadFile filePath'] ->
              String.prefix (root h) p = true).
    { intros p [E | [E | []]]; [|discriminate E]. injection E as <-. exact P. }
    assert (Hquiet : forall r : Response,
              fs_readFile h filePath' <> Refused ->
              Responds r = Throws <->
              Some urlPath = None \/
              (exists p, In (Stat p) [Stat filePath; ReadFile filePath'] /\
                         fs_stat h p = Refused) \/
              (exists p, In (ReadFile p) [Stat filePath; ReadFile filePath'] /\
                         fs_readFile h p = Refused)).
    { intros r N. split; [discriminate|].
      intros [E | [(p & [E | [E | []]] & R) | (p & [E | [E | []]] & R)]];
        try discriminate E.
      - injection E as <-. rewrite S in R. discriminate R.
      - injection E as <-. contradiction. }
    destruct (fs_readFile h filePath') as [ | |data] eqn:F; cbn [fst snd].
    + split.
      { split; [|reflexivity]. intros _. right. right. exists filePath'.
        split; [right; left; reflexivity | exact F]. }
      split; [discriminate|]. split; [discriminate|].
      split; assumption.
    + split; [apply Hquiet; discriminate|].
      split; [discriminate|]. split; [|split; assumption].
      intros r E. injection E as <-. cbn [status headers body].
      repeat split; try discriminate; tauto.
    + split; [apply Hquiet; discriminate|].
      split; [discriminate|]. split; [|split; assumption].
      intros r E. injection E as <-. cbn [status headers body].
      split; [tauto|]. repeat split; try discriminate.
      intros _.
      exists filePath',
        (contentType (toLowerCase h (path_extname h filePath'))).
      destruct (contentType_known (toLowerCase h (path_extname h filePath')))
        as [N K].
      split; [right; left; reflexivity|]. split; [exact F|].
      split; [reflexivity|]. split; [reflexivity|]. split; [exact N|].
      destruct K as [K | K]; [left | right; exact K].
      apply in_map_iff. eexists. split; [|exact K]. reflexivity.
Qed.

Lemma handler_answers_witness :
  fst (handler exampleHost "/index.html?v=2"%string) =
    Responds (mkResponse 200
      [("Content-Type"%string, "text/html; charset=utf-8"%string);
       ("Cache-Control"%string, "no-cache"%string)]
      "<html></html>"%string) /\
  (forall p, In (Stat p) (snd (handler exampleHost "/index.html?v=2"%string)) ->
     String.prefix "/srv"%string p = true) /\
  decodeURIComponent exampleHost "/%00"%string <> None /\
  fst (handler exampleHost "/%00"%string) = Throws.
Proof.
  split; [reflexivity|]. split.
  - apply (handler_answers exampleHost "/index.html?v=2"%string).
  - split; [discriminate|].
    apply (proj1 (handler_answers exampleHost "/%00"%string)).
    right. left.
    exists (String.append "/srv"%string
              (String.String "/"%char (String.String NUL String.EmptyString))).
    split; [left; reflexivity | reflexivity].
Defined.

(** X20. The root of the site is its index page: when the two paths
    decode to themselves, a request for [/] is answered exactly as a
    request for [/index.html]. *)
Theorem root_url_serves_the_index :
  forall h : Host,
    decodeURIComponent h "/"%string = Some "/"%string ->
    decodeURIComponent h "/index.html"%string = Some "/index.html"%string ->
    handler h "/"%string = handler h "/index.html"%string.
Proof.
  intros h H1 H2. unfold handler.
  assert (B1 : beforeQuery "/"%string = "/"%string) by reflexivity.
  assert (B2 : beforeQuery "/index.html"%string = "/index.html"%string)
    by reflexivity.
  rewrite B1, B2, H1, H2. reflexivity.
Qed.

Lemma root_url_serves_the_index_witness :
  handler exampleHost "/"%string = handler exampleHost "/index.html"%string /\
  fst (handler exampleHost "/"%string) =
    Responds (mkResponse 200
      [("Content-Type"%string, "text/html; charset=utf-8"%string);
       ("Cache-Control"%string, "no-cache"%string)]
      "<html></html>"%string).
Proof.
  split; [|reflexivity].
  apply (root_url_serves_the_index exampleHost); reflexivity.
Defined.

(** ** Several sessions *)

(** X21. After any number of sessions played one after the other, each
    to its end, [highScore] is the largest of its value before them and
    the scores they ended with. *)
Theorem highScore_is_the_best_of_all_sessions :
  forall (css : list (list Call)) (a : App),
    reachable a -> Forall (Forall inSession) css -> allOver css a ->
    highScore (playAll css a) = fold_left Z.max (scoresOf css a) (highScore a) /\
    Forall (fun s => (s <= highScore (playAll css a))%Z) (scoresOf css a) /\
    (highScore a <= highScore (playAll css a))%Z.
Proof.
  induction css as [|cs rest IH]; intros a Ha Hcs Hover.
  - simpl. split; [reflexivity|]. split; [constructor | lia].
  - inversion Hcs as [|? ? Hc Hrest]; subst.
    destruct Hover as [Hover1 Hover2].
    assert (R0 : reachable (startGame a))
      by apply (reach_exec a CStart Ha I).
    assert (R1 : reachable (run cs (startGame a))).
    { apply reachable_run; [exact R0|].
      apply Forall_impl with (P := inSession); [apply inSession_ok | exact Hc]. }
    pose proof (session_highScore cs (startGame a) R0 eq_refl Hc Hover1) as E.
    cbn [startGame setGameState resetGame highScore] in E.
    destruct (IH _ R1 Hrest Hover2) as (E1 & E2 & E3).
    cbn [playAll scoresOf fold_left].
    split; [rewrite E1, E; reflexivity|]. split; [|lia].
    constructor; [lia | exact E2].
Qed.

Lemma highScore_is_the_best_of_all_sessions_witness :
  highScore (playAll [riseCalls 32; riseCalls 32] initialApp) =
    fold_left Z.max (scoresOf [riseCalls 32; riseCalls 32] initialApp)
      (highScore initialApp).
Proof.
  assert (F : Forall (Forall inSession) [riseCalls 32; riseCalls 32]).
  { apply Forall_cons; [apply riseCalls_inSession|].
    apply Forall_cons; [apply riseCalls_inSession | apply Forall_nil]. }
  assert (O : allOver [riseCalls 32; riseCalls 32] initialApp).
  { destruct (rise_ends initialApp) as (_ & O1 & _).
    destruct (rise_ends (run (riseCalls 32) (startGame initialApp)))
      as (_ & O2 & _).
    cbn [allOver]. split; [exact O1|]. split; [exact O2 | exact I]. }
  destruct (highScore_is_the_best_of_all_sessions _ _ reach_init F O)
    as (T & _).
  exact T.
Defined.

(** ** The theorems at concrete inputs, continued *)

Lemma rise_reachable (k : nat) (a : App) :
  reachable a -> reachable (run (riseCalls k) (startGame a)).
Proof.
  intros Ha. apply reachable_run; [|apply riseCalls_ok].
  apply (reach_exec a CStart Ha I).
Qed.

Lemma score_is_function_of_frameCount_witness :
  score (run (riseCalls 32) (startGame initialApp)) =
    Z.max 0
      ((frameCount (game (run (riseCalls 32) (startGame initialApp))) - 187)
       / 140).
Proof.
  pose proof (rise_reachable 32 initialApp reach_init) as R.
  destruct (score_is_function_of_frameCount _ R) as (T & _).
  exact T.
Defined.

Lemma at_most_two_pairs_in_the_world_witness :
  (length (pipes (game (run (riseCalls 32) (startGame initialApp)))) <= 4)%nat.
Proof.
  pose proof (rise_reachable 32 initialApp reach_init) as R.
  destruct (at_most_two_pairs_in_the_world _ R) as (T & _).
  exact T.
Defined.

Lemma every_pair_keeps_a_passable_gap_witness :
  pipes (game atFrame140) =
    [movePipe (topFork (pipeHeightOf 0));
     movePipe (bottomFork (pipeHeightOf 0))] /\
  inPairs gapPair (pipes (game atFrame140)) /\
  gapPair (movePipe (topFork (pipeHeightOf 0)))
    (movePipe (bottomFork (pipeHeightOf 0))) /\
  hitsFork (mkPlayer 150 200 40 40 0)
    (movePipe (topFork (pipeHeightOf 0))) = false /\
  hitsFork (mkPlayer 150 200 40 40 0)
    (movePipe (bottomFork (pipeHeightOf 0))) = false.
Proof.
  destruct atFrame140_state as (R & _ & _ & _ & P).
  destruct (every_pair_keeps_a_passable_gap atFrame140 R) as (T1 & T2).
  split; [exact P|]. split; [exact T1|].
  assert (G : gapPair (movePipe (topFork (pipeHeightOf 0)))
                (movePipe (bottomFork (pipeHeightOf 0)))).
  { rewrite P in T1. exact (inPairs_head _ _ _ _ T1). }
  split; [exact G|].
  apply (proj2 (T2 _ _ G) (mkPlayer 150 200 40 40 0));
    cbn [movePipe topFork bottomFork height y py pheight];
    unfold pipeHeightOf, GAME_HEIGHT, PIPE_GAP; lra.
Defined.

Lemma playing_state_is_collision_free_witness :
  gameState (startGame initialApp) = playing /\
  (0 <= py (player (game (startGame initialApp)))) /\
  (py (player (game (startGame initialApp))) +
     pheight (player (game (startGame initialApp))) <= 556).
Proof.
  pose proof (reach_exec initialApp CStart reach_init I) as R.
  destruct (playing_state_is_collision_free _ R) as (_ & T).
  split; [reflexivity|].
  destruct (T eq_refl) as (T1 & T2 & _). split; [exact T1 | exact T2].
Defined.

Lemma score_at_most_highScore_outside_a_session_witness :
  (score (handle ClickChangePeanut initialApp)
   <= highScore (handle ClickChangePeanut initialApp))%Z.
Proof.
  refine (score_at_most_highScore_outside_a_session _ _ _).
  - apply page_input; [exact page_init | exact I].
  - discriminate.
Defined.

Lemma no_session_ends_before_frame_27_witness :
  gameState (run (riseCalls 32) (startGame initialApp)) = gameOver /\
  (27 <= frameCount (game (run (riseCalls 32) (startGame initialApp))))%Z.
Proof.
  pose proof (rise_reachable 32 initialApp reach_init) as R.
  destruct (rise_ends initialApp) as (_ & O & _).
  split; [exact O|].
  exact (no_session_ends_before_frame_27 _ R O).
Defined.

Lemma a_jump_lifts_by_at_most_95_witness :
  py freshPlayer - 95 <= py (afterJump 100 freshPlayer) /\
  py (afterJump 19 freshPlayer) = py freshPlayer - 95.
Proof.
  destruct (a_jump_lifts_by_at_most_95 freshPlayer 100)
    as (T1 & _ & T3 & _).
  split; [exact T1 | exact T3].
Defined.
